(** * Pompora change-proposal engine: a shallow embedding of [src/src/AppShell.tsx]

    Part I embeds the engine, function by function: the string primitives
    of the JavaScript runtime that it relies on, the unified-diff parser and
    applier, the git multi-file splitter, the edit normaliser, the Myers
    line differ, the change-set builder, the accept / reject controller and
    the structured-output recoverer, and then the helpers around it: path
    helpers, the file index, quick open, relative times, proposals,
    languages and icons, and the cleaning of terminal output.  Part II
    holds the predicates in which the properties are stated, Part III the
    proofs.

    Modelling conventions.
    - A JavaScript string is modelled by its UTF-8 byte sequence, a Rocq
      [string].  Searching, splitting, prefix tests and equality commute with
      that encoding.  The white-space class of [trim] and of the regular
      expression class \s is the list [wsTokens] of encoded code points.
    - Array indices and lengths are modelled by [Z].  The numbers that the
      diff parser reads from a hunk header, and what the applier computes
      from them, are IEEE 754 doubles: they are modelled by [Num.JsNum], an
      integer that a double holds or an infinity, with the rounding of the
      runtime written out ([Num.round]).
    - The Tauri file commands ([workspaceReadFile] and friends) are not part
      of the repository sources that are available; they are modelled from
      the specification, see [Module Workspace]. *)

From Stdlib Require Import ZArith Ascii String List DecimalString Bool Lia.
From stdpp Require Import gmap strings list.

Local Open Scope Z_scope.

(** * Part I: the embedding of the source *)

(** ** Results of fallible functions *)

Inductive Result (E A : Type) : Type :=
| Ok (a : A)
| Err (e : E).
Arguments Ok {E A} a.
Arguments Err {E A} e.

Definition rbind {E A B} (r : Result E A) (k : A -> Result E B) : Result E B :=
  match r with
  | Ok a => k a
  | Err e => Err e
  end.

Notation "'do' x <- r ; k" := (rbind r (fun x => k))
  (at level 10, x pattern, r at level 100, k at level 200).

(** ** JavaScript string primitives *)

Module Js.

Definition LF : ascii := "010"%char.
Definition CR : ascii := "013"%char.
Definition DQ : ascii := "034"%char.
Definition BSL : ascii := "092"%char.
Definition SLASH : ascii := "/"%char.

Definition str1 (c : ascii) : string := String c EmptyString.

Definition strOfCodes (l : list nat) : string :=
  string_of_list_ascii (map ascii_of_nat l).

(** [s.startsWith(p)] *)
Definition startsWith (p s : string) : bool := String.prefix p s.

(** [s.slice(n)] for a non-negative [n]. *)
Fixpoint drop (n : nat) (s : string) : string :=
  match n, s with
  | O, _ => s
  | S n', String _ s' => drop n' s'
  | S _, EmptyString => EmptyString
  end.

(** [s.slice(0, n)] for a non-negative [n]. *)
Fixpoint take (n : nat) (s : string) : string :=
  match n, s with
  | O, _ => EmptyString
  | S n', String c s' => String c (take n' s')
  | S _, EmptyString => EmptyString
  end.

(** [s.indexOf(p)], [None] standing for -1. *)
Fixpoint indexOf (p s : string) : option nat :=
  if startsWith p s then Some O
  else match s with
       | EmptyString => None
       | String _ s' => option_map S (indexOf p s')
       end.

(** [s.includes(p)] *)
Definition includes (p s : string) : bool :=
  match indexOf p s with Some _ => true | None => false end.

(** [s.split(c)] for a one-character separator: always at least one piece. *)
Fixpoint splitChar (c : ascii) (s : string) : list string :=
  match s with
  | EmptyString => [EmptyString]
  | String a s' =>
      let r := splitChar c s' in
      if Ascii.eqb a c then EmptyString :: r
      else match r with
           | h :: t => String a h :: t
           | [] => [str1 a]
           end
  end.

(** [s.split(sep)] for a non-empty separator string, scanning left to right
    for non-overlapping occurrences.  [skip] counts the bytes of a separator
    still to be passed over, [cur] is the piece being collected. *)
Fixpoint splitAux (sep : string) (skip : nat) (cur : string) (s : string) : list string :=
  match s with
  | EmptyString => [cur]
  | String a s' =>
      match skip with
      | S k => splitAux sep k cur s'
      | O =>
          if startsWith sep s
          then cur :: splitAux sep (String.length sep - 1) EmptyString s'
          else splitAux sep O (cur +:+ str1 a) s'
      end
  end.

Definition split (sep s : string) : list string := splitAux sep O EmptyString s.

(** [ls.join(sep)] *)
Definition join (sep : string) (ls : list string) : string := String.concat sep ls.

(** [s.replace(/\r\n/g, "\n")] *)
Fixpoint replaceCRLF (s : string) : string :=
  match s with
  | EmptyString => EmptyString
  | String a s' =>
      match s' with
      | String b s'' =>
          if Ascii.eqb a CR && Ascii.eqb b LF
          then String LF (replaceCRLF s'')
          else String a (replaceCRLF s')
      | EmptyString => String a EmptyString
      end
  end.

(** [s.replace(/\\/g, "/")] *)
Fixpoint replaceBackslashes (s : string) : string :=
  match s with
  | EmptyString => EmptyString
  | String a s' =>
      String (if Ascii.eqb a BSL then SLASH else a) (replaceBackslashes s')
  end.

(** The white-space code points of ECMAScript ([WhiteSpace] and
    [LineTerminator]), each by its UTF-8 encoding: TAB, LF, VT, FF, CR, SP,
    U+00A0, U+1680, U+2000 to U+200A, U+2028, U+2029, U+202F, U+205F,
    U+3000 and U+FEFF. *)
Definition wsTokens : list string :=
  map strOfCodes
    [ [9]; [10]; [11]; [12]; [13]; [32];
      [194; 160]; [225; 154; 128];
      [226; 128; 128]; [226; 128; 129]; [226; 128; 130]; [226; 128; 131];
      [226; 128; 132]; [226; 128; 133]; [226; 128; 134]; [226; 128; 135];
      [226; 128; 136]; [226; 128; 137]; [226; 128; 138];
      [226; 128; 168]; [226; 128; 169]; [226; 128; 175];
      [226; 129; 159]; [227; 128; 128]; [239; 187; 191] ]%nat.

(** One white-space code point at the head of [s], if any, is removed. *)
Definition dropWs1 (s : string) : option string :=
  match List.find (fun t => startsWith t s) wsTokens with
  | Some t => Some (drop (String.length t) s)
  | None => None
  end.

Fixpoint trimStartN (fuel : nat) (s : string) : string :=
  match fuel with
  | O => s
  | S f =>
      match dropWs1 s with
      | Some r => trimStartN f r
      | None => s
      end
  end.

(** [s.trimStart()] *)
Definition trimStart (s : string) : string := trimStartN (String.length s) s.

(** [s] consists of white space only. *)
Definition allWs (s : string) : bool := String.eqb (trimStart s) EmptyString.

(** [s.trimEnd()]: the longest white-space suffix is cut. *)
Fixpoint trimEnd (s : string) : string :=
  match s with
  | EmptyString => EmptyString
  | String a s' => if allWs s then EmptyString else String a (trimEnd s')
  end.

(** [s.trim()] *)
Definition trim (s : string) : string := trimEnd (trimStart s).

(** The longest prefix of characters satisfying [p], and the rest. *)
Fixpoint span (p : ascii -> bool) (s : string) : string * string :=
  match s with
  | EmptyString => (EmptyString, EmptyString)
  | String a s' =>
      if p a then let '(t, r) := span p s' in (String a t, r)
      else (EmptyString, s)
  end.

Definition isDigit (a : ascii) : bool :=
  let n := nat_of_ascii a in ((48 <=? n) && (n <=? 57))%nat.

Definition isAsciiLetter (a : ascii) : bool :=
  let n := nat_of_ascii a in
  (((65 <=? n) && (n <=? 90)) || ((97 <=? n) && (n <=? 122)))%nat.

(** The integer that a non-empty string of decimal digits denotes. *)
Definition digitsToZ (s : string) : Z :=
  fold_left (fun acc a => 10 * acc + (Z.of_nat (nat_of_ascii a) - 48))
            (list_ascii_of_string s) 0.

(** String conversion of an integer below 2^53, as in a template literal:
    its decimal digits. *)
Definition showZ (z : Z) : string := NilZero.string_of_int (Z.to_int z).

(** ASCII part of [s.toLowerCase()]; the operation names the source compares
    the result with are ASCII and have no other pre-image than their ASCII
    spellings. *)
Definition lowerChar (a : ascii) : ascii :=
  let n := nat_of_ascii a in
  if ((65 <=? n) && (n <=? 90))%nat then ascii_of_nat (n + 32) else a.

Fixpoint toLowerCase (s : string) : string :=
  match s with
  | EmptyString => EmptyString
  | String a s' => String (lowerChar a) (toLowerCase s')
  end.

(** [a[i]] on an array, [None] standing for [undefined]. *)
Definition getZ {A} (l : list A) (i : Z) : option A :=
  if i <? 0 then None else nth_error l (Z.to_nat i).

(** [a.slice(i, j)] for [0 <= i]. *)
Definition sliceZ {A} (l : list A) (i j : Z) : list A :=
  firstn (Z.to_nat j - Z.to_nat i) (skipn (Z.to_nat i) l).

(** [a.slice(i)] for [0 <= i]. *)
Definition sliceFromZ {A} (l : list A) (i : Z) : list A := skipn (Z.to_nat i) l.

Definition lenZ {A} (l : list A) : Z := Z.of_nat (List.length l).

(** [hasChar c s]: the character [c] occurs in [s]. *)
Fixpoint hasChar (c : ascii) (s : string) : bool :=
  match s with
  | EmptyString => false
  | String a s' => Ascii.eqb a c || hasChar c s'
  end.

(** [allChars p s]: every character of [s] satisfies [p]. *)
Fixpoint allChars (p : ascii -> bool) (s : string) : bool :=
  match s with
  | EmptyString => true
  | String a s' => p a && allChars p s'
  end.

End Js.

(** ** JavaScript numbers *)

Module Num.

(** The doubles that the parser and the applier compute with are integers
    or infinite: [Fin z] is the double whose value is the integer [z]. *)
Inductive JsNum := Fin (z : Z) | PosInf | NegInf.

(** Rounding of a non-negative integer to the nearest double, ties to the
    even significand; [None] stands for the overflow to infinity.  Below
    2^53 every integer is a double; above, [e] is the exponent of the unit
    in the last place, [q] the significand of 53 bits, [r] what is cut
    off. *)
Definition roundMag (n : Z) : option Z :=
  if n <? 2 ^ 53 then Some n
  else
    let e := Z.log2 n - 52 in
    let q := n / 2 ^ e in
    let r := n mod 2 ^ e in
    let half := 2 ^ (e - 1) in
    let q' := if (half <? r) || ((r =? half) && Z.odd q) then q + 1 else q in
    let m := q' * 2 ^ e in
    if m <? 2 ^ 1024 then Some m else None.

(** The double nearest to the integer [z]. *)
Definition round (z : Z) : JsNum :=
  match roundMag (Z.abs z) with
  | Some m => Fin (Z.sgn z * m)
  | None => if 0 <? z then PosInf else NegInf
  end.

(** [Number(s)] for a non-empty string of decimal digits: the double
    nearest to the integer that the digits denote.  For more than twenty
    significant digits the standard leaves the last bit to the engine; the
    engines round the exact value. *)
Definition ofDigits (s : string) : JsNum := round (Js.digitsToZ s).

(** [x + k] for an integer [k] that is a double; [x - k] is [addZ x (- k)]. *)
Definition addZ (x : JsNum) (k : Z) : JsNum :=
  match x with
  | Fin z => round (z + k)
  | _ => x
  end.

(** [Math.max(0, x)] *)
Definition max0 (x : JsNum) : JsNum :=
  match x with
  | Fin z => Fin (Z.max 0 z)
  | PosInf => PosInf
  | NegInf => Fin 0
  end.

(** [Math.max(lo, Math.min(x, len))] for integers [lo] and [len] that are
    doubles: the result is one of [lo], [len] and [x], hence an integer. *)
Definition clamp (lo len : Z) (x : JsNum) : Z :=
  match x with
  | Fin z => Z.max lo (Z.min z len)
  | PosInf => Z.max lo len
  | NegInf => lo
  end.

(** [Math.abs(i - x)] for an integer [i] that is a double. *)
Definition absDiff (i : Z) (x : JsNum) : JsNum :=
  match x with
  | Fin z =>
      match round (i - z) with
      | Fin d => Fin (Z.abs d)
      | _ => PosInf
      end
  | _ => PosInf
  end.

(** [x < y] *)
Definition ltb (x y : JsNum) : bool :=
  match x, y with
  | Fin a, Fin b => a <? b
  | Fin _, PosInf => true
  | NegInf, Fin _ => true
  | NegInf, PosInf => true
  | _, _ => false
  end.

(** [x === 0] *)
Definition isZero (x : JsNum) : bool :=
  match x with
  | Fin z => z =? 0
  | _ => false
  end.

(** The integer [v] rounds to the double [z]. *)
Definition roundsTo (z v : Z) : bool :=
  match round v with
  | Fin m => m =? z
  | _ => false
  end.

(** The digits of [Number::toString] for a positive double [z] of [n]
    decimal digits: the least number [k] of significant digits, and with it
    the integer [s] of [k] digits, such that [s * 10^(n - k)] rounds to
    [z]; of two such [s] the one nearer to [z], the even one when they are
    as near.  Seventeen digits always tell a double. *)
Fixpoint shortest (fuel : nat) (k n z : Z) : Z * Z :=
  match fuel with
  | O => (z, n)
  | S f =>
      let p := 10 ^ (n - k) in
      let lo := z / p in
      let hi := lo + 1 in
      let okLo := roundsTo z (lo * p) in
      let okHi := (hi <? 10 ^ k) && roundsTo z (hi * p) in
      if okLo && okHi then
        let dl := z - lo * p in
        let dh := hi * p - z in
        if dl <? dh then (lo, k)
        else if dh <? dl then (hi, k)
        else if Z.even lo then (lo, k) else (hi, k)
      else if okLo then (lo, k)
      else if okHi then (hi, k)
      else shortest f (k + 1) n z
  end.

Fixpoint zeros (n : nat) : string :=
  match n with
  | O => EmptyString
  | S m => String "0" (zeros m)
  end.

(** [Number::toString] of a positive double: the digits [s], followed by
    zeros up to 21 digits in all, and in the exponent form beyond.  When the
    next power of ten rounds to [z], its digit 1 is the shortest form. *)
Definition showPos (z : Z) : string :=
  let n0 := Z.of_nat (String.length (Js.showZ z)) in
  let '(s, k, n) :=
    if roundsTo z (10 ^ n0) then (1, 1, n0 + 1)
    else let '(s, k) := shortest 17 1 n0 z in (s, k, n0) in
  let ds := Js.showZ s in
  if n <=? 21 then ds +:+ zeros (Z.to_nat (n - k))
  else
    match ds with
    | String d EmptyString => String d ("e+" +:+ Js.showZ (n - 1))
    | String d rest => String d ("." +:+ rest +:+ "e+" +:+ Js.showZ (n - 1))
    | EmptyString => EmptyString
    end.

(** String conversion of a number, as in a template literal. *)
Definition toString (x : JsNum) : string :=
  match x with
  | PosInf => "Infinity"
  | NegInf => "-Infinity"
  | Fin z =>
      if z =? 0 then "0"
      else if z <? 0 then "-" +:+ showPos (- z)
      else showPos z
  end.

End Num.

(** ** Lines *)

(** [splitLines] (AppShell.tsx, line 542). *)
Definition splitLines (s : string) : list string :=
  Js.splitChar Js.LF (Js.replaceCRLF s).

(** ** Unified diff parser (AppShell.tsx, lines 554-619) *)

Inductive LineKind := ctx | add | del.

Definition LineKind_eqb (a b : LineKind) : bool :=
  match a, b with
  | ctx, ctx | add, add | del, del => true
  | _, _ => false
  end.

Record UnifiedDiffHunkLine := mkHunkLine { hl_kind : LineKind; hl_text : string }.

Record UnifiedDiffHunk := mkHunk {
  oldStart : Num.JsNum;
  oldCount : Num.JsNum;
  newStart : Num.JsNum;
  newCount : Num.JsNum;
  hunk_lines : list UnifiedDiffHunkLine
}.

(** The text of one range [\d+(?:,\d+)?] at the head of [s]: the digits of
    the start, the digits of the count when present, and what follows. *)
Definition scanRange (s : string) : option (string * option string * string) :=
  let '(d1, r1) := Js.span Js.isDigit s in
  match d1 with
  | EmptyString => None
  | _ =>
      match r1 with
      | String "," r2 =>
          let '(d2, r3) := Js.span Js.isDigit r2 in
          match d2 with
          | EmptyString => Some (d1, None, r1)
          | _ => Some (d1, Some d2, r3)
          end
      | _ => Some (d1, None, r1)
      end
  end.

(** [\s+] at the head of [s]: what follows the white space, when there is
    at least one white-space code point. *)
Definition scanWs1 (s : string) : option string :=
  match Js.dropWs1 s with
  | Some _ => Some (Js.trimStart s)
  | None => None
  end.

Definition scanLit (p s : string) : option string :=
  if Js.startsWith p s then Some (Js.drop (String.length p) s) else None.

(** [line.match(/^@@\s+-(\d+(?:,\d+)?)\s+\+(\d+(?:,\d+)?)\s+@@/)]: the two
    captured ranges.  The character classes that follow one another in the
    expression are disjoint, so the greedy scan is the only match. *)
Definition matchHunkHeader (line : string)
  : option ((string * option string) * (string * option string)) :=
  match scanLit "@@" line with None => None | Some s1 =>
  match scanWs1 s1 with None => None | Some s2 =>
  match scanLit "-" s2 with None => None | Some s3 =>
  match scanRange s3 with None => None | Some (o1, o2, s4) =>
  match scanWs1 s4 with None => None | Some s5 =>
  match scanLit "+" s5 with None => None | Some s6 =>
  match scanRange s6 with None => None | Some (n1, n2, s7) =>
  match scanWs1 s7 with None => None | Some s8 =>
  match scanLit "@@" s8 with None => None | Some _ =>
    Some ((o1, o2), (n1, n2))
  end end end end end end end end end.

(** [parseRange]: start and count of a captured range, the count being 1
    when it is left out. *)
Definition parseRange (r : string * option string) : Num.JsNum * Num.JsNum :=
  (Num.ofDigits (fst r),
   match snd r with Some c => Num.ofDigits c | None => Num.Fin 1 end).

Definition noNewlineMarker : string := "\ No newline at end of file".

(** One line of a hunk body: the hunk line it contributes, if any. *)
Definition classifyHunkLine (l : string) : option UnifiedDiffHunkLine :=
  match l with
  | String " " t => Some (mkHunkLine ctx t)
  | String "+" t => Some (mkHunkLine add t)
  | String "-" t => Some (mkHunkLine del t)
  | _ => if String.eqb l noNewlineMarker then None
         else Some (mkHunkLine ctx l)
  end.

Definition isHeaderNoise (l : string) : bool :=
  Js.startsWith "--- " l || Js.startsWith "+++ " l || Js.startsWith "diff " l.

(** The inner loop: the lines of the hunk body and the lines left over,
    starting with the next line that begins with [@@ ]. *)
Fixpoint hunkBody (ls : list string) : list UnifiedDiffHunkLine * list string :=
  match ls with
  | [] => ([], [])
  | l :: rest =>
      if Js.startsWith "@@ " l then ([], ls)
      else
        let '(body, remaining) := hunkBody rest in
        if isHeaderNoise l then (body, remaining)
        else match classifyHunkLine l with
             | Some hl => (hl :: body, remaining)
             | None => (body, remaining)
             end
  end.

(** The outer loop; every round consumes a line, so the number of lines is
    enough fuel. *)
Fixpoint parseHunks (fuel : nat) (ls : list string) : list UnifiedDiffHunk :=
  match fuel with
  | O => []
  | S f =>
      match ls with
      | [] => []
      | line :: rest =>
          match matchHunkHeader line with
          | None => parseHunks f rest
          | Some (o, n) =>
              let oldR := parseRange o in
              let newR := parseRange n in
              let '(body, remaining) := hunkBody rest in
              mkHunk (fst oldR) (snd oldR) (fst newR) (snd newR) body
                :: parseHunks f remaining
          end
      end
  end.

Definition parseUnifiedDiff (patchText : string) : list UnifiedDiffHunk :=
  let lines := splitLines patchText in
  parseHunks (List.length lines) lines.

(** ** Patch applier (AppShell.tsx, lines 621-696) *)

(** The inner loop of [findSequenceStart]: [hay[i + j] === seq[j]] for every
    [j]. *)
Fixpoint seqMatchesAt (hay seq : list string) (i : Z) : bool :=
  match seq with
  | [] => true
  | s :: seq' =>
      match Js.getZ hay i with
      | Some h => String.eqb h s && seqMatchesAt hay seq' (i + 1)
      | None => false
      end
  end.

(** The scanning loop of [findSequenceStart] from index [i], with [fuel]
    rounds left up to [maxStart]; [best] is [None] for [null], and
    [bestDist] starts as [Infinity]. *)
Fixpoint scanStarts (fuel : nat) (hay seq : list string)
    (preferredIndex : Num.JsNum) (i : Z)
    (best : option Z) (bestDist : Num.JsNum) : option Z :=
  match fuel with
  | O => best
  | S f =>
      if seqMatchesAt hay seq i then
        let dist := Num.absDiff i preferredIndex in
        if Num.ltb dist bestDist then
          if Num.isZero dist then Some i
          else scanStarts f hay seq preferredIndex (i + 1) (Some i) dist
        else scanStarts f hay seq preferredIndex (i + 1) best bestDist
      else scanStarts f hay seq preferredIndex (i + 1) best bestDist
  end.

Definition findSequenceStart (hay seq : list string) (minIndex : Z)
    (preferredIndex : Num.JsNum) : option Z :=
  match seq with
  | [] => Some (Num.clamp minIndex (Js.lenZ hay) preferredIndex)
  | _ =>
      let maxStart := Js.lenZ hay - Js.lenZ seq in
      if minIndex >? maxStart then None
      else scanStarts (Z.to_nat (maxStart - minIndex + 1)) hay seq
                      preferredIndex minIndex None Num.PosInf
  end.

Inductive PatchError :=
| NoHunks
| LocateFailed (line : Num.JsNum)
| Overlap
| ContextMismatch (line : Z) (expected : string) (actual : option string)
| DeleteMismatch (line : Z) (expected : string) (actual : option string).

(** The error strings of [applyUnifiedDiffToText]. *)
Definition errorText (e : PatchError) : string :=
  match e with
  | NoHunks => "Patch has no hunks"
  | LocateFailed n =>
      "Failed to locate hunk context in file (starting near line "
        +:+ Num.toString n +:+ ")."
  | Overlap => "Patch hunk overlaps previous hunk"
  | ContextMismatch n e a =>
      "Context mismatch at line " +:+ Js.showZ n +:+ ": expected '" +:+ e
        +:+ "', got '" +:+ default "<eof>" a +:+ "'"
  | DeleteMismatch n e a =>
      "Delete mismatch at line " +:+ Js.showZ n +:+ ": expected '" +:+ e
        +:+ "', got '" +:+ default "<eof>" a +:+ "'"
  end.

Definition optStrEqb (a : option string) (b : string) : bool :=
  match a with Some x => String.eqb x b | None => false end.

(** The walk over the lines of one hunk: [out] and the cursor [ai] are
    threaded through. *)
Fixpoint applyHunkLines (a : list string) (hls : list UnifiedDiffHunkLine)
    (out : list string) (ai : Z) : Result PatchError (list string * Z) :=
  match hls with
  | [] => Ok (out, ai)
  | hl :: rest =>
      match hl_kind hl with
      | ctx =>
          if optStrEqb (Js.getZ a ai) (hl_text hl)
          then applyHunkLines a rest (out ++ [hl_text hl]) (ai + 1)
          else Err (ContextMismatch (ai + 1) (hl_text hl) (Js.getZ a ai))
      | del =>
          if optStrEqb (Js.getZ a ai) (hl_text hl)
          then applyHunkLines a rest out (ai + 1)
          else Err (DeleteMismatch (ai + 1) (hl_text hl) (Js.getZ a ai))
      | add => applyHunkLines a rest (out ++ [hl_text hl]) ai
      end
  end.

(** [Math.max(0, h.oldStart - 1)] *)
Definition preferredIdxOf (h : UnifiedDiffHunk) : Num.JsNum :=
  Num.max0 (Num.addZ (oldStart h) (-1)).

Definition oldSeqOf (h : UnifiedDiffHunk) : list string :=
  map hl_text
    (List.filter (fun x => LineKind_eqb (hl_kind x) ctx || LineKind_eqb (hl_kind x) del)
                 (hunk_lines h)).

(** One round of the loop over the hunks. *)
Definition applyHunk (a : list string) (st : list string * Z) (h : UnifiedDiffHunk)
  : Result PatchError (list string * Z) :=
  let '(out, ai) := st in
  let preferredIdx := preferredIdxOf h in
  let oldSeq := oldSeqOf h in
  match findSequenceStart a oldSeq ai preferredIdx with
  | None => Err (LocateFailed (Num.addZ preferredIdx 1))
  | Some foundIdx =>
      if foundIdx <? ai then Err Overlap
      else applyHunkLines a (hunk_lines h) (out ++ Js.sliceZ a ai foundIdx) foundIdx
  end.

Fixpoint applyHunks (a : list string) (hunks : list UnifiedDiffHunk)
    (st : list string * Z) : Result PatchError (list string * Z) :=
  match hunks with
  | [] => Ok st
  | h :: rest => do st' <- applyHunk a st h; applyHunks a rest st'
  end.

(** The applier before its errors are turned into text. *)
Definition applyUnifiedDiff (before patchText : string) : Result PatchError string :=
  let hunks := parseUnifiedDiff patchText in
  match hunks with
  | [] => Err NoHunks
  | _ =>
      let a := splitLines before in
      do st <- applyHunks a hunks ([], 0);
      let '(out, ai) := st in
      Ok (Js.join (Js.str1 Js.LF) (out ++ Js.sliceFromZ a ai))
  end.

Definition applyUnifiedDiffToText (before patchText : string) : Result string string :=
  match applyUnifiedDiff before patchText with
  | Ok text => Ok text
  | Err e => Err (errorText e)
  end.

(** ** Edit operations (lib/tauri, [AiEditOp]) *)

Record AiEditOp := mkOp {
  e_op : string;
  e_path : option string;
  e_content : option string;
  e_from : option string;
  e_to : option string
}.

Definition opRename (f t : string) : AiEditOp := mkOp "rename" None None (Some f) (Some t).
Definition opPatch (p c : string) : AiEditOp := mkOp "patch" (Some p) (Some c) None None.
Definition opDelete (p : string) : AiEditOp := mkOp "delete" (Some p) None None None.
Definition opWrite (p c : string) : AiEditOp := mkOp "write" (Some p) (Some c) None None.

(** Truthiness of a string that may be [null] or [undefined]. *)
Definition truthy (s : option string) : bool :=
  match s with
  | Some (String _ _) => true
  | _ => false
  end.

(** ** Git multi-file splitter (AppShell.tsx, lines 698-768) *)

Definition normalizeGitPath (p : string) : string :=
  let t := Js.trim p in
  if String.eqb t "/dev/null" then t
  else if Js.startsWith "a/" t then Js.drop 2 t
  else if Js.startsWith "b/" t then Js.drop 2 t
  else t.

(** The first loop of the splitter: [cur] is the block being collected,
    [blocks] the blocks closed so far. *)
Fixpoint gitBlocksFrom (ls cur : list string) (blocks : list (list string))
  : list (list string) :=
  match ls with
  | [] => match cur with [] => blocks | _ => blocks ++ [cur] end
  | l :: rest =>
      if Js.startsWith "diff --git " l
      then gitBlocksFrom rest [l]
             (match cur with [] => blocks | _ => blocks ++ [cur] end)
      else match cur with
           | [] => gitBlocksFrom rest [] blocks
           | _ => gitBlocksFrom rest (cur ++ [l]) blocks
           end
  end.

Definition gitBlocks (ls : list string) : list (list string) := gitBlocksFrom ls [] [].

Record BlockHeaders := mkHeaders {
  renameFrom : option string;
  renameTo : option string;
  oldPath : option string;
  newPath : option string
}.

(** The four tests made on a line of a block, in the order of the source;
    a later line of the same kind overrides an earlier one. *)
Definition scanBlockLine (h : BlockHeaders) (l : string) : BlockHeaders :=
  let h1 := if Js.startsWith "rename from " l
            then mkHeaders (Some (normalizeGitPath (Js.drop 12 l))) (renameTo h) (oldPath h) (newPath h)
            else h in
  let h2 := if Js.startsWith "rename to " l
            then mkHeaders (renameFrom h1) (Some (normalizeGitPath (Js.drop 10 l))) (oldPath h1) (newPath h1)
            else h1 in
  let h3 := if Js.startsWith "--- " l
            then mkHeaders (renameFrom h2) (renameTo h2) (Some (normalizeGitPath (Js.drop 4 l))) (newPath h2)
            else h2 in
  if Js.startsWith "+++ " l
  then mkHeaders (renameFrom h3) (renameTo h3) (oldPath h3) (Some (normalizeGitPath (Js.drop 4 l)))
  else h3.

Definition scanBlock (b : list string) : BlockHeaders :=
  fold_left scanBlockLine b (mkHeaders None None None None).

Definition optIs (s : option string) (v : string) : bool :=
  match s with Some x => String.eqb x v | None => false end.

(** The path a block resolves to: the new path unless it is missing, empty
    or [/dev/null], then the old path under the same proviso. *)
Definition blockPath (h : BlockHeaders) : option string :=
  if truthy (newPath h) && negb (optIs (newPath h) "/dev/null") then newPath h
  else if truthy (oldPath h) && negb (optIs (oldPath h) "/dev/null") then oldPath h
  else None.

(** The operations one block contributes. *)
Definition blockEdits (b : list string) : list AiEditOp :=
  let blockText := Js.join (Js.str1 Js.LF) b in
  let h := scanBlock b in
  let isDelete := optIs (newPath h) "/dev/null"
                  || existsb (Js.startsWith "deleted file mode") b in
  let isNew := optIs (oldPath h) "/dev/null"
               || existsb (Js.startsWith "new file mode") b in
  if truthy (renameFrom h) && truthy (renameTo h) then
    opRename (default EmptyString (renameFrom h)) (default EmptyString (renameTo h))
      :: (if Js.includes "@@ " blockText
          then [opPatch (default EmptyString (renameTo h)) blockText]
          else [])
  else
    match blockPath h with
    | None => []
    | Some path =>
        if truthy (Some path) then
          if isDelete then [opDelete path]
          else if Js.includes "@@ " blockText then [opPatch path blockText]
          else if isNew then [opWrite path EmptyString]
          else []
        else []
    end.

Definition splitMultiFileGitDiffToEdits (diffText : string) : list AiEditOp :=
  flat_map blockEdits (gitBlocks (splitLines diffText)).

(** ** Edit normaliser (AppShell.tsx, lines 770-838, and [basename], 1121) *)

Definition nonEmpty (s : string) : bool :=
  match s with EmptyString => false | _ => true end.

(** [basename]: the last non-empty segment of the slash-normalised path, the
    path itself when there is none. *)
Definition basename (p : string) : string :=
  let norm := Js.replaceBackslashes p in
  let parts := List.filter nonEmpty (Js.splitChar Js.SLASH norm) in
  List.last parts p.

(** [/^[A-Za-z]:\//.test(p)] *)
Definition looksLikeDrive (p : string) : bool :=
  match p with
  | String c (String ":" (String "/" _)) => Js.isAsciiLetter c
  | _ => false
  end.

(** [while (p.startsWith("./")) p = p.slice(2)]; every round removes two
    characters, so the length is enough fuel. *)
Fixpoint stripDotSlashN (fuel : nat) (p : string) : string :=
  match fuel with
  | O => p
  | S f => if Js.startsWith "./" p then stripDotSlashN f (Js.drop 2 p) else p
  end.

Definition stripDotSlash (p : string) : string := stripDotSlashN (String.length p) p.

(** [s.replace(/\/$/, "")] *)
Fixpoint dropFinalSlash (s : string) : string :=
  match s with
  | EmptyString => EmptyString
  | String a s' =>
      match s' with
      | EmptyString => if Ascii.eqb a Js.SLASH then EmptyString else s
      | _ => String a (dropFinalSlash s')
      end
  end.

Definition sanitizePath (raw : string) (workspaceRoot : option string) : string :=
  let p := Js.trim raw in
  if negb (nonEmpty p) then p
  else
    let p := Js.replaceBackslashes p in
    let p := stripDotSlash p in
    let root := dropFinalSlash (Js.replaceBackslashes (default EmptyString workspaceRoot)) in
    let p :=
      if nonEmpty root && (String.eqb p root || Js.startsWith (root +:+ "/") p)
      then
        let p := Js.drop (String.length root) p in
        if Js.startsWith "/" p then Js.drop 1 p else p
      else p in
    let looksAbsolute := Js.startsWith "/" p || looksLikeDrive p in
    let p := if looksAbsolute || Js.includes ".." p then basename p else p in
    if Js.startsWith "/" p then Js.drop 1 p else p.

(** [sanitizeOne]: the sanitised operation and whether [didSanitize] is
    raised by it. *)
Definition sanitizeOne (workspaceRoot : option string) (e : AiEditOp) : AiEditOp * bool :=
  let op := Js.toLowerCase (e_op e) in
  if String.eqb op "rename" then
    let fromRaw := default EmptyString (e_from e) in
    let toRaw := default EmptyString (e_to e) in
    let from := option_map (fun s => sanitizePath s workspaceRoot) (e_from e) in
    let to := option_map (fun s => sanitizePath s workspaceRoot) (e_to e) in
    let d1 := nonEmpty fromRaw && truthy from
              && negb (String.eqb fromRaw (default EmptyString from)) in
    let d2 := nonEmpty toRaw && truthy to
              && negb (String.eqb toRaw (default EmptyString to)) in
    (mkOp (e_op e) (e_path e) (e_content e) from to, d1 || d2)
  else
    match e_path e with
    | Some raw =>
        let path := sanitizePath raw workspaceRoot in
        (mkOp (e_op e) (Some path) (e_content e) (e_from e) (e_to e),
         negb (String.eqb raw path))
    | None => (e, false)
    end.

(** The operations one input operation is expanded to before sanitising. *)
Definition expandEdit (e : AiEditOp) : list AiEditOp :=
  let op := Js.toLowerCase (e_op e) in
  if String.eqb op "patch" then
    let patchText := default EmptyString (e_content e) in
    let hasGitDiff := Js.includes "diff --git " patchText && Js.includes "@@ " patchText in
    let missingPath :=
      match e_path e with
      | None => true
      | Some p => negb (nonEmpty p) || negb (nonEmpty (Js.trim p))
      end in
    if missingPath && hasGitDiff then splitMultiFileGitDiffToEdits patchText
    else if hasGitDiff && Js.includes (String Js.LF "diff --git ") patchText
    then splitMultiFileGitDiffToEdits patchText
    else [e]
  else [e].

Record Normalized := mkNormalized { n_edits : list AiEditOp; didSanitize : bool }.

Definition normalizeAiEdits (edits : list AiEditOp) (workspaceRoot : option string)
  : Normalized :=
  let out := map (sanitizeOne workspaceRoot) (flat_map expandEdit edits) in
  mkNormalized (map fst out) (existsb snd out).

(** ** Line differ (AppShell.tsx, lines 840-915) and statistics (917-930) *)

(** A step of the script; [lo_line] is [None] where the source reads an
    array out of its bounds and stores [undefined]. *)
Record LineOp := mkLineOp { lo_type : LineKind; lo_line : option string }.

(** [v.get(k) ?? 0] *)
Definition vget (v : gmap Z Z) (k : Z) : Z := default 0 (v !! k).

Definition optStrEq (x y : option string) : bool :=
  match x, y with
  | Some s, Some t => String.eqb s t
  | None, None => true
  | _, _ => false
  end.

(** [while (x < n && y < m && a[x] === b[y]) { x++; y++; }]: the final [x]. *)
Fixpoint snake (fuel : nat) (a b : list string) (n m x y : Z) : Z :=
  match fuel with
  | O => x
  | S f =>
      if (x <? n) && (y <? m) && optStrEq (Js.getZ a x) (Js.getZ b y)
      then snake f a b n m (x + 1) (y + 1)
      else x
  end.

(** The choice between the diagonal above and the diagonal below. *)
Definition takesUpper (v : gmap Z Z) (d k : Z) : bool :=
  (k =? - d) || (negb (k =? d) && (vget v (k - 1) <? vget v (k + 1))).

(** The loop over the diagonals [k = -d, -d + 2, ..] of one round: the map
    [v2] of the round and whether the end of both texts was reached. *)
Fixpoint diagonals (fuel : nat) (a b : list string) (n m d : Z)
    (v : gmap Z Z) (k : Z) (v2 : gmap Z Z) : gmap Z Z * bool :=
  match fuel with
  | O => (v2, false)
  | S f =>
      let x0 := if takesUpper v d k then vget v (k + 1) else vget v (k - 1) + 1 in
      let x := snake (Z.to_nat (n - x0)) a b n m x0 (x0 - k) in
      let y := x - k in
      let v2' := <[k := x]> v2 in
      if (x >=? n) && (y >=? m) then (v2', true)
      else diagonals f a b n m d v (k + 2) v2'
  end.

(** [while (x2 > prevX && y2 > prevY)]: the context steps pushed and the
    point reached. *)
Fixpoint slide (fuel : nat) (a : list string) (prevX prevY x2 y2 : Z)
    (ops : list LineOp) : list LineOp * Z * Z :=
  match fuel with
  | O => (ops, x2, y2)
  | S f =>
      if (x2 >? prevX) && (y2 >? prevY)
      then slide f a prevX prevY (x2 - 1) (y2 - 1)
                 (ops ++ [mkLineOp ctx (Js.getZ a (x2 - 1))])
      else (ops, x2, y2)
  end.

(** The backtracking loop, [d2] running down over the saved maps;
    [tr] holds the maps of the rounds [d2], [d2 - 1], .., 0. *)
Fixpoint backtrack (tr : list (gmap Z Z)) (a b : list string) (d2 x2 y2 : Z)
    (ops : list LineOp) : list LineOp :=
  match tr with
  | [] => ops
  | vv :: tr' =>
      let k2 := x2 - y2 in
      let prevK := if takesUpper vv d2 k2 then k2 + 1 else k2 - 1 in
      let prevX := vget vv prevK in
      let prevY := prevX - prevK in
      let '(ops1, x3, y3) := slide (Z.to_nat (x2 - prevX)) a prevX prevY x2 y2 ops in
      if d2 =? 0 then ops1
      else if x3 =? prevX
           then backtrack tr' a b (d2 - 1) x3 (y3 - 1)
                          (ops1 ++ [mkLineOp add (Js.getZ b (y3 - 1))])
           else backtrack tr' a b (d2 - 1) (x3 - 1) y3
                          (ops1 ++ [mkLineOp del (Js.getZ a (x3 - 1))])
  end.

(** The loop over the rounds [d = 0 .. max]; [trace] holds the maps of the
    rounds done, the latest first. *)
Fixpoint rounds (fuel : nat) (a b : list string) (n m d : Z)
    (v : gmap Z Z) (trace : list (gmap Z Z)) : list LineOp :=
  match fuel with
  | O => []
  | S f =>
      let '(v2, done) := diagonals (Z.to_nat (d + 1)) a b n m d v (- d) ∅ in
      if done
      then rev (backtrack (v2 :: trace) a b (Js.lenZ trace) n m [])
      else rounds f a b n m (d + 1) v2 (v2 :: trace)
  end.

Definition diffLines (before after : string) : list LineOp :=
  let a := splitLines before in
  let b := splitLines after in
  let n := Js.lenZ a in
  let m := Js.lenZ b in
  rounds (Z.to_nat (n + m + 1)) a b n m 0 {[ 1 := 0 ]} [].

(** ** Change sets *)

Inductive FileKind := fk_write | fk_delete | fk_rename.

Definition FileKind_eqb (a b : FileKind) : bool :=
  match a, b with
  | fk_write, fk_write | fk_delete, fk_delete | fk_rename, fk_rename => true
  | _, _ => false
  end.

Record ChangeFile := mkChangeFile {
  cf_kind : FileKind;
  cf_path : string;
  cf_before : option string;
  cf_after : option string
}.

Record Stats := mkStats { st_files : Z; st_added : Z; st_removed : Z }.

Record ChangeSet := mkChangeSet {
  cs_id : string;
  cs_edits : list AiEditOp;
  cs_files : list ChangeFile;
  cs_stats : Stats;
  cs_applied : bool
}.

Definition countType (t : LineKind) (ops : list LineOp) : Z :=
  Js.lenZ (List.filter (fun o => LineKind_eqb (lo_type o) t) ops).

(** [computeStats] *)
Definition computeStats (files : list ChangeFile) : Stats :=
  let step (acc : Z * Z) (f : ChangeFile) :=
    let ops := diffLines (default EmptyString (cf_before f))
                         (default EmptyString (cf_after f)) in
    (fst acc + countType add ops, snd acc + countType del ops) in
  let '(added, removed) := fold_left step files (0, 0) in
  mkStats (Js.lenZ files) added removed.

(** ** Workspace file commands *)

Module Workspace.

(** Modelled from the spec: the file tree behind the Workspace I/O
    capability of section 6, whose implementation (the Tauri commands
    [workspace_read_file], [workspace_write_file], [workspace_delete] and
    [workspace_rename]) is not among the sources.  The tree is the finite
    map from workspace-relative paths to file contents,
    [gmap string string]; [ioError] is the failure of a command. *)
Definition ioError : string := "I/O error".

(** Modelled from the spec: [readFile(path) -> Text], failing with an I/O
    error when there is no such file. *)
Definition readFile (fs : gmap string string) (p : string) : Result string string :=
  match fs !! p with
  | Some c => Ok c
  | None => Err ioError
  end.

(** Modelled from the spec: [writeFile(path, Text) -> unit] creates the file
    or replaces its content. *)
Definition writeFile (fs : gmap string string) (p c : string)
  : Result string (gmap string string) :=
  Ok (<[p := c]> fs).

(** Modelled from the spec: [deleteFile(path) -> unit]; deleting a file that
    does not exist is an I/O failure like any other. *)
Definition deleteFile (fs : gmap string string) (p : string)
  : Result string (gmap string string) :=
  match fs !! p with
  | Some _ => Ok (delete p fs)
  | None => Err ioError
  end.

(** Modelled from the spec: [renamePath(from, to) -> unit] moves the content
    of [from] to [to], replacing what was there; a missing [from] is an I/O
    failure. *)
Definition renamePath (fs : gmap string string) (from to : string)
  : Result string (gmap string string) :=
  match fs !! from with
  | Some c => Ok (<[to := c]> (delete from fs))
  | None => Err ioError
  end.

End Workspace.

(** ** Change-set builder (AppShell.tsx, lines 2397-2467) *)

Record Tab := mkTab { tab_path : string; tab_content : string; tab_isDirty : bool }.

(** What the builder reads: the open tabs and the files of the workspace. *)
Record BuildEnv := mkBuildEnv {
  be_tabs : list Tab;
  be_files : gmap string string
}.

(** [readBefore]: an open tab wins over the file; [None] is [null]. *)
Definition readBefore (env : BuildEnv) (p : string) : option string :=
  match List.find (fun t => String.eqb (tab_path t) p) (be_tabs env) with
  | Some t => Some (tab_content t)
  | None =>
      match Workspace.readFile (be_files env) p with
      | Ok c => Some c
      | Err _ => None
      end
  end.

(** [e.path?.trim()] followed by the test [if (!p) continue]. *)
Definition trimmedPath (o : option string) : option string :=
  match o with
  | Some s => let t := Js.trim s in if nonEmpty t then Some t else None
  | None => None
  end.

Definition renameLabel (from to : string) : string := from +:+ " → " +:+ to.

(** What one operation contributes to the change set unless its key was
    seen before: the key put into [seen] and the file, or the error thrown.
    [None] for the operations the loop passes over. *)
Definition fileOf (env : BuildEnv) (e : AiEditOp)
  : option (string * Result string ChangeFile) :=
  let op := Js.toLowerCase (e_op e) in
  if String.eqb op "run" then None
  else if String.eqb op "write" then
    match trimmedPath (e_path e) with
    | None => None
    | Some p =>
        Some ("w:" +:+ p,
              Ok (mkChangeFile fk_write p (readBefore env p)
                               (Some (default EmptyString (e_content e)))))
    end
  else if String.eqb op "patch" then
    match trimmedPath (e_path e) with
    | None => None
    | Some p =>
        let before := default EmptyString (readBefore env p) in
        let patchText := default EmptyString (e_content e) in
        Some ("p:" +:+ p,
              match applyUnifiedDiffToText before patchText with
              | Ok text => Ok (mkChangeFile fk_write p (Some before) (Some text))
              | Err error =>
                  Err ("Failed to build changeset patch for " +:+ p +:+ ": " +:+ error)
              end)
    end
  else if String.eqb op "delete" then
    match trimmedPath (e_path e) with
    | None => None
    | Some p =>
        Some ("d:" +:+ p, Ok (mkChangeFile fk_delete p (readBefore env p) None))
    end
  else if String.eqb op "rename" then
    match trimmedPath (e_from e), trimmedPath (e_to e) with
    | Some from, Some to =>
        let before := readBefore env from in
        Some ("r:" +:+ from +:+ "->" +:+ to,
              Ok (mkChangeFile fk_rename (renameLabel from to) before before))
    | _, _ => None
    end
  else None.

(** One round of the loop over the edits. *)
Definition buildStep (env : BuildEnv) (acc : list ChangeFile * gset string)
    (e : AiEditOp) : Result string (list ChangeFile * gset string) :=
  match fileOf env e with
  | None => Ok acc
  | Some (key, r) =>
      if decide (key ∈ snd acc) then Ok acc
      else do f <- r; Ok (fst acc ++ [f], {[ key ]} ∪ snd acc)
  end.

Fixpoint buildLoop (env : BuildEnv) (edits : list AiEditOp)
    (acc : list ChangeFile * gset string)
  : Result string (list ChangeFile * gset string) :=
  match edits with
  | [] => Ok acc
  | e :: rest => do acc' <- buildStep env acc e; buildLoop env rest acc'
  end.

(** [buildChangeSet]; the identifier, made of the clock and a random number
    in the source, is an argument. *)
Definition buildChangeSet (env : BuildEnv) (id : string) (edits : list AiEditOp)
  : Result string ChangeSet :=
  do acc <- buildLoop env edits ([], ∅);
  Ok (mkChangeSet id edits (fst acc) (computeStats (fst acc)) false).

(** ** Applying edits (AppShell.tsx, lines 2247-2395) *)

(** One operation of [applyAiEditsNow] on the files of the workspace: the
    files after it, or the error thrown. *)
Definition applyEdit (fs : gmap string string) (e : AiEditOp)
  : Result string (gmap string string) :=
  let op := Js.toLowerCase (e_op e) in
  if String.eqb op "write" then
    match trimmedPath (e_path e) with
    | None => Err "AI edit op 'write' missing path"
    | Some p => Workspace.writeFile fs p (default EmptyString (e_content e))
    end
  else if String.eqb op "patch" then
    match trimmedPath (e_path e) with
    | None => Err "AI edit op 'patch' missing path"
    | Some p =>
        let beforeResolved :=
          match Workspace.readFile fs p with Ok c => c | Err _ => EmptyString end in
        match applyUnifiedDiffToText beforeResolved (default EmptyString (e_content e)) with
        | Err error => Err ("Failed to apply patch to " +:+ p +:+ ": " +:+ error)
        | Ok text => Workspace.writeFile fs p text
        end
    end
  else if String.eqb op "delete" then
    match trimmedPath (e_path e) with
    | None => Err "AI edit op 'delete' missing path"
    | Some p => Workspace.deleteFile fs p
    end
  else if String.eqb op "rename" then
    match trimmedPath (e_from e), trimmedPath (e_to e) with
    | Some from, Some to => Workspace.renamePath fs from to
    | _, _ => Err "AI edit op 'rename' missing from/to"
    end
  else if String.eqb op "run" then
    if nonEmpty (Js.trim (default EmptyString (e_content e))) then Ok fs
    else Err "AI edit op 'run' missing command in content"
  else Err ("Unsupported AI edit op: " +:+ e_op e).

(** The loop over the edits.  What was written before an operation throws
    stays written: the files reached are returned with the error. *)
Fixpoint applyLoop (fs : gmap string string) (edits : list AiEditOp)
  : gmap string string * option string :=
  match edits with
  | [] => (fs, None)
  | e :: rest =>
      match applyEdit fs e with
      | Ok fs' => applyLoop fs' rest
      | Err error => (fs, Some error)
      end
  end.

(** [applyAiEditsNow]: nothing is done for an empty list; without an open
    workspace the call throws at once. *)
Definition applyAiEditsNow (root : option string) (fs : gmap string string)
    (edits : list AiEditOp) : gmap string string * option string :=
  match edits with
  | [] => (fs, None)
  | _ => if truthy root then applyLoop fs edits
         else (fs, Some "No workspace is open")
  end.

(** ** Accept and reject (AppShell.tsx, lines 2469-2489 and 3423-3661) *)

(** The state the controller works on: the open workspace and the change
    set under review.  The tabs and the other view state that the handlers
    also update do not feed back into the files or the change set. *)
Record AppState := mkAppState {
  ws_root : option string;
  ws_files : gmap string string;
  changeSet : option ChangeSet
}.

Definition withChangeSet (s : AppState) (c : option ChangeSet) : AppState :=
  mkAppState (ws_root s) (ws_files s) c.

Definition withApplied (cs : ChangeSet) : ChangeSet :=
  mkChangeSet (cs_id cs) (cs_edits cs) (cs_files cs) (cs_stats cs) true.

Definition withFiles (cs : ChangeSet) (files : list ChangeFile) : ChangeSet :=
  mkChangeSet (cs_id cs) (cs_edits cs) files (computeStats files) (cs_applied cs).

(** [confirmApplyChangeSet]: [answer] is what the user says when asked. *)
Definition confirmApplyChangeSet (answer : bool) (cs : ChangeSet) : bool :=
  let writeFiles := List.filter (fun f => FileKind_eqb (cf_kind f) fk_write) (cs_files cs) in
  let deletes := List.filter (fun f => FileKind_eqb (cf_kind f) fk_delete) (cs_files cs) in
  let renames := List.filter (fun f => FileKind_eqb (cf_kind f) fk_rename) (cs_files cs) in
  let newFiles :=
    List.filter (fun f => match cf_before f with None => true | Some _ => false end)
                writeFiles in
  let noReason :=
    negb (Js.lenZ (cs_files cs) >? 8)
    && (Nat.eqb (List.length newFiles) 0) && (Nat.eqb (List.length deletes) 0)
    && (Nat.eqb (List.length renames) 0) in
  if noReason then true else answer.

(** [acceptAllChanges] *)
Definition acceptAllChanges (answer : bool) (s : AppState) : AppState :=
  match changeSet s with
  | None => s
  | Some cs =>
      if cs_applied cs then withChangeSet s None
      else if negb (truthy (ws_root s)) then s
      else if negb (confirmApplyChangeSet answer cs) then s
      else
        match applyAiEditsNow (ws_root s) (ws_files s) (cs_edits cs) with
        | (fs, None) => mkAppState (ws_root s) fs (Some (withApplied cs))
        | (fs, Some _) => mkAppState (ws_root s) fs (Some cs)
        end
  end.

(** The inverse operation of one file of an applied change set, if any. *)
Definition revertOp (f : ChangeFile) : list AiEditOp :=
  match cf_kind f with
  | fk_write =>
      match cf_before f with
      | None => [opDelete (cf_path f)]
      | Some before => [opWrite (cf_path f) before]
      end
  | fk_delete =>
      match cf_before f with
      | Some before => [opWrite (cf_path f) before]
      | None => []
      end
  | fk_rename =>
      match Js.split " → " (cf_path f) with
      | [p0; p1] => [opRename p1 p0]
      | _ => []
      end
  end.

(** The list [reverse] of [rejectAllChanges]: the files are visited from the
    last to the first. *)
Definition revertOps (files : list ChangeFile) : list AiEditOp :=
  flat_map revertOp (rev files).

(** [rejectAllChanges] *)
Definition rejectAllChanges (s : AppState) : AppState :=
  match changeSet s with
  | None => s
  | Some cs =>
      if negb (cs_applied cs) then withChangeSet s None
      else if negb (truthy (ws_root s)) then s
      else
        match applyAiEditsNow (ws_root s) (ws_files s) (revertOps (cs_files cs)) with
        | (fs, None) => mkAppState (ws_root s) fs None
        | (fs, Some _) => mkAppState (ws_root s) fs (Some cs)
        end
  end.

Definition isWriteOf (path : string) (f : ChangeFile) : bool :=
  FileKind_eqb (cf_kind f) fk_write && String.eqb (cf_path f) path.

(** The change set left when the write of [path] is taken out of [cs]. *)
Definition withoutFile (cs : ChangeSet) (path : string) : option ChangeSet :=
  let nextFiles := List.filter (fun f => negb (isWriteOf path f)) (cs_files cs) in
  match nextFiles with
  | [] => None
  | _ => Some (withFiles cs nextFiles)
  end.

(** [acceptFileChange] *)
Definition acceptFileChange (path : string) (s : AppState) : AppState :=
  match changeSet s with
  | None => s
  | Some cs =>
      if negb (cs_applied cs) then
        if negb (truthy (ws_root s)) then s
        else
          let fileEdits :=
            List.filter
              (fun e =>
                 let op := Js.toLowerCase (e_op e) in
                 (String.eqb op "write" || String.eqb op "patch" || String.eqb op "delete")
                 && String.eqb (Js.trim (default EmptyString (e_path e))) path)
              (cs_edits cs) in
          match fileEdits with
          | [] => withChangeSet s (withoutFile cs path)
          | _ =>
              match applyAiEditsNow (ws_root s) (ws_files s) fileEdits with
              | (fs, None) => mkAppState (ws_root s) fs (Some (withApplied cs))
              | (fs, Some _) => mkAppState (ws_root s) fs (Some cs)
              end
          end
      else withChangeSet s (withoutFile cs path)
  end.

(** [rejectFileChange] *)
Definition rejectFileChange (path : string) (s : AppState) : AppState :=
  match changeSet s with
  | None => s
  | Some cs =>
      match List.find (isWriteOf path) (cs_files cs) with
      | None => s
      | Some f =>
          if negb (cs_applied cs) then withChangeSet s (withoutFile cs path)
          else if negb (truthy (ws_root s)) then s
          else
            let written :=
              match cf_before f with
              | None => Workspace.deleteFile (ws_files s) path
              | Some before => Workspace.writeFile (ws_files s) path before
              end in
            match written with
            | Ok fs => mkAppState (ws_root s) fs (withoutFile cs path)
            | Err _ => s
            end
      end
  end.

(** ** Structured-output recoverer (AppShell.tsx, lines 932-1078) *)

(** *** [JSON.parse]

    The recoverer hands substrings of the assistant text to the JSON parser
    of the runtime.  The parser below follows the JSON grammar of ECMA-404
    on UTF-8 text; numbers are kept as their lexemes, and an escape
    [\uXXXX] is stored as the UTF-8 encoding of its character, two escapes
    of a surrogate pair as that of the one character they make. *)

#[local] Unset Elimination Schemes.
Inductive JValue :=
| JNull
| JBool (b : bool)
| JNumber (lexeme : string)
| JString (s : string)
| JArray (items : list JValue)
| JObject (members : list (string * JValue)).
#[local] Set Elimination Schemes.

Module Json.

Definition isJsonWs (a : ascii) : bool :=
  let n := nat_of_ascii a in
  (Nat.eqb n 32 || Nat.eqb n 9 || Nat.eqb n 10 || Nat.eqb n 13)%nat.

Fixpoint skipWs (s : string) : string :=
  match s with
  | String a r => if isJsonWs a then skipWs r else s
  | EmptyString => s
  end.

Definition hexVal (a : ascii) : option nat :=
  let n := nat_of_ascii a in
  if ((48 <=? n) && (n <=? 57))%nat then Some (n - 48)%nat
  else if ((65 <=? n) && (n <=? 70))%nat then Some (n - 55)%nat
  else if ((97 <=? n) && (n <=? 102))%nat then Some (n - 87)%nat
  else None.

(** UTF-8 encoding of a code point.  A surrogate code unit that has no
    partner is no code point; it is encoded like the other code units below
    65536. *)
Definition utf8 (n : N) : string :=
  Js.strOfCodes
    (map N.to_nat
       (if n <? 128 then [n]
        else if n <? 2048 then [192 + n / 64; 128 + n mod 64]
        else if n <? 65536
        then [224 + n / 4096; 128 + (n / 64) mod 64; 128 + n mod 64]
        else [240 + n / 262144; 128 + (n / 4096) mod 64;
              128 + (n / 64) mod 64; 128 + n mod 64])%N).

(** The code unit of the four hexadecimal digits of an escape. *)
Definition hex4 (h1 h2 h3 h4 : ascii) : option N :=
  match hexVal h1, hexVal h2, hexVal h3, hexVal h4 with
  | Some a, Some b, Some c, Some d =>
      Some (((N.of_nat a * 16 + N.of_nat b) * 16 + N.of_nat c) * 16 + N.of_nat d)%N
  | _, _, _, _ => None
  end.

Definition isHighSurrogate (n : N) : bool := ((55296 <=? n) && (n <=? 56319))%N.
Definition isLowSurrogate (n : N) : bool := ((56320 <=? n) && (n <=? 57343))%N.

(** The code point of a surrogate pair. *)
Definition pairCodePoint (hi lo : N) : N :=
  (65536 + (hi - 55296) * 1024 + (lo - 56320))%N.

(** The text of a string literal after its opening quote: the value and
    what follows the closing quote.  An escape of a high surrogate that is
    followed by an escape of a low surrogate makes one character with
    it. *)
Fixpoint stringBody (s acc : string) : option (string * string) :=
  match s with
  | EmptyString => None
  | String c r =>
      if Ascii.eqb c Js.DQ then Some (acc, r)
      else if Ascii.eqb c Js.BSL then
        match r with
        | String e r' =>
            if Ascii.eqb e Js.DQ then stringBody r' (acc +:+ Js.str1 Js.DQ)
            else if Ascii.eqb e Js.BSL then stringBody r' (acc +:+ Js.str1 Js.BSL)
            else if Ascii.eqb e "/" then stringBody r' (acc +:+ "/")
            else if Ascii.eqb e "b" then stringBody r' (acc +:+ Js.strOfCodes [8%nat])
            else if Ascii.eqb e "f" then stringBody r' (acc +:+ Js.strOfCodes [12%nat])
            else if Ascii.eqb e "n" then stringBody r' (acc +:+ Js.str1 Js.LF)
            else if Ascii.eqb e "r" then stringBody r' (acc +:+ Js.str1 Js.CR)
            else if Ascii.eqb e "t" then stringBody r' (acc +:+ Js.strOfCodes [9%nat])
            else if Ascii.eqb e "u" then
              match r' with
              | String h1 (String h2 (String h3 (String h4 r''))) =>
                  match hex4 h1 h2 h3 h4 with
                  | Some hi =>
                      match r'' with
                      | String b2 (String u2
                          (String l1 (String l2 (String l3 (String l4 r3))))) =>
                          match hex4 l1 l2 l3 l4 with
                          | Some lo =>
                              if isHighSurrogate hi && isLowSurrogate lo
                                 && Ascii.eqb b2 Js.BSL && Ascii.eqb u2 "u"
                              then stringBody r3 (acc +:+ utf8 (pairCodePoint hi lo))
                              else stringBody r'' (acc +:+ utf8 hi)
                          | None => stringBody r'' (acc +:+ utf8 hi)
                          end
                      | _ => stringBody r'' (acc +:+ utf8 hi)
                      end
                  | None => None
                  end
              | _ => None
              end
            else None
        | EmptyString => None
        end
      else if (nat_of_ascii c <? 32)%nat then None
      else stringBody r (acc +:+ Js.str1 c)
  end.

Definition digits1 (s : string) : option (string * string) :=
  let '(d, r) := Js.span Js.isDigit s in
  match d with EmptyString => None | _ => Some (d, r) end.

(** The lexeme of a number at the head of [s]. *)
Definition number (s : string) : option (string * string) :=
  let '(sign, s1) := match s with String "-" r => ("-", r) | _ => (EmptyString, s) end in
  match digits1 s1 with
  | None => None
  | Some (int, s2) =>
      match int with
      | String "0" (String _ _) => None
      | _ =>
          let '(frac, s3) :=
            match s2 with
            | String "." r =>
                match digits1 r with
                | Some (d, r') => (Some ("." +:+ d), r')
                | None => (None, s2)
                end
            | _ => (Some EmptyString, s2)
            end in
          match frac with
          | None => None
          | Some frac =>
              let '(ex, s4) :=
                match s3 with
                | String e r =>
                    if Ascii.eqb e "e" || Ascii.eqb e "E" then
                      let '(sg, r1) :=
                        match r with
                        | String "+" r1 => ("+", r1)
                        | String "-" r1 => ("-", r1)
                        | _ => (EmptyString, r)
                        end in
                      match digits1 r1 with
                      | Some (d, r2) => (Some (Js.str1 e +:+ sg +:+ d), r2)
                      | None => (None, s3)
                      end
                    else (Some EmptyString, s3)
                | EmptyString => (Some EmptyString, s3)
                end in
              match ex with
              | None => None
              | Some ex => Some (sign +:+ int +:+ frac +:+ ex, s4)
              end
          end
      end
  end.

(** A value at the head of [s] and what follows it.  [fuel] bounds the
    depth of nesting; the loops over the elements of an array and the
    members of an object are bounded by the length of the text. *)
Fixpoint value (fuel : nat) (s : string) : option (JValue * string) :=
  match fuel with
  | O => None
  | S f =>
      match skipWs s with
      | String "{" r =>
          match skipWs r with
          | String "}" r' => Some (JObject [], r')
          | _ =>
              (fix members (n : nat) (s : string) (acc : list (string * JValue))
                 : option (JValue * string) :=
                 match n with
                 | O => None
                 | S n' =>
                     match skipWs s with
                     | String q r1 =>
                         if Ascii.eqb q Js.DQ then
                           match stringBody r1 EmptyString with
                           | Some (key, r2) =>
                               match skipWs r2 with
                               | String ":" r3 =>
                                   match value f r3 with
                                   | Some (v, r4) =>
                                       match skipWs r4 with
                                       | String "," r5 => members n' r5 (acc ++ [(key, v)])
                                       | String "}" r5 => Some (JObject (acc ++ [(key, v)]), r5)
                                       | _ => None
                                       end
                                   | None => None
                                   end
                               | _ => None
                               end
                           | None => None
                           end
                         else None
                     | EmptyString => None
                     end
                 end) (String.length r) r []
          end
      | String "[" r =>
          match skipWs r with
          | String "]" r' => Some (JArray [], r')
          | _ =>
              (fix elements (n : nat) (s : string) (acc : list JValue)
                 : option (JValue * string) :=
                 match n with
                 | O => None
                 | S n' =>
                     match value f s with
                     | Some (v, r1) =>
                         match skipWs r1 with
                         | String "," r2 => elements n' r2 (acc ++ [v])
                         | String "]" r2 => Some (JArray (acc ++ [v]), r2)
                         | _ => None
                         end
                     | None => None
                     end
                 end) (String.length r) r []
          end
      | String c r =>
          if Ascii.eqb c Js.DQ then
            match stringBody r EmptyString with
            | Some (str, r') => Some (JString str, r')
            | None => None
            end
          else
            match scanLit "true" (String c r) with
            | Some r' => Some (JBool true, r')
            | None =>
                match scanLit "false" (String c r) with
                | Some r' => Some (JBool false, r')
                | None =>
                    match scanLit "null" (String c r) with
                    | Some r' => Some (JNull, r')
                    | None =>
                        match number (String c r) with
                        | Some (lex, r') => Some (JNumber lex, r')
                        | None => None
                        end
                    end
                end
            end
      | EmptyString => None
      end
  end.

(** [JSON.parse(s)], [None] when it throws. *)
Definition parse (s : string) : option JValue :=
  match value (S (String.length s)) s with
  | Some (v, r) =>
      match skipWs r with
      | EmptyString => Some v
      | _ => None
      end
  | None => None
  end.

(** [obj.key] on a parsed value: the last member of that name. *)
Definition get (v : JValue) (key : string) : option JValue :=
  match v with
  | JObject ms =>
      option_map snd (List.find (fun m => String.eqb (fst m) key) (rev ms))
  | _ => None
  end.

Definition asString (v : option JValue) : option string :=
  match v with Some (JString s) => Some s | _ => None end.

End Json.

(** *** The recoverer *)

Record Recovered := mkRecovered {
  r_message : string;
  r_edits : list JValue;
  r_think : option string;
  r_plan : option (list string);
  r_verify : option string;
  r_done : option string
}.

(** [tryParse]: [JSON.parse] with an exception turned into [null]. *)
Definition tryParse (s : string) : option JValue := Json.parse s.

(** [t.slice(start, stop)] *)
Definition sliceStr (t : string) (start stop : nat) : string :=
  Js.take (stop - start) (Js.drop start t).

(** The scan for the first balanced object of [t]: [s] is the text from
    index [i] on.  The result is what [tryParse] makes of the first
    substring at whose closing brace the depth returns to zero. *)
Fixpoint scanObject (t s : string) (i : nat) (depth : Z) (start : option nat)
    (inStr escape : bool) : option JValue :=
  match s with
  | EmptyString => None
  | String ch r =>
      if inStr then
        if escape then scanObject t r (S i) depth start inStr false
        else if Ascii.eqb ch Js.BSL then scanObject t r (S i) depth start inStr true
        else if Ascii.eqb ch Js.DQ then scanObject t r (S i) depth start false escape
        else scanObject t r (S i) depth start inStr escape
      else if Ascii.eqb ch Js.DQ then scanObject t r (S i) depth start true escape
      else if Ascii.eqb ch "{" then
        scanObject t r (S i) (depth + 1)
                   (if depth =? 0 then Some i else start) inStr escape
      else if Ascii.eqb ch "}" then
        match start with
        | Some st =>
            if depth - 1 =? 0 then tryParse (sliceStr t st (S i))
            else scanObject t r (S i) (depth - 1) start inStr escape
        | None => scanObject t r (S i) (depth - 1) start inStr escape
        end
      else scanObject t r (S i) depth start inStr escape
  end.

Definition firstObject (t : string) : option JValue :=
  scanObject t t 0 0 None false false.

(** The scan of [extractEditsArray] over the text [s] that starts at the
    opening bracket. *)
Fixpoint scanArray (s0 s : string) (i : nat) (depth : Z) (inStr escape : bool)
  : option (list JValue) :=
  match s with
  | EmptyString => None
  | String ch r =>
      if inStr then
        if escape then scanArray s0 r (S i) depth inStr false
        else if Ascii.eqb ch Js.BSL then scanArray s0 r (S i) depth inStr true
        else if Ascii.eqb ch Js.DQ then scanArray s0 r (S i) depth false escape
        else scanArray s0 r (S i) depth inStr escape
      else if Ascii.eqb ch Js.DQ then scanArray s0 r (S i) depth true escape
      else if Ascii.eqb ch "[" then scanArray s0 r (S i) (depth + 1) inStr escape
      else if Ascii.eqb ch "]" then
        if depth - 1 =? 0 then
          match tryParse (sliceStr s0 0 (S i)) with
          | Some (JArray items) => Some items
          | _ => None
          end
        else scanArray s0 r (S i) (depth - 1) inStr escape
      else scanArray s0 r (S i) depth inStr escape
  end.

Definition editsKey : string := String Js.DQ ("edits" +:+ Js.str1 Js.DQ).

Definition extractEditsArray (text : string) : option (list JValue) :=
  match Js.indexOf editsKey text with
  | None => None
  | Some idx =>
      let after := Js.drop idx text in
      match Js.indexOf "[" after with
      | None => None
      | Some arrStart =>
          let s := Js.drop arrStart after in
          scanArray s s 0 0 false false
      end
  end.

(** [l.replace(/^([-*]|\d+\.)\s+/, "")] *)
Definition stripBullet (l : string) : string :=
  match l with
  | String c r =>
      if Ascii.eqb c "-" || Ascii.eqb c "*" then
        match scanWs1 r with Some r' => r' | None => l end
      else
        match Js.span Js.isDigit l with
        | (String _ _, String "." r2) =>
            match scanWs1 r2 with Some r' => r' | None => l end
        | _ => l
        end
  | EmptyString => l
  end.

Definition planOf (v : option JValue) : option (list string) :=
  match v with
  | Some (JArray items) =>
      Some (firstn 16
              (List.filter nonEmpty
                 (map (fun x => match x with JString s => Js.trim s | _ => EmptyString end)
                      items)))
  | Some (JString s) =>
      Some (firstn 16
              (List.filter nonEmpty
                 (map (fun l => Js.trim (stripBullet l)) (Js.splitChar Js.LF s))))
  | _ => None
  end.

Definition readyMessage : string := "Proposed changes are ready.".

Definition tryParseEditsFromAssistantOutput (raw : string) : option Recovered :=
  let t := Js.trim raw in
  if negb (nonEmpty t) then None
  else
    let direct := tryParse t in
    let parsed :=
      match direct with
      | None | Some JNull => firstObject t
      | Some v => Some v
      end in
    let fromObject :=
      match parsed with
      | Some (JObject ms) =>
          match Json.get (JObject ms) "edits" with
          | Some (JArray edits) =>
              let msg :=
                match Json.asString (Json.get (JObject ms) "assistant_message") with
                | Some m => m
                | None =>
                    match Json.asString (Json.get (JObject ms) "summary") with
                    | Some m => m
                    | None => readyMessage
                    end
                end in
              Some (mkRecovered (Js.trim msg) edits
                      (Json.asString (Json.get (JObject ms) "think"))
                      (planOf (Json.get (JObject ms) "plan"))
                      (Json.asString (Json.get (JObject ms) "verify"))
                      (Json.asString (Json.get (JObject ms) "done")))
          | _ => None
          end
      | _ => None
      end in
    match fromObject with
    | Some r => Some r
    | None =>
        match extractEditsArray t with
        | Some (e :: es) => Some (mkRecovered readyMessage (e :: es) None None None None)
        | _ => None
        end
    end.

(** ** Path helpers (AppShell.tsx, lines 1127-1142) *)

(** [s.lastIndexOf(c)] for a character, [None] standing for -1. *)
Fixpoint lastIndexOfChar (c : ascii) (s : string) : option nat :=
  match s with
  | EmptyString => None
  | String a s' =>
      match lastIndexOfChar c s' with
      | Some i => Some (S i)
      | None => if Ascii.eqb a c then Some O else None
      end
  end.

(** [dirname]: what precedes the last slash of the slash-normalised path;
    the root when there is no slash or only a leading one. *)
Definition dirname (p : string) : string :=
  let norm := Js.replaceBackslashes p in
  match lastIndexOfChar Js.SLASH norm with
  | Some (S i) => Js.take (S i) norm
  | _ => "/"
  end.

(** [s.replace(/^\/+/, "")] *)
Fixpoint dropLeadingSlashes (s : string) : string :=
  match s with
  | EmptyString => EmptyString
  | String a s' => if Ascii.eqb a Js.SLASH then dropLeadingSlashes s' else s
  end.

(** [s.replace(/\/+?/g, "/")]: the quantifier is lazy and nothing follows
    it, so every match is one slash, which is replaced by a slash. *)
Fixpoint replaceLazySlashes (s : string) : string :=
  match s with
  | EmptyString => EmptyString
  | String a s' =>
      String (if Ascii.eqb a Js.SLASH then Js.SLASH else a) (replaceLazySlashes s')
  end.

(** [normalizeRelPath] *)
Definition normalizeRelPath (p : string) : string :=
  let norm := Js.trim p in
  if negb (nonEmpty norm) then EmptyString
  else
    let norm := Js.replaceBackslashes norm in
    let norm := stripDotSlash norm in
    let norm := dropLeadingSlashes norm in
    replaceLazySlashes norm.

(** ** File index (AppShell.tsx, lines 3663-3686) *)

(** The filter of [ensureFileIndex]: empty paths and paths seen before are
    left out. *)
Fixpoint dedupLoop (ps : list string) (seen : gset string) : list string :=
  match ps with
  | [] => []
  | p :: rest =>
      if negb (nonEmpty p) then dedupLoop rest seen
      else if decide (p ∈ seen) then dedupLoop rest seen
      else p :: dedupLoop rest ({[ p ]} ∪ seen)
  end.

(** The list [deduped] that [ensureFileIndex] stores as the file index. *)
Definition dedupedFileIndex (files : list string) : list string :=
  dedupLoop (map normalizeRelPath files) ∅.

(** ** Quick open (AppShell.tsx, lines 7214-7246) *)

(** [isSubsequence] and the list of [QuickOpen] compare strings position by
    position.  A string is here the sequence of its code units, of a type
    [U] with decidable equality, and [toLowerCase] is the function of the
    runtime. *)
Section QuickOpen.

Context {U : Type} `{EqDecision U}.
Variable toLowerCase : list U -> list U.

(** [isSubsequence]: the loop runs over the haystack; the needle that is
    left stands for the index [i]. *)
Fixpoint isSubsequence (needle haystack : list U) : bool :=
  match haystack with
  | [] => match needle with [] => true | _ => false end
  | h :: haystack' =>
      match needle with
      | [] => true
      | c :: needle' =>
          if decide (h = c) then isSubsequence needle' haystack'
          else isSubsequence needle haystack'
      end
  end.

Fixpoint startsWithUnits (p s : list U) : bool :=
  match p, s with
  | [], _ => true
  | a :: p', b :: s' => bool_decide (a = b) && startsWithUnits p' s'
  | _ :: _, [] => false
  end.

(** [s.includes(p)] *)
Fixpoint includesUnits (p s : list U) : bool :=
  startsWithUnits p s ||
  match s with
  | [] => false
  | _ :: s' => includesUnits p s'
  end.

(** The loop of the list: [out] is what was pushed so far. *)
Fixpoint quickOpenLoop (files : list (list U)) (q : list U) (out : list (list U))
  : list (list U) :=
  match files with
  | [] => out
  | f :: rest =>
      let lf := toLowerCase f in
      if includesUnits q lf || isSubsequence q lf then
        let out' := out ++ [f] in
        if (120 <=? List.length out')%nat then out' else quickOpenLoop rest q out'
      else quickOpenLoop rest q out
  end.

(** The memoised [list] of [QuickOpen] for the files [files] and the
    trimmed, lower-cased query [q]. *)
Definition quickOpenList (files : list (list U)) (q : list U) : list (list U) :=
  match files with
  | [] => []
  | _ =>
      match q with
      | [] => firstn 60 files
      | _ => quickOpenLoop files q []
      end
  end.

End QuickOpen.

(** ** Relative times (AppShell.tsx, lines 457-473) *)

(** [formatRelTime]; [now] is the value of [Date.now()]. *)
Definition formatRelTime (now ts : Z) : string :=
  let d := Z.max 0 (now - ts) in
  let s := d / 1000 in
  if s <? 60 then "now"
  else
    let m := s / 60 in
    if m <? 60 then Js.showZ m +:+ "m"
    else
      let h := m / 60 in
      if h <? 24 then Js.showZ h +:+ "h"
      else
        let days := h / 24 in
        if days <? 7 then Js.showZ days +:+ "d"
        else
          let w := days / 7 in
          if w <? 4 then Js.showZ w +:+ "w"
          else
            let mo := days / 30 in
            if mo <? 12 then Js.showZ mo +:+ "mo"
            else
              let y := days / 365 in
              Js.showZ y +:+ "y".

(** ** Proposals (AppShell.tsx, lines 2491-2547) *)

Record ProposalFile := mkProposalFile {
  pf_path : string;
  pf_kind : FileKind;
  pf_isNew : bool
}.

Record Proposal := mkProposal {
  p_changeSetId : string;
  p_title : string;
  p_plan : list string;
  p_risks : list string;
  p_files : list ProposalFile;
  p_stats : Stats
}.

(** The loop of [buildProposal] over the trimmed, non-empty lines of the
    assistant text: [inPlan] and [plan] are its two variables. *)
Fixpoint planLoop (lines : list string) (inPlan : bool) (plan : list string)
  : list string :=
  match lines with
  | [] => plan
  | l :: rest =>
      let lower := Js.toLowerCase l in
      if String.eqb lower "plan:" || String.eqb lower "plan"
         || Js.startsWith "plan:" lower
      then planLoop rest true plan
      else if inPlan then
        if Js.startsWith "notes" lower || Js.startsWith "result" lower
           || Js.startsWith "changes" lower || Js.startsWith "summary" lower
        then planLoop rest false plan
        else
          let item := Js.trim (stripBullet l) in
          let plan' := if nonEmpty item then plan ++ [item] else plan in
          if (6 <=? List.length plan')%nat then plan'
          else planLoop rest inPlan plan'
      else planLoop rest inPlan plan
  end.

(** The entry of the proposal for one file of the change set. *)
Definition proposalFile (f : ChangeFile) : ProposalFile :=
  match cf_kind f with
  | fk_rename =>
      let parts := Js.split " → " (cf_path f) in
      mkProposalFile (nth 1 parts (cf_path f)) fk_rename false
  | fk_write =>
      mkProposalFile (cf_path f) fk_write
        (match cf_before f with None => true | Some _ => false end)
  | fk_delete => mkProposalFile (cf_path f) fk_delete false
  end.

(** The list [risks] of [buildProposal]. *)
Definition proposalRisks (cs : ChangeSet) (sanitized : bool) : list string :=
  let count (p : ChangeFile -> bool) := Js.lenZ (List.filter p (cs_files cs)) in
  let newFiles :=
    count (fun f => FileKind_eqb (cf_kind f) fk_write
                    && match cf_before f with None => true | Some _ => false end) in
  let deletes := count (fun f => FileKind_eqb (cf_kind f) fk_delete) in
  let renames := count (fun f => FileKind_eqb (cf_kind f) fk_rename) in
  (if sanitized
   then ["AI returned paths outside this workspace; paths were sanitized."]
   else [])
  ++ (if Js.lenZ (cs_files cs) >? 8
      then ["Large scope: " +:+ Js.showZ (Js.lenZ (cs_files cs)) +:+ " files."]
      else [])
  ++ (if negb (newFiles =? 0)
      then ["Creates new files: " +:+ Js.showZ newFiles +:+ "."] else [])
  ++ (if negb (deletes =? 0)
      then ["Deletes files: " +:+ Js.showZ deletes +:+ "."] else [])
  ++ (if negb (renames =? 0)
      then ["Renames files: " +:+ Js.showZ renames +:+ "."] else []).

(** [buildProposal] *)
Definition buildProposal (assistantText : string) (cs : ChangeSet) (sanitized : bool)
  : Proposal :=
  let lines :=
    List.filter nonEmpty (map Js.trim (Js.splitChar Js.LF assistantText)) in
  let plan := planLoop lines false [] in
  mkProposal (cs_id cs) "Proposed changes"
             (match plan with
              | [] => ["Review proposed changes"; "Apply when ready"]
              | _ => plan
              end)
             (proposalRisks cs sanitized)
             (firstn 30 (map proposalFile (cs_files cs)))
             (cs_stats cs).

(** ** Languages and icons (AppShell.tsx, lines 1144-1168) *)

(** [s.endsWith(suffix)] *)
Definition endsWith (suffix s : string) : bool :=
  (String.length suffix <=? String.length s)%nat
  && String.eqb (Js.drop (String.length s - String.length suffix) s) suffix.

(** [detectLanguage] *)
Definition detectLanguage (path : string) : string :=
  let lower := Js.toLowerCase path in
  let ext :=
    if Js.includes "." lower
    then List.last (Js.splitChar "." lower) EmptyString
    else EmptyString in
  if String.eqb ext "ts" then "typescript"
  else if String.eqb ext "tsx" then "typescript"
  else if String.eqb ext "js" then "javascript"
  else if String.eqb ext "jsx" then "javascript"
  else if String.eqb ext "json" then "json"
  else if String.eqb ext "css" then "css"
  else if String.eqb ext "html" then "html"
  else if String.eqb ext "md" then "markdown"
  else if String.eqb ext "rs" then "rust"
  else if String.eqb ext "toml" then "toml"
  else if String.eqb ext "yaml" || String.eqb ext "yml" then "yaml"
  else "plaintext".

(** The three icons that [fileIconFor] chooses from. *)
Inductive FileIcon := FileJson | FileCode | FileText.

(** [fileIconFor] *)
Definition fileIconFor (path : string) : FileIcon :=
  let lower := Js.toLowerCase path in
  if endsWith ".json" lower then FileJson
  else if endsWith ".ts" lower || endsWith ".tsx" lower
          || endsWith ".js" lower || endsWith ".jsx" lower
  then FileCode
  else FileText.

(** ** Terminal output (AppShell.tsx, lines 547-552) *)

Definition ESC : ascii := "027"%char.
Definition BEL : ascii := "007"%char.

(** The classes [0-9;?], [ -/] and [@-~] of a control sequence. *)
Definition isCsiParam (a : ascii) : bool :=
  let n := nat_of_ascii a in
  ((48 <=? n) && (n <=? 57) || (n =? 59) || (n =? 63))%nat.

Definition isCsiInter (a : ascii) : bool :=
  let n := nat_of_ascii a in ((32 <=? n) && (n <=? 47))%nat.

Definition isCsiFinal (a : ascii) : bool :=
  let n := nat_of_ascii a in ((64 <=? n) && (n <=? 126))%nat.

(** The length of the match of [/\x1b\[[0-9;?]*[ -/]*[@-~]/] at the head of
    [s], if there is one.  The three classes are disjoint, so the greedy
    scan is the only way to match. *)
Definition csiLen (s : string) : option nat :=
  match s with
  | String e (String "[" r) =>
      if Ascii.eqb e ESC then
        let '(params, r1) := Js.span isCsiParam r in
        let '(inter, r2) := Js.span isCsiInter r1 in
        match r2 with
        | String f _ =>
            if isCsiFinal f
            then Some (2 + String.length params + String.length inter + 1)%nat
            else None
        | EmptyString => None
        end
      else None
  | _ => None
  end.

(** [s.lastIndexOf(p)], [None] standing for -1. *)
Fixpoint lastIndexOf (p s : string) : option nat :=
  match s with
  | EmptyString => if Js.startsWith p s then Some O else None
  | String _ s' =>
      match lastIndexOf p s' with
      | Some i => Some (S i)
      | None => if Js.startsWith p s then Some O else None
      end
  end.

(** The length of the match of [/\x1b\][^\x07]*(?:\x07|\x1b\\)/] at the head
    of [s], if there is one.  The greedy class runs up to the first BEL,
    where the match ends; without a BEL it runs to the end of the text and
    is given back up to the last ESC backslash. *)
Definition oscLen (s : string) : option nat :=
  match s with
  | String e (String "]" r) =>
      if Ascii.eqb e ESC then
        match Js.indexOf (Js.str1 BEL) r with
        | Some i => Some (2 + i + 1)%nat
        | None =>
            match lastIndexOf (String ESC (Js.str1 Js.BSL)) r with
            | Some j => Some (2 + j + 2)%nat
            | None => None
            end
        end
      else None
  | _ => None
  end.

(** [s.replace(re, "")] for a global expression whose match at a position
    has the length [m] gives: the text is scanned from left to right, a
    match is left out and the scan goes on behind it.  [skip] counts the
    characters of a match still to be left out. *)
Fixpoint removeMatches (m : string -> option nat) (skip : nat) (s : string) : string :=
  match s with
  | EmptyString => EmptyString
  | String a s' =>
      match skip with
      | S k => removeMatches m k s'
      | O =>
          match m s with
          | Some (S k) => removeMatches m k s'
          | _ => String a (removeMatches m O s')
          end
      end
  end.

(** [s.replace(/\r/g, "")] *)
Fixpoint removeCR (s : string) : string :=
  match s with
  | EmptyString => EmptyString
  | String a s' => if Ascii.eqb a Js.CR then removeCR s' else String a (removeCR s')
  end.

(** [stripAnsiForLog] *)
Definition stripAnsiForLog (s : string) : string :=
  removeCR (removeMatches oscLen O (removeMatches csiLen O s)).

(** * Part II: the vocabulary of the statements *)

(** ** Runs of the base that equal a sequence *)

(** [runAt hay seq i]: the base lines [hay] hold the contiguous run [seq]
    from index [i] on. *)
Definition runAt (hay seq : list string) (i : Z) : Prop :=
  0 <= i /\ i + Js.lenZ seq <= Js.lenZ hay /\
  Js.sliceZ hay i (i + Js.lenZ seq) = seq.


(** [nearestRun hay seq lo pref i]: the same in the arithmetic of the
    runtime, where the distance of an index from [pref] is a double: the
    distance of the run at [i] is finite, no run at or after [lo] is nearer,
    and every run before [i] is farther. *)
Definition nearestRun (hay seq : list string) (lo : Z) (pref : Num.JsNum) (i : Z)
  : Prop :=
  runAt hay seq i /\ lo <= i /\
  Num.ltb (Num.absDiff i pref) Num.PosInf = true /\
  forall j, runAt hay seq j -> lo <= j ->
    Num.ltb (Num.absDiff j pref) (Num.absDiff i pref) = false /\
    (j < i -> Num.ltb (Num.absDiff i pref) (Num.absDiff j pref) = true).

(** What the scanning loop has established after looking at the indices of
    [lo, hi): [r] is its variable [best], [d] its variable [bestDist]. *)
Definition bestIn (hay seq : list string) (pref : Num.JsNum) (lo hi : Z)
    (r : option Z) (d : Num.JsNum) : Prop :=
  match r with
  | None =>
      d = Num.PosInf /\
      forall j, lo <= j < hi -> seqMatchesAt hay seq j = true ->
        Num.ltb (Num.absDiff j pref) Num.PosInf = false
  | Some b =>
      d = Num.absDiff b pref /\
      lo <= b < hi /\ seqMatchesAt hay seq b = true /\
      Num.ltb (Num.absDiff b pref) Num.PosInf = true /\
      forall j, lo <= j < hi -> seqMatchesAt hay seq j = true ->
        Num.ltb (Num.absDiff j pref) (Num.absDiff b pref) = false /\
        (j < b -> Num.ltb (Num.absDiff b pref) (Num.absDiff j pref) = true)
  end.

(** ** Old and new lines of a hunk *)

(** The lines a hunk puts into the output: its context and added lines. *)
Definition newSeqOf (h : UnifiedDiffHunk) : list string :=
  map hl_text
    (List.filter (fun x => LineKind_eqb (hl_kind x) ctx || LineKind_eqb (hl_kind x) add)
                 (hunk_lines h)).

Definition oldTexts (hls : list UnifiedDiffHunkLine) : list string :=
  map hl_text
    (List.filter (fun x => LineKind_eqb (hl_kind x) ctx || LineKind_eqb (hl_kind x) del) hls).

Definition newTexts (hls : list UnifiedDiffHunkLine) : list string :=
  map hl_text
    (List.filter (fun x => LineKind_eqb (hl_kind x) ctx || LineKind_eqb (hl_kind x) add) hls).

(** A text given by its lines, for writing examples down. *)
Definition textOf (ls : list string) : string := Js.join (Js.str1 Js.LF) ls.

(** ** Anchors of the hunks of a patch *)

(** [anchorOf a h cur i]: the index [i] is where a hunk is to be anchored
    in the base [a] from the cursor [cur] on, in the arithmetic of the
    runtime: at the nearest run of its context and deleted lines; a hunk
    without such lines, at its preferred index, kept between the cursor and
    the end of the base. *)
Definition anchorOf (a : list string) (h : UnifiedDiffHunk) (cur i : Z) : Prop :=
  match oldSeqOf h with
  | [] => i = Num.clamp cur (Js.lenZ a) (preferredIdxOf h)
  | _ :: _ => nearestRun a (oldSeqOf h) cur (preferredIdxOf h) i
  end.




(** [anchoring R hunks cur anchors cur']: the hunks are anchored one after
    the other as [R] says, the first from the cursor [cur] on and each from
    the end of the old lines of the one before; [cur'] is the cursor
    behind the last. *)
Fixpoint anchoring (R : UnifiedDiffHunk -> Z -> Z -> Prop)
    (hunks : list UnifiedDiffHunk) (cur : Z) (anchors : list Z) (cur' : Z) : Prop :=
  match hunks, anchors with
  | [], [] => cur' = cur
  | h :: hs, i :: rest =>
      R h cur i /\ anchoring R hs (i + Js.lenZ (oldSeqOf h)) rest cur'
  | _, _ => False
  end.

(** The lines that hunks anchored at [anchors] make of the base from the
    cursor on: the base up to an anchor and the context and added lines of
    the hunk by turns, the old lines of the hunk being passed over, and
    then the rest of the base. *)
Fixpoint assemble (a : list string) (hunks : list UnifiedDiffHunk)
    (anchors : list Z) (cur : Z) : list string :=
  match hunks, anchors with
  | h :: hs, i :: rest =>
      Js.sliceZ a cur i ++ newSeqOf h
        ++ assemble a hs rest (i + Js.lenZ (oldSeqOf h))
  | _, _ => Js.sliceFromZ a cur
  end.

(** [unlocatable a h cur]: the hunk has context or deleted lines, and no
    run of them at or after the cursor lies at a finite distance from its
    preferred index. *)
Definition unlocatable (a : list string) (h : UnifiedDiffHunk) (cur : Z) : Prop :=
  oldSeqOf h <> [] /\
  forall j, cur <= j -> runAt a (oldSeqOf h) j ->
    Num.absDiff j (preferredIdxOf h) = Num.PosInf.

(** The answer for a hunk that is not located: the line number is
    [Math.max(0, oldStart - 1) + 1] as the runtime computes and prints it. *)
Definition locateMessage (h : UnifiedDiffHunk) : string :=
  "Failed to locate hunk context in file (starting near line "
    +:+ Num.toString (Num.addZ (Num.max0 (Num.addZ (oldStart h) (-1))) 1) +:+ ").".

(** ** The diff a line differ writes *)

(** The differ itself is not part of the engine.  What it writes is given
    by the hunks of the diff, in the order of the base; the lines are those
    of [splitLines], so that a text which ends in a line break has a last,
    empty line. *)

(** A line of a script, prefixed by a blank (kept), [-] (deleted) or [+]
    (added). *)
Definition renderHunkLine (hl : UnifiedDiffHunkLine) : string :=
  match hl_kind hl with
  | ctx => String " " (hl_text hl)
  | add => String "+" (hl_text hl)
  | del => String "-" (hl_text hl)
  end.

(** A line of the body of a hunk: a line of the script with its prefix; an
    empty line, which stands for an empty kept line (differs that cut
    trailing blanks write it, and the final line break of a diff text
    leaves it behind the last hunk); or the marker that the last line has
    no line break. *)
Inductive BodyLine :=
| Shown (hl : UnifiedDiffHunkLine)
| Blank
| Marker.

Definition renderBodyLine (b : BodyLine) : string :=
  match b with
  | Shown hl => renderHunkLine hl
  | Blank => EmptyString
  | Marker => noNewlineMarker
  end.

(** The steps of the script that a body line stands for. *)
Definition stepsOf (b : BodyLine) : list UnifiedDiffHunkLine :=
  match b with
  | Shown hl => [hl]
  | Blank => [mkHunkLine ctx EmptyString]
  | Marker => []
  end.

Definition scriptOf (body : list BodyLine) : list UnifiedDiffHunkLine :=
  flat_map stepsOf body.

(** A hunk of a diff: the lines of the base that lie untouched between the
    hunk before and this one, the fields of the header (the two counts may
    be left out, and a section heading may follow), and the body. *)
Record DiffHunk := mkDiffHunk {
  dh_gap : list string;
  dh_start : string;
  dh_count : option string;
  dh_newStart : string;
  dh_newCount : option string;
  dh_section : string;
  dh_body : list BodyLine
}.

(** The lines of the base that a hunk stands for, and the lines it makes
    of them. *)
Definition dh_old (h : DiffHunk) : list string := oldTexts (scriptOf (dh_body h)).
Definition dh_new (h : DiffHunk) : list string := newTexts (scriptOf (dh_body h)).

Definition renderRange (start : string) (count : option string) : string :=
  start +:+ match count with Some n => "," +:+ n | None => EmptyString end.

Definition renderHunkHeader (h : DiffHunk) : string :=
  "@@ -" +:+ renderRange (dh_start h) (dh_count h)
    +:+ " +" +:+ renderRange (dh_newStart h) (dh_newCount h)
    +:+ " @@" +:+ dh_section h.

Definition renderHunk (h : DiffHunk) : list string :=
  renderHunkHeader h :: map renderBodyLine (dh_body h).

(** The text of a diff: the lines before the first hunk, such as the file
    headers, and the hunks, joined by line feeds. *)
Definition renderDiff (preamble : list string) (hs : list DiffHunk) : string :=
  textOf (preamble ++ flat_map renderHunk hs).

(** The base and the target of a diff: gaps and hunks by turns, then the
    lines behind the last hunk. *)
Fixpoint oldSide (hs : list DiffHunk) (tail : list string) : list string :=
  match hs with
  | [] => tail
  | h :: r => dh_gap h ++ dh_old h ++ oldSide r tail
  end.

Fixpoint newSide (hs : list DiffHunk) (tail : list string) : list string :=
  match hs with
  | [] => tail
  | h :: r => dh_gap h ++ dh_new h ++ newSide r tail
  end.

(** The start that a differ declares for old lines that begin behind [n]
    lines of the base: the line number [n + 1], and [n] when there are no
    old lines. *)
Definition standardStart (n : Z) (old : list string) : Z :=
  match old with
  | [] => n
  | _ :: _ => n + 1
  end.

(** Every header declares the start of its hunk, [n] being the number of
    lines of the base before the gap of the first hunk. *)
Fixpoint positioned (hs : list DiffHunk) (n : Z) : Prop :=
  match hs with
  | [] => True
  | h :: r =>
      Js.digitsToZ (dh_start h) = standardStart (n + Js.lenZ (dh_gap h)) (dh_old h) /\
      positioned r (n + Js.lenZ (dh_gap h) + Js.lenZ (dh_old h))
  end.

(** A decimal numeral. *)
Definition digits (s : string) : bool := nonEmpty s && Js.allChars Js.isDigit s.

Definition optDigits (o : option string) : bool :=
  match o with
  | Some c => digits c
  | None => true
  end.

Definition noBreakb (l : string) : bool :=
  negb (Js.hasChar Js.LF l) && negb (Js.hasChar Js.CR l).

(** No deleted line starts with [-- ] and no added line with [++ ]: the
    rendered line would read as a file header. *)
Definition noHeaderLook (hl : UnifiedDiffHunkLine) : bool :=
  match hl_kind hl with
  | ctx => true
  | del => negb (Js.startsWith "-- " (hl_text hl))
  | add => negb (Js.startsWith "++ " (hl_text hl))
  end.

(** A hunk as a differ writes it: the fields of the header are numerals,
    the section heading has no line break, no line of the body reads as a
    file header, and a hunk without kept or deleted lines has no gap before
    it: it sits at the start of the base or right behind the hunk before. *)
Definition wellFormedHunk (h : DiffHunk) : bool :=
  digits (dh_start h) && optDigits (dh_count h)
  && digits (dh_newStart h) && optDigits (dh_newCount h)
  && noBreakb (dh_section h)
  && forallb noHeaderLook (scriptOf (dh_body h))
  && match dh_old h, dh_gap h with
     | [], _ :: _ => false
     | _, _ => true
     end.

(** A line before the first hunk: no line break, and no hunk header. *)
Definition preambleLine (l : string) : bool :=
  noBreakb l && match matchHunkHeader l with None => true | Some _ => false end.

(** The hunk that the parser is to read from a hunk of a diff. *)
Definition parsedHunk (h : DiffHunk) : UnifiedDiffHunk :=
  mkHunk (Num.ofDigits (dh_start h))
         (match dh_count h with Some c => Num.ofDigits c | None => Num.Fin 1 end)
         (Num.ofDigits (dh_newStart h))
         (match dh_newCount h with Some c => Num.ofDigits c | None => Num.Fin 1 end)
         (scriptOf (dh_body h)).

(** ** Properties of a sanitised path *)

(** No segment of [p] is [..]. *)
Definition traversalFree (p : string) : bool :=
  forallb (fun seg => negb (String.eqb seg "..")) (Js.splitChar Js.SLASH p).

(** [p] is workspace-relative as the sanitiser tests it: it does not start
    with a slash, nor with a letter, a colon and a slash. *)
Definition isRelative (p : string) : bool :=
  negb (Js.startsWith "/" p || looksLikeDrive p).

(** ** Blocks of a git diff *)

Definition notDiffGit (l : string) : bool := negb (Js.startsWith "diff --git " l).

Definition noBreak (l : string) : Prop :=
  Js.hasChar Js.LF l = false /\ Js.hasChar Js.CR l = false.

(** A block: a [diff --git] line and the lines up to the next one. *)
Definition gitBlock (b : list string) : bool :=
  match b with
  | d :: rest => Js.startsWith "diff --git " d && forallb notDiffGit rest
  | [] => false
  end.

(** What the last line of the block that starts with [prefix] says behind
    the prefix. *)
Definition lastHeader (prefix : string) (b : list string) : option string :=
  match List.find (Js.startsWith prefix) (rev b) with
  | Some l => Some (Js.drop (String.length prefix) l)
  | None => None
  end.

(** A path as an operation carries it: trimmed, and without the prefix
    [a/] or [b/]. *)
Definition stripPrefix (p : string) : string :=
  let t := Js.trim p in
  if Js.startsWith "a/" t || Js.startsWith "b/" t then Js.drop 2 t else t.

Definition headerPath (prefix : string) (b : list string) : option string :=
  option_map stripPrefix (lastHeader prefix b).

(** The path names a file: it is not empty and not [/dev/null]. *)
Definition namesFile (o : option string) : bool :=
  match o with
  | Some p => nonEmpty p && negb (String.eqb p "/dev/null")
  | None => false
  end.

(** The path of a block: that of its last [+++ ] line if it names a file,
    else that of its last [--- ] line if that names a file. *)
Definition namedPath (b : list string) : option string :=
  if namesFile (headerPath "+++ " b) then headerPath "+++ " b
  else if namesFile (headerPath "--- " b) then headerPath "--- " b
  else None.

(** The block says [rename from] and [rename to], each with a path. *)
Definition namesRename (b : list string) : bool :=
  match headerPath "rename from " b, headerPath "rename to " b with
  | Some f, Some t => nonEmpty f && nonEmpty t
  | _, _ => false
  end.

(** The block carries the mark [deleted file mode]; it has a hunk header;
    its last [+++ ] line says [/dev/null]. *)
Definition markedDeleted (b : list string) : bool :=
  existsb (Js.startsWith "deleted file mode") b.

Definition hasHunk (b : list string) : bool := existsb (Js.startsWith "@@ ") b.

Definition newIsNull (b : list string) : bool :=
  optIs (headerPath "+++ " b) "/dev/null".

(** ** Keys of the builder *)

(** [firstWith env edits key f]: [f] is the file built from the first
    operation of [edits] whose key is [key]. *)
Definition firstWith (env : BuildEnv) (edits : list AiEditOp) (key : string)
    (f : ChangeFile) : Prop :=
  exists pre e post,
    edits = pre ++ e :: post /\
    fileOf env e = Some (key, Ok f) /\
    Forall (fun e' => fst <$> fileOf env e' <> Some key) pre.

(** What the loop of the builder has established after the operations
    [done]. *)
Definition buildInv (env : BuildEnv) (done : list AiEditOp)
    (acc : list ChangeFile * gset string) : Prop :=
  exists keys : list string,
    NoDup keys /\
    Forall2 (firstWith env done) keys (fst acc) /\
    (forall k, k ∈ snd acc <-> k ∈ keys) /\
    (forall e k r, In e done -> fileOf env e = Some (k, r) -> k ∈ keys).

(** ** Edits and their inverses *)

(** The file operation an edit stands for, once its paths are trimmed. *)
Inductive OpView :=
| VWrite (p c : string)
| VDelete (p : string)
| VRename (f t : string)
| VNone.

Definition viewOf (e : AiEditOp) : OpView :=
  let op := Js.toLowerCase (e_op e) in
  if String.eqb op "run" then VNone
  else if String.eqb op "write" then
    match trimmedPath (e_path e) with
    | Some p => VWrite p (default EmptyString (e_content e))
    | None => VNone
    end
  else if String.eqb op "patch" then VNone
  else if String.eqb op "delete" then
    match trimmedPath (e_path e) with
    | Some p => VDelete p
    | None => VNone
    end
  else if String.eqb op "rename" then
    match trimmedPath (e_from e), trimmedPath (e_to e) with
    | Some f, Some t => VRename f t
    | _, _ => VNone
    end
  else VNone.

(** The paths an edit touches. *)
Definition touched (e : AiEditOp) : list string :=
  match viewOf e with
  | VWrite p _ => [p]
  | VDelete p => [p]
  | VRename f t => [f; t]
  | VNone => []
  end.

(** The key under which the builder remembers an edit. *)
Definition opKey (e : AiEditOp) : option string :=
  match viewOf e with
  | VWrite p _ => Some ("w:" +:+ p)
  | VDelete p => Some ("d:" +:+ p)
  | VRename f t => Some ("r:" +:+ f +:+ "->" +:+ t)
  | VNone => None
  end.

(** The file the builder makes of an edit. *)
Definition fileFor (env : BuildEnv) (e : AiEditOp) : ChangeFile :=
  match viewOf e with
  | VWrite p c => mkChangeFile fk_write p (readBefore env p) (Some c)
  | VDelete p => mkChangeFile fk_delete p (readBefore env p) None
  | VRename f t =>
      mkChangeFile fk_rename (renameLabel f t) (readBefore env f) (readBefore env f)
  | VNone => mkChangeFile fk_write EmptyString None None
  end.

(** [e] is a write, a delete of a file that exists, or a rename of a file
    that exists to a path that does not, the two paths being recoverable
    from the label of the change file. *)
Definition revertible (S : gmap string string) (e : AiEditOp) : Prop :=
  match viewOf e with
  | VWrite _ _ => True
  | VDelete p => is_Some (S !! p)
  | VRename f t =>
      is_Some (S !! f) /\ S !! t = None /\
      Js.split " → " (renameLabel f t) = [f; t]
  | VNone => False
  end.

(** The inverse of an edit in the words of the specification: a write of a
    file that did not exist becomes a delete, a write of a file that did
    becomes a write of its former content, a delete becomes a write of the
    former content, a rename is turned around. *)
Definition inverseOps (S : gmap string string) (e : AiEditOp) : list AiEditOp :=
  match viewOf e with
  | VWrite p _ =>
      match S !! p with
      | None => [opDelete p]
      | Some before => [opWrite p before]
      end
  | VDelete p =>
      match S !! p with
      | Some before => [opWrite p before]
      | None => []
      end
  | VRename f t => [opRename t f]
  | VNone => []
  end.

(** A workspace with three files and a proposal touching four paths. *)
Definition demoFiles : gmap string string :=
  <["a.ts" := "old"]> (<["c.ts" := "gone"]> (<["d.ts" := "moved"]> ∅)).

Definition demoEdits : list AiEditOp :=
  [opWrite "a.ts" "new"; opWrite "b.ts" "fresh"; opDelete "c.ts"; opRename "d.ts" "e.ts"].

(** The round trip over a change set built in the workspace [S]. *)
Definition acceptThenReject (root : option string) (S : gmap string string)
    (id : string) (edits : list AiEditOp) : option AppState :=
  match buildChangeSet (mkBuildEnv [] S) id edits with
  | Ok cs =>
      Some (rejectAllChanges (acceptAllChanges true (mkAppState root S (Some cs))))
  | Err _ => None
  end.

(** ** Recovered edits *)

(** An element of the recovered array read as an edit operation. *)
Definition editOfJson (v : JValue) : AiEditOp :=
  mkOp (default EmptyString (Json.asString (Json.get v "op")))
       (Json.asString (Json.get v "path"))
       (Json.asString (Json.get v "content"))
       (Json.asString (Json.get v "from"))
       (Json.asString (Json.get v "to")).

(** A quoted word of a JSON text. *)
Definition qq (s : string) : string := String Js.DQ (s +:+ Js.str1 Js.DQ).

(** The text of the claim: the object and the array are both left open. *)
Definition truncatedOutput : string :=
  "{" +:+ qq "edits" +:+ ": [{" +:+ qq "op" +:+ ":" +:+ qq "write" +:+ ","
      +:+ qq "path" +:+ ":" +:+ qq "x.ts" +:+ ","
      +:+ qq "content" +:+ ":" +:+ qq "hi" +:+ "}".

(** ** The frame of a patch *)

(** [weave gaps segs]: the gaps and the segments by turns, a gap first. *)
Fixpoint weave (gaps segs : list (list string)) : list string :=
  match gaps, segs with
  | g :: gaps', s :: segs' => g ++ s ++ weave gaps' segs'
  | _, _ => []
  end.

(** The line [l] starts with neither [+] nor [-]. *)
Definition unsigned (l : string) : bool :=
  negb (Js.startsWith "+" l) && negb (Js.startsWith "-" l).

(** ** Operations of the splitter *)

(** The shape of an operation that the splitter emits: a rename with both
    paths, a patch with a path whose content begins with a [diff --git] line
    and holds a hunk marker, a delete with a path, or a write of the empty
    text with a path; every path is non-empty. *)
Definition splitterOp (e : AiEditOp) : bool :=
  if String.eqb (e_op e) "rename" then truthy (e_from e) && truthy (e_to e)
  else if String.eqb (e_op e) "patch" then
    truthy (e_path e)
    && Js.startsWith "diff --git " (default EmptyString (e_content e))
    && Js.includes "@@ " (default EmptyString (e_content e))
  else if String.eqb (e_op e) "delete" then truthy (e_path e)
  else if String.eqb (e_op e) "write" then
    truthy (e_path e) && optIs (e_content e) EmptyString
  else false.

(** A block is led by a [diff --git] line. *)
Definition ledBlock (b : list string) : Prop :=
  match b with
  | d :: _ => Js.startsWith "diff --git " d = true
  | [] => False
  end.

(** ** Shapes of a sanitised path *)

Definition isSlash (c : ascii) : bool := Ascii.eqb c Js.SLASH.

(** The path is safe as the sanitiser tests it: workspace-relative, and no
    segment is the text [..]. *)
Definition safePath (p : string) : bool := isRelative p && traversalFree p.

(** The path is a run of one or more slashes. *)
Definition slashesOnly (p : string) : bool := nonEmpty p && Js.allChars isSlash p.

(** An operation that the normaliser does not expand: no patch, or a patch
    whose text does not mention [diff --git]. *)
Definition plainEdit (e : AiEditOp) : bool :=
  negb (String.eqb (Js.toLowerCase (e_op e)) "patch")
  || negb (Js.includes "diff --git " (default EmptyString (e_content e))).

(** The path of [rel] below the directory [root]. *)
Definition below (root rel : string) : string := root +:+ "/" +:+ rel.

(** ** Scripts of the differ *)

(** The script that keeps every line of [ls]. *)
Definition keepAll (ls : list string) : list LineOp :=
  map (fun l => mkLineOp ctx (Some l)) ls.

(** The text of a side of a change file, [null] read as the empty text. *)
Definition sideText (o : option string) : string := default EmptyString o.

(** The lines a change file adds and removes, as the statistics count
    them. *)
Definition addedIn (f : ChangeFile) : Z :=
  countType add (diffLines (sideText (cf_before f)) (sideText (cf_after f))).

Definition removedIn (f : ChangeFile) : Z :=
  countType del (diffLines (sideText (cf_before f)) (sideText (cf_after f))).

Definition sumZ (l : list Z) : Z := fold_right Z.add 0 l.

(** ** Statistics of a change set *)

(** The statistics of a list of files in the words of the specification:
    the number of files, and the lines added and the lines removed, added
    up over the files. *)
Definition lineStats (files : list ChangeFile) : Stats :=
  mkStats (Js.lenZ files) (sumZ (map addedIn files)) (sumZ (map removedIn files)).

(** The files of a change set without the write of [path]. *)
Definition remaining (path : string) (cs : ChangeSet) : list ChangeFile :=
  List.filter
    (fun f => negb (FileKind_eqb (cf_kind f) fk_write && String.eqb (cf_path f) path))
    (cs_files cs).

(** The change set after the write of [path] is taken out: retired when no
    file remains, and else the same change set with the files that remain
    and their statistics. *)
Definition afterRemoval (path : string) (cs : ChangeSet) : option ChangeSet :=
  match remaining path cs with
  | [] => None
  | files =>
      Some (mkChangeSet (cs_id cs) (cs_edits cs) files (lineStats files) (cs_applied cs))
  end.

(** What the reject of an applied file does to the workspace: the file is
    deleted when it did not exist before, and else written back. *)
Definition restoreFile (path : string) (f : ChangeFile) (fs : gmap string string)
  : Result string (gmap string string) :=
  match cf_before f with
  | None => Workspace.deleteFile fs path
  | Some before => Workspace.writeFile fs path before
  end.

(** ** Shape of a recovered plan *)

(** A step of a plan as the recoverer returns it: not empty, and without
    surrounding white space. *)
Definition planStep (s : string) : Prop := nonEmpty s = true /\ Js.trim s = s.

(** ** Relative times *)

(** The milliseconds of a day, and the units that follow a count. *)
Definition dayMs : Z := 86400000.

Definition relUnits : list string := ["m"; "h"; "d"; "w"; "mo"; "y"].

(** ** Operations of one file *)

(** The operations of a change set that [acceptFileChange] applies for
    [path]: the writes, patches and deletes whose trimmed path is [path]. *)
Definition fileEditsOf (path : string) (cs : ChangeSet) : list AiEditOp :=
  List.filter
    (fun e =>
       let op := Js.toLowerCase (e_op e) in
       (String.eqb op "write" || String.eqb op "patch" || String.eqb op "delete")
       && String.eqb (Js.trim (default EmptyString (e_path e))) path)
    (cs_edits cs).

(** ** Extensions *)

(** What follows the last dot of a lower-cased path, empty when there is
    no dot: the [ext] of [detectLanguage]. *)
Definition extensionOf (lower : string) : string :=
  if Js.includes "." lower
  then List.last (Js.splitChar "." lower) EmptyString
  else EmptyString.

(** ** Plain terminal text *)

(** A text without an escape character and without a carriage return. *)
Definition plainText (s : string) : bool :=
  negb (Js.hasChar ESC s) && negb (Js.hasChar Js.CR s).

(** A control sequence: the introducer, parameter characters, intermediate
    characters and the final character. *)
Definition csiSequence (params inter : string) (final : ascii) : string :=
  String ESC (String "[" (params +:+ inter +:+ Js.str1 final)).

(** A matcher that only matches at an escape character. *)
Definition atEscape (m : string -> option nat) : Prop :=
  forall a s, Ascii.eqb a ESC = false -> m (String a s) = None.

(** * Part III: facts and claims *)

(** ** The arithmetic of doubles *)

Section NumFacts.
Import Num.

Lemma roundMag_exact (n : Z) : 0 <= n <= 2 ^ 53 -> roundMag n = Some n.
Proof.
  intros Hn. destruct (Z.eq_dec n (2 ^ 53)) as [->|Hne]; [vm_compute; reflexivity|].
  unfold roundMag. destruct (Z.ltb_spec n (2 ^ 53)) as [_|Hge]; [reflexivity|lia].
Qed.

(** Up to 2^53 every integer is a double. *)
Lemma round_exact (z : Z) : Z.abs z <= 2 ^ 53 -> round z = Fin z.
Proof.
  intros Hz. unfold round. rewrite roundMag_exact by lia.
  f_equal. destruct z; simpl; lia.
Qed.

Lemma absDiff_exact (i z : Z) :
  Z.abs (i - z) <= 2 ^ 53 -> absDiff i (Fin z) = Fin (Z.abs (i - z)).
Proof. intros H. unfold absDiff. rewrite round_exact by exact H. reflexivity. Qed.

(** A distance is not negative. *)
Lemma absDiff_cases (i : Z) (x : JsNum) :
  absDiff i x = PosInf \/ exists d, absDiff i x = Fin d /\ 0 <= d.
Proof.
  unfold absDiff. destruct x as [z| |]; [|left; reflexivity..].
  destruct (round (i - z)) as [d| |]; [|left; reflexivity..].
  right. exists (Z.abs d). split; [reflexivity|lia].
Qed.

Lemma absDiff_not_below_zero (i : Z) (x : JsNum) :
  ltb (absDiff i x) (Fin 0) = false.
Proof.
  destruct (absDiff_cases i x) as [->|(d & -> & Hd)]; [reflexivity|].
  simpl. apply Z.ltb_ge. exact Hd.
Qed.

Lemma absDiff_infinite (i : Z) (x : JsNum) :
  ltb (absDiff i x) PosInf = false <-> absDiff i x = PosInf.
Proof.
  destruct (absDiff_cases i x) as [->|(d & -> & Hd)]; simpl; split;
    try reflexivity; discriminate.
Qed.

Lemma isZero_spec (x : JsNum) : isZero x = true <-> x = Fin 0.
Proof.
  destruct x as [z| |]; simpl; split; try discriminate.
  - intros H. apply Z.eqb_eq in H. congruence.
  - intros H. inversion H. reflexivity.
Qed.

Lemma ltb_irrefl (x : JsNum) : ltb x x = false.
Proof. destruct x; simpl; [apply Z.ltb_irrefl|reflexivity..]. Qed.

Lemma ltb_trans (x y z : JsNum) :
  ltb x y = true -> ltb y z = true -> ltb x z = true.
Proof.
  destruct x, y, z; simpl; try discriminate; try reflexivity.
  rewrite !Z.ltb_lt. lia.
Qed.

(** [x < y] and [y <= z] give [x < z]. *)
Lemma ltb_le_trans (x y z : JsNum) :
  ltb x y = true -> ltb z y = false -> ltb x z = true.
Proof.
  destruct x, y, z; simpl; try discriminate; try reflexivity.
  rewrite !Z.ltb_lt, Z.ltb_ge. lia.
Qed.

Lemma ltb_asym (x y : JsNum) : ltb x y = true -> ltb y x = false.
Proof.
  destruct x, y; simpl; try discriminate; try reflexivity.
  rewrite Z.ltb_lt, Z.ltb_ge. lia.
Qed.

End NumFacts.

(** ** The search for the anchor of a hunk *)

Section FindSequenceStart.

Variable hay : list string.

Lemma skipn_cons_nth (n : nat) (l : list string) x r :
  skipn n l = x :: r -> nth_error l n = Some x /\ skipn (S n) l = r.
Proof.
  revert l. induction n as [|n IH]; intros [|y l] H; simpl in *; try discriminate.
  - inversion H; subst. split; reflexivity.
  - apply IH in H. destruct H as [H1 H2]. split; [exact H1|].
    destruct l; simpl in *; exact H2.
Qed.

Lemma skipn_nil_nth (n : nat) (l : list string) :
  skipn n l = [] -> nth_error l n = None.
Proof.
  revert l. induction n as [|n IH]; intros [|y l] H; simpl in *;
    try discriminate; try reflexivity.
  apply IH; exact H.
Qed.

Lemma getZ_nonneg (i : Z) :
  0 <= i -> Js.getZ hay i = nth_error hay (Z.to_nat i).
Proof.
  intros Hi. unfold Js.getZ. destruct (i <? 0) eqn:E; [|reflexivity].
  apply Z.ltb_lt in E. lia.
Qed.

Lemma getZ_neg (i : Z) : i < 0 -> Js.getZ hay i = None.
Proof.
  intros Hi. unfold Js.getZ. destruct (i <? 0) eqn:E; [reflexivity|].
  apply Z.ltb_ge in E. lia.
Qed.

Lemma seqMatchesAt_firstn (seq : list string) :
  forall i, 0 <= i ->
    (seqMatchesAt hay seq i = true <->
     firstn (List.length seq) (skipn (Z.to_nat i) hay) = seq).
Proof.
  induction seq as [|s seq IH]; intros i Hi; simpl.
  - split; reflexivity.
  - rewrite getZ_nonneg by exact Hi.
    destruct (skipn (Z.to_nat i) hay) as [|x r] eqn:Hsk.
    + rewrite (skipn_nil_nth _ _ Hsk). split; discriminate.
    + destruct (skipn_cons_nth _ _ _ _ Hsk) as [Hn Hr]. rewrite Hn.
      specialize (IH (i + 1) ltac:(lia)).
      replace (Z.to_nat (i + 1)) with (S (Z.to_nat i)) in IH by lia.
      rewrite Hr in IH. rewrite andb_true_iff, IH, String.eqb_eq.
      split.
      * intros [-> H2]. simpl. f_equal. exact H2.
      * simpl. intros H; inversion H. split; [reflexivity|]. congruence.
Qed.

Lemma seqMatchesAt_neg (seq : list string) (i : Z) :
  seq <> [] -> i < 0 -> seqMatchesAt hay seq i = false.
Proof.
  intros Hne Hi. destruct seq as [|s seq]; [congruence|].
  simpl. rewrite getZ_neg by exact Hi. reflexivity.
Qed.

Lemma sliceZ_firstn (i : Z) (n : nat) :
  0 <= i ->
  Js.sliceZ hay i (i + Z.of_nat n) = firstn n (skipn (Z.to_nat i) hay).
Proof.
  intros Hi. unfold Js.sliceZ. f_equal. lia.
Qed.

Lemma firstn_all_bound (n : nat) (l seq : list string) :
  firstn (List.length seq) l = seq -> (List.length seq <= List.length l)%nat.
Proof.
  intros H. apply (f_equal (@List.length string)) in H.
  rewrite length_firstn in H. lia.
Qed.

Lemma seqMatchesAt_runAt (seq : list string) (i : Z) :
  seq <> [] -> (seqMatchesAt hay seq i = true <-> runAt hay seq i).
Proof.
  intros Hne. unfold runAt, Js.lenZ. split.
  - intros H. destruct (Z.ltb_spec i 0) as [Hneg|Hpos].
    + rewrite seqMatchesAt_neg in H by assumption. discriminate.
    + apply seqMatchesAt_firstn in H; [|exact Hpos].
      split; [exact Hpos|]. split.
      * pose proof (firstn_all_bound 0%nat _ _ H) as Hb.
        rewrite length_skipn in Hb.
        destruct seq; [congruence|]. simpl in *. lia.
      * rewrite sliceZ_firstn by exact Hpos. exact H.
  - intros (Hpos & _ & H). apply seqMatchesAt_firstn; [exact Hpos|].
    rewrite sliceZ_firstn in H by exact Hpos. exact H.
Qed.

(** Once the loop has met a run at the distance zero, nothing that follows
    is nearer. *)
Lemma bestIn_zero (seq : list string) (pref : Num.JsNum) (lo hi hi' b : Z) d :
  bestIn hay seq pref lo hi (Some b) d ->
  Num.absDiff b pref = Num.Fin 0 -> hi <= hi' ->
  bestIn hay seq pref lo hi' (Some b) d.
Proof.
  intros (Hd & Hb & Hmb & Hfin & Hbest) Hz Hle.
  split; [exact Hd|]. split; [lia|]. split; [exact Hmb|]. split; [exact Hfin|].
  intros j Hj Hmj. destruct (Z.lt_ge_cases j hi) as [Hlt|Hge].
  - apply Hbest; [lia|exact Hmj].
  - split; [rewrite Hz; apply absDiff_not_below_zero|lia].
Qed.

(** The invariant of the scanning loop. *)
Lemma scanStarts_bestIn (seq : list string) (pref : Num.JsNum) (lo : Z) :
  forall fuel i best bestDist,
    lo <= i ->
    bestIn hay seq pref lo i best bestDist ->
    exists d,
      bestIn hay seq pref lo (i + Z.of_nat fuel)
             (scanStarts fuel hay seq pref i best bestDist) d.
Proof.
  induction fuel as [|fuel IH]; intros i best bestDist Hlo Hinv.
  - simpl. replace (i + Z.of_nat 0) with i by lia. exists bestDist. exact Hinv.
  - replace (i + Z.of_nat (S fuel)) with ((i + 1) + Z.of_nat fuel) by lia.
    simpl. destruct (seqMatchesAt hay seq i) eqn:Hm.
    + destruct (Num.ltb (Num.absDiff i pref) bestDist) eqn:Hlt.
      * assert (Hnew : bestIn hay seq pref lo (i + 1) (Some i) (Num.absDiff i pref)).
        { split; [reflexivity|]. split; [lia|]. split; [exact Hm|].
          destruct best as [b|]; simpl in Hinv.
          - destruct Hinv as (-> & Hb & _ & Hfin & Hbest).
            split; [eapply ltb_trans; eassumption|].
            intros j Hj Hmj. destruct (Z.eq_dec j i) as [->|Hne].
            + split; [apply ltb_irrefl|lia].
            + destruct (Hbest j ltac:(lia) Hmj) as [Hge _]. split.
              * apply ltb_asym. eapply ltb_le_trans; eassumption.
              * intros _. eapply ltb_le_trans; eassumption.
          - destruct Hinv as (-> & Hnone). split; [exact Hlt|].
            intros j Hj Hmj. destruct (Z.eq_dec j i) as [->|Hne].
            + split; [apply ltb_irrefl|lia].
            + specialize (Hnone j ltac:(lia) Hmj).
              apply absDiff_infinite in Hnone. rewrite Hnone. split.
              * apply ltb_asym. exact Hlt.
              * intros _. exact Hlt. }
        destruct (Num.isZero (Num.absDiff i pref)) eqn:Hz.
        -- apply isZero_spec in Hz. exists (Num.absDiff i pref).
           apply (bestIn_zero seq pref lo (i + 1)); [exact Hnew|exact Hz|lia].
        -- apply IH; [lia|exact Hnew].
      * apply IH; [lia|].
        destruct best as [b|]; simpl in Hinv.
        -- destruct Hinv as (-> & Hb & Hmb & Hfin & Hbest).
           split; [reflexivity|]. split; [lia|]. split; [exact Hmb|].
           split; [exact Hfin|].
           intros j Hj Hmj. destruct (Z.eq_dec j i) as [->|Hne].
           ++ split; [exact Hlt|lia].
           ++ apply Hbest; [lia|exact Hmj].
        -- destruct Hinv as (-> & Hnone). split; [reflexivity|].
           intros j Hj Hmj. destruct (Z.eq_dec j i) as [->|Hne]; [exact Hlt|].
           apply Hnone; [lia|exact Hmj].
    + apply IH; [lia|].
      destruct best as [b|]; simpl in *.
      * destruct Hinv as (Hd & Hb & Hmb & Hfin & Hbest).
        split; [exact Hd|]. split; [lia|]. split; [exact Hmb|]. split; [exact Hfin|].
        intros j Hj Hmj. destruct (Z.eq_dec j i) as [->|Hne]; [congruence|].
        apply Hbest; [lia|exact Hmj].
      * destruct Hinv as (Hd & Hnone). split; [exact Hd|].
        intros j Hj Hmj. destruct (Z.eq_dec j i) as [->|Hne]; [congruence|].
        apply Hnone; [lia|exact Hmj].
Qed.

Lemma runAt_nil (i : Z) : runAt hay [] i <-> 0 <= i <= Js.lenZ hay.
Proof.
  unfold runAt, Js.lenZ, Js.sliceZ. simpl. split.
  - intros (H1 & H2 & _). lia.
  - intros [H1 H2]. repeat split; try lia.
    replace (Z.to_nat (i + Z.of_nat 0) - Z.to_nat i)%nat with 0%nat by lia.
    reflexivity.
Qed.

Lemma clamp_bounds (lo len : Z) (x : Num.JsNum) :
  lo <= len -> lo <= Num.clamp lo len x <= len.
Proof. intros H. destruct x; simpl; lia. Qed.

(** What the whole scan of [findSequenceStart] establishes. *)
Lemma findSequenceStart_scan (seq : list string) (minIndex : Z) (pref : Num.JsNum) :
  seq <> [] -> 0 <= minIndex ->
  match findSequenceStart hay seq minIndex pref with
  | Some i => nearestRun hay seq minIndex pref i
  | None =>
      forall j, minIndex <= j -> runAt hay seq j -> Num.absDiff j pref = Num.PosInf
  end.
Proof.
  intros Hne Hmin. unfold findSequenceStart.
  destruct seq as [|s seq'] eqn:Hseq; [congruence|].
  rewrite <- Hseq in Hne |- *. clear Hseq.
  destruct (minIndex >? Js.lenZ hay - Js.lenZ seq) eqn:Hgt.
  - intros j Hj (_ & Hb & _). apply Z.gtb_lt in Hgt. lia.
  - assert (Hle : minIndex <= Js.lenZ hay - Js.lenZ seq).
    { destruct (Z.gtb_spec minIndex (Js.lenZ hay - Js.lenZ seq)); [discriminate|lia]. }
    destruct (scanStarts_bestIn seq pref minIndex
                (Z.to_nat (Js.lenZ hay - Js.lenZ seq - minIndex + 1))
                minIndex None Num.PosInf ltac:(lia)) as (d & Hscan).
    { split; [reflexivity|]. intros j Hj. lia. }
    rewrite Z2Nat.id in Hscan by lia.
    destruct (scanStarts _ hay seq pref minIndex None Num.PosInf) as [b|];
      simpl in Hscan.
    + destruct Hscan as (_ & Hb & Hmb & Hfin & Hbest).
      split; [apply seqMatchesAt_runAt; assumption|]. split; [lia|].
      split; [exact Hfin|].
      intros j Hj Hlo. apply Hbest.
      * destruct Hj as (_ & Hjb & _). lia.
      * apply seqMatchesAt_runAt; assumption.
    + destruct Hscan as (_ & Hnone).
      intros j Hj Hrun. pose proof Hrun as (_ & Hjb & _).
      apply absDiff_infinite. apply Hnone; [lia|].
      apply seqMatchesAt_runAt; assumption.
Qed.

(** The index that [findSequenceStart] returns is never below [minIndex]. *)
Lemma findSequenceStart_ge (seq : list string) (minIndex : Z) (pref : Num.JsNum) (i : Z) :
  findSequenceStart hay seq minIndex pref = Some i -> minIndex <= i.
Proof.
  unfold findSequenceStart. destruct seq as [|s seq'] eqn:Hseq.
  - intros H; inversion H. destruct pref; simpl; lia.
  - rewrite <- Hseq.
    destruct (minIndex >? Js.lenZ hay - Js.lenZ seq) eqn:Hgt; [discriminate|].
    intros H.
    destruct (scanStarts_bestIn seq pref minIndex
                (Z.to_nat (Js.lenZ hay - Js.lenZ seq - minIndex + 1))
                minIndex None Num.PosInf ltac:(lia)) as (d & Hscan).
    { split; [reflexivity|]. intros j Hj. lia. }
    rewrite H in Hscan. simpl in Hscan. lia.
Qed.

End FindSequenceStart.

(** ** The applier, hunk by hunk *)

Section Applier.

Variable a : list string.

(** Once the old lines of a hunk are known to sit at the cursor, the walk
    over the hunk cannot fail: the comparisons it makes were made by the
    search already. *)
Lemma applyHunkLines_matched (hls : list UnifiedDiffHunkLine) :
  forall out ai,
    seqMatchesAt a (oldTexts hls) ai = true ->
    applyHunkLines a hls out ai
    = Ok (out ++ newTexts hls, ai + Js.lenZ (oldTexts hls)).
Proof.
  induction hls as [|[k t] hls IH]; intros out ai Hm.
  - simpl. rewrite app_nil_r. f_equal. f_equal. unfold Js.lenZ. simpl. lia.
  - destruct k; unfold oldTexts, newTexts in *; simpl in *.
    + destruct (Js.getZ a ai) as [x|]; [|discriminate].
      apply andb_true_iff in Hm. destruct Hm as [Hx Hm]. simpl. rewrite Hx.
      rewrite IH by exact Hm. rewrite <- app_assoc. simpl.
      f_equal. f_equal. unfold Js.lenZ. simpl. lia.
    + rewrite IH by exact Hm. rewrite <- app_assoc. reflexivity.
    + destruct (Js.getZ a ai) as [x|]; [|discriminate].
      apply andb_true_iff in Hm. destruct Hm as [Hx Hm]. simpl. rewrite Hx.
      rewrite IH by exact Hm. f_equal. f_equal. unfold Js.lenZ. simpl. lia.
Qed.

Lemma runAt_matches (seq : list string) (i : Z) :
  runAt a seq i -> seqMatchesAt a seq i = true.
Proof.
  intros H. destruct seq as [|s seq]; [reflexivity|].
  apply seqMatchesAt_runAt; [discriminate|exact H].
Qed.

(** An anchor is the start of a run at or after the cursor. *)
Lemma anchorOf_run (h : UnifiedDiffHunk) (cur i : Z) :
  0 <= cur <= Js.lenZ a ->
  anchorOf a h cur i -> runAt a (oldSeqOf h) i /\ cur <= i.
Proof.
  intros Hc. unfold anchorOf. destruct (oldSeqOf h) as [|s seq].
  - intros ->. pose proof (clamp_bounds cur (Js.lenZ a) (preferredIdxOf h) ltac:(lia)).
    split; [apply runAt_nil|]; lia.
  - intros (Hrun & Hlo & _). split; assumption.
Qed.

(** There is at most one anchor. *)
Lemma anchorOf_unique (h : UnifiedDiffHunk) (cur i i' : Z) :
  anchorOf a h cur i -> anchorOf a h cur i' -> i = i'.
Proof.
  unfold anchorOf. destruct (oldSeqOf h) as [|s seq]; [congruence|].
  intros (Hrun & Hlo & _ & Hbest) (Hrun' & Hlo' & _ & Hbest').
  destruct (Hbest i' Hrun' Hlo') as [_ H1].
  destruct (Hbest' i Hrun Hlo) as [H2 H3].
  destruct (Z.lt_trichotomy i i') as [Hlt|[Heq|Hgt]]; [|exact Heq|].
  - specialize (H3 Hlt). destruct (Hbest i' Hrun' Hlo') as [H4 _]. congruence.
  - specialize (H1 Hgt). congruence.
Qed.

(** One round of the applier from a cursor inside the base. *)
Lemma applyHunk_spec (out : list string) (ai : Z) (h : UnifiedDiffHunk) :
  0 <= ai <= Js.lenZ a ->
  match applyHunk a (out, ai) h with
  | Ok (out', ai') =>
      exists i,
        (runAt a (oldSeqOf h) i /\ ai <= i /\ anchorOf a h ai i) /\
        out' = out ++ Js.sliceZ a ai i ++ newSeqOf h /\
        ai' = i + Js.lenZ (oldSeqOf h)
  | Err e =>
      e = LocateFailed (Num.addZ (preferredIdxOf h) 1) /\
      unlocatable a h ai
  end.
Proof.
  intros Hai. unfold applyHunk.
  assert (Hfound : forall i,
            anchorOf a h ai i ->
            (if i <? ai then Err Overlap
             else applyHunkLines a (hunk_lines h) (out ++ Js.sliceZ a ai i) i)
            = Ok (out ++ Js.sliceZ a ai i ++ newSeqOf h, i + Js.lenZ (oldSeqOf h))).
  { intros i Hanc. destruct (anchorOf_run h ai i Hai Hanc) as [Hrun Hle].
    destruct (Z.ltb_spec i ai) as [Hlt|_]; [lia|].
    rewrite applyHunkLines_matched by (apply runAt_matches; exact Hrun).
    rewrite <- app_assoc. reflexivity. }
  unfold anchorOf, unlocatable in *.
  destruct (oldSeqOf h) as [|s seq] eqn:Hseq.
  - cbn [findSequenceStart]. rewrite (Hfound _ eq_refl).
    eexists. split; [|split; reflexivity].
    pose proof (clamp_bounds ai (Js.lenZ a) (preferredIdxOf h) ltac:(lia)).
    split; [apply runAt_nil; lia|]. split; [lia|reflexivity].
  - pose proof (findSequenceStart_scan a (s :: seq) ai (preferredIdxOf h)
                  ltac:(discriminate) ltac:(lia)) as Hscan.
    destruct (findSequenceStart a (s :: seq) ai (preferredIdxOf h)) as [i|].
    + rewrite (Hfound i Hscan). exists i. split; [|split; reflexivity].
      destruct Hscan as (Hrun & Hlo & Hrest). split; [exact Hrun|].
      split; [exact Hlo|]. split; [exact Hrun|]. split; [exact Hlo|exact Hrest].
    + split; [reflexivity|]. split; [discriminate|exact Hscan].
Qed.

Lemma applyHunk_cursor (out : list string) (ai : Z) (h : UnifiedDiffHunk) out' ai' :
  0 <= ai <= Js.lenZ a ->
  applyHunk a (out, ai) h = Ok (out', ai') -> 0 <= ai' <= Js.lenZ a /\ ai <= ai'.
Proof.
  intros Hai H. pose proof (applyHunk_spec out ai h Hai) as Hs.
  rewrite H in Hs. destruct Hs as (i & ((Hi0 & Hib & _) & Hlo & _) & _ & ->).
  unfold Js.lenZ in *. lia.
Qed.

(** A hunk is applied at its anchor. *)
Lemma applyHunk_anchored (out : list string) (ai i : Z) (h : UnifiedDiffHunk) :
  0 <= ai <= Js.lenZ a ->
  anchorOf a h ai i ->
  applyHunk a (out, ai) h
  = Ok (out ++ Js.sliceZ a ai i ++ newSeqOf h, i + Js.lenZ (oldSeqOf h)).
Proof.
  intros Hai Hanc. pose proof (applyHunk_spec out ai h Hai) as Hs.
  destruct (applyHunk a (out, ai) h) as [[out' ai']|e].
  - destruct Hs as (i' & (_ & _ & Hanc') & -> & ->).
    rewrite (anchorOf_unique h ai i i' Hanc Hanc'). reflexivity.
  - destruct Hs as (_ & Hne & Hno). exfalso.
    unfold anchorOf in Hanc. destruct (oldSeqOf h) as [|s seq]; [congruence|].
    destruct Hanc as (Hrun & Hlo & Hfin & _).
    rewrite (Hno i Hlo Hrun) in Hfin. discriminate.
Qed.

(** A hunk that cannot be located stops the applier. *)
Lemma applyHunk_unlocatable (out : list string) (ai : Z) (h : UnifiedDiffHunk) :
  0 <= ai <= Js.lenZ a ->
  unlocatable a h ai ->
  applyHunk a (out, ai) h = Err (LocateFailed (Num.addZ (preferredIdxOf h) 1)).
Proof.
  intros Hai (Hne & Hno). pose proof (applyHunk_spec out ai h Hai) as Hs.
  destruct (applyHunk a (out, ai) h) as [[out' ai']|e].
  - destruct Hs as (i & (Hrun & Hlo & Hanc) & _). exfalso.
    unfold anchorOf in Hanc. destruct (oldSeqOf h) as [|s seq]; [congruence|].
    destruct Hanc as (_ & _ & Hfin & _).
    rewrite (Hno i Hlo Hrun) in Hfin. discriminate.
  - destruct Hs as [-> _]. reflexivity.
Qed.

(** The loop over the hunks: it anchors them one after the other and
    assembles the result, or stops at the first hunk that cannot be
    located. *)
Lemma applyHunks_spec (hunks : list UnifiedDiffHunk) :
  forall out ai,
    0 <= ai <= Js.lenZ a ->
    match applyHunks a hunks (out, ai) with
    | Ok (out', ai') =>
        exists anchors,
          anchoring (anchorOf a) hunks ai anchors ai' /\
          out' ++ Js.sliceFromZ a ai' = out ++ assemble a hunks anchors ai /\
          0 <= ai' <= Js.lenZ a
    | Err e =>
        exists pre h post anchors cur,
          hunks = pre ++ h :: post /\
          anchoring (anchorOf a) pre ai anchors cur /\
          0 <= cur <= Js.lenZ a /\
          unlocatable a h cur /\
          e = LocateFailed (Num.addZ (preferredIdxOf h) 1)
    end.
Proof.
  induction hunks as [|h hunks IH]; intros out ai Hai; cbn [applyHunks].
  - exists []. split; [reflexivity|]. split; [reflexivity|exact Hai].
  - pose proof (applyHunk_spec out ai h Hai) as Hs.
    destruct (applyHunk a (out, ai) h) as [[out1 ai1]|e] eqn:Hh; cbn [rbind].
    + destruct (applyHunk_cursor _ _ _ _ _ Hai Hh) as [Hai1 _].
      destruct Hs as (i & (_ & _ & Hanc) & -> & ->).
      specialize (IH (out ++ Js.sliceZ a ai i ++ newSeqOf h)
                     (i + Js.lenZ (oldSeqOf h)) Hai1).
      destruct (applyHunks a hunks _) as [[out' ai']|e'].
      * destruct IH as (anchors & Hanch & Hout & Hb).
        exists (i :: anchors). split; [split; assumption|].
        split; [|exact Hb]. rewrite Hout. cbn [assemble].
        rewrite <- !app_assoc. reflexivity.
      * destruct IH as (pre & h' & post & anchors & cur & -> & Hanch & Hc & Hun & ->).
        exists (h :: pre), h', post, (i :: anchors), cur.
        split; [reflexivity|]. split; [split; assumption|]. auto.
    + destruct Hs as [-> Hun]. exists [], h, hunks, [], ai.
      split; [reflexivity|]. split; [reflexivity|]. auto.
Qed.

(** Hunks that can be anchored one after the other are applied. *)
Lemma applyHunks_anchored (hunks : list UnifiedDiffHunk) :
  forall out ai anchors cur,
    0 <= ai <= Js.lenZ a ->
    anchoring (anchorOf a) hunks ai anchors cur ->
    exists out',
      applyHunks a hunks (out, ai) = Ok (out', cur) /\
      out' ++ Js.sliceFromZ a cur = out ++ assemble a hunks anchors ai /\
      0 <= cur <= Js.lenZ a.
Proof.
  induction hunks as [|h hunks IH]; intros out ai anchors cur Hai Hanch;
    destruct anchors as [|i anchors]; cbn [anchoring] in Hanch; try contradiction.
  - subst cur. exists out. split; [reflexivity|]. split; [reflexivity|exact Hai].
  - destruct Hanch as [Hanc Hrest]. cbn [applyHunks].
    pose proof (applyHunk_anchored out ai i h Hai Hanc) as Hh. rewrite Hh.
    destruct (applyHunk_cursor _ _ _ _ _ Hai Hh) as [Hai1 _]. cbn [rbind].
    destruct (IH (out ++ Js.sliceZ a ai i ++ newSeqOf h) _ _ _ Hai1 Hrest)
      as (out' & Ha & Hout & Hb).
    exists out'. split; [exact Ha|]. split; [|exact Hb].
    rewrite Hout. cbn [assemble]. rewrite <- !app_assoc. reflexivity.
Qed.

(** The loop over the hunks fails only where a hunk cannot be located. *)
Lemma applyHunks_errors (hunks : list UnifiedDiffHunk) :
  forall out ai e,
    0 <= ai <= Js.lenZ a ->
    applyHunks a hunks (out, ai) = Err e ->
    exists h cur,
      In h hunks /\ 0 <= cur /\
      e = LocateFailed (Num.addZ (preferredIdxOf h) 1) /\
      unlocatable a h cur.
Proof.
  intros out ai e Hai H. pose proof (applyHunks_spec hunks out ai Hai) as Hs.
  rewrite H in Hs.
  destruct Hs as (pre & h & post & anchors & cur & -> & _ & Hc & Hun & ->).
  exists h, cur. split; [apply in_or_app; right; left; reflexivity|].
  split; [lia|]. split; [reflexivity|exact Hun].
Qed.

End Applier.

Lemma applyUnifiedDiff_errors (before patchText : string) (e : PatchError) :
  applyUnifiedDiff before patchText = Err e ->
  e = NoHunks \/
  exists h cur,
    In h (parseUnifiedDiff patchText) /\ 0 <= cur /\
    e = LocateFailed (Num.addZ (preferredIdxOf h) 1) /\
    unlocatable (splitLines before) h cur.
Proof.
  unfold applyUnifiedDiff. intros H.
  destruct (parseUnifiedDiff patchText) as [|h0 hs] eqn:Hp.
  - left. congruence.
  - right.
    destruct (applyHunks (splitLines before) (h0 :: hs) ([], 0)) as [[out ai]|e'] eqn:Ha;
      simpl in H; [discriminate|].
    inversion H; subst e'.
    eapply applyHunks_errors; [|exact Ha]. unfold Js.lenZ. lia.
Qed.

(** ** Anchors in exact arithmetic *)

Section ExactAnchors.
Import Num.




Variable a : list string.
Hypothesis a_short : Js.lenZ a <= 2 ^ 53.





End ExactAnchors.

Lemma applyHunks_app (a : list string) (pre rest : list UnifiedDiffHunk) :
  forall st,
    applyHunks a (pre ++ rest) st = do st' <- applyHunks a pre st; applyHunks a rest st'.
Proof.
  induction pre as [|h pre IH]; intros st; cbn [app applyHunks]; [reflexivity|].
  destruct (applyHunk a st h) as [st1|e]; cbn [rbind]; [apply IH|reflexivity].
Qed.

Lemma lenZ_nonneg {A} (l : list A) : 0 <= Js.lenZ l.
Proof. unfold Js.lenZ. lia. Qed.

(** The applier as a whole, in the arithmetic of the runtime. *)
Lemma applyUnifiedDiff_spec (before patchText : string) :
  parseUnifiedDiff patchText <> [] ->
  match applyUnifiedDiff before patchText with
  | Ok text =>
      exists anchors cur,
        anchoring (anchorOf (splitLines before)) (parseUnifiedDiff patchText)
                  0 anchors cur /\
        text = textOf (assemble (splitLines before) (parseUnifiedDiff patchText)
                                anchors 0)
  | Err e =>
      exists pre h post anchors cur,
        parseUnifiedDiff patchText = pre ++ h :: post /\
        anchoring (anchorOf (splitLines before)) pre 0 anchors cur /\
        unlocatable (splitLines before) h cur /\
        e = LocateFailed (Num.addZ (preferredIdxOf h) 1)
  end.
Proof.
  intros Hne. unfold applyUnifiedDiff.
  destruct (parseUnifiedDiff patchText) as [|h0 hs] eqn:Hp; [congruence|].
  pose proof (applyHunks_spec (splitLines before) (h0 :: hs) [] 0
                ltac:(pose proof (lenZ_nonneg (splitLines before)); lia)) as Hs.
  destruct (applyHunks (splitLines before) (h0 :: hs) ([], 0)) as [[out ai]|e];
    cbn [rbind].
  - destruct Hs as (anchors & Hanch & Hout & _).
    exists anchors, ai. split; [exact Hanch|]. unfold textOf. f_equal. exact Hout.
  - destruct Hs as (pre & h & post & anchors & cur & E & Hanch & _ & Hun & ->).
    exists pre, h, post, anchors, cur. auto.
Qed.

(** *** Claims about the applier *)




(** C5 (patch mismatch detection), as the code has it.  The applier never
    reports a context or delete mismatch: a hunk is anchored only where all
    its context and deleted lines equal the base, so the comparison made
    while walking the hunk cannot fail.  It fails, apart from a patch
    without hunks, exactly when the hunks before some hunk can be anchored
    and that hunk cannot be located from the cursor they leave: it has
    context or deleted lines, and none of their runs at or after the cursor
    lies at a finite distance from the preferred index.  That is so when
    there is no such run, and also when the declared start is read as
    Infinity.  The answer is the message that the hunk context could not be
    located, with the preferred line number as the runtime prints it and
    with neither the expected nor the actual line; no text is produced. *)
Theorem patch_mismatch_fails_closed (before patchText : string) :
  (forall msg, applyUnifiedDiffToText before patchText = Err msg ->
     msg = "Patch has no hunks" \/
     exists pre h post anchors cur,
       parseUnifiedDiff patchText = pre ++ h :: post /\
       anchoring (anchorOf (splitLines before)) pre 0 anchors cur /\
       unlocatable (splitLines before) h cur /\
       msg = locateMessage h)
  /\
  (forall pre h post anchors cur,
     parseUnifiedDiff patchText = pre ++ h :: post ->
     anchoring (anchorOf (splitLines before)) pre 0 anchors cur ->
     unlocatable (splitLines before) h cur ->
     applyUnifiedDiffToText before patchText = Err (locateMessage h))
  /\
  (forall h cur,
     oldSeqOf h <> [] ->
     oldStart h = Num.PosInf \/
     (forall j, cur <= j -> ~ runAt (splitLines before) (oldSeqOf h) j) ->
     unlocatable (splitLines before) h cur)
  /\
  applyUnifiedDiffToText "a" (textOf ["@@ -1" +:+ Num.zeros 309 +:+ " +1 @@"; " a"])
  = Err "Failed to locate hunk context in file (starting near line Infinity).".
Proof.
  assert (H0 : 0 <= 0 <= Js.lenZ (splitLines before))
    by (pose proof (lenZ_nonneg (splitLines before)); lia).
  split; [|split; [|split; [|vm_compute; reflexivity]]].
  - intros msg H. unfold applyUnifiedDiffToText in H.
    destruct (parseUnifiedDiff patchText) as [|h0 hs] eqn:Hp.
    + left. unfold applyUnifiedDiff in H. rewrite Hp in H.
      inversion H. reflexivity.
    + right.
      pose proof (applyUnifiedDiff_spec before patchText
                    ltac:(rewrite Hp; discriminate)) as Hs.
      destruct (applyUnifiedDiff before patchText) as [t|e]; [discriminate|].
      destruct Hs as (pre & h & post & anchors & cur & E & Hanch & Hun & ->).
      inversion H; subst msg. rewrite <- Hp.
      exists pre, h, post, anchors, cur. auto.
  - intros pre h post anchors cur E Hanch Hun.
    unfold applyUnifiedDiffToText, applyUnifiedDiff. rewrite E.
    destruct (applyHunks_anchored _ _ [] 0 _ _ H0 Hanch) as (out1 & Hpre & _ & Hc).
    destruct (pre ++ h :: post) as [|h0 hs] eqn:Hl;
      [destruct pre; discriminate|].
    rewrite <- Hl, applyHunks_app, Hpre. cbn [rbind applyHunks].
    rewrite (applyHunk_unlocatable _ out1 cur h Hc Hun). reflexivity.
  - intros h cur Hne Hor. split; [exact Hne|]. intros j Hj Hrun.
    destruct Hor as [Hinf|Hno]; [|exfalso; exact (Hno j Hj Hrun)].
    unfold preferredIdxOf. rewrite Hinf. reflexivity.
Qed.

Lemma patch_mismatch_fails_closed_witness :
  parseUnifiedDiff (textOf ["@@ -1 +1 @@"; "-a"; "+x"; "@@ -3 +3 @@"; " Q"])
  = [mkHunk (Num.Fin 1) (Num.Fin 1) (Num.Fin 1) (Num.Fin 1)
            [mkHunkLine del "a"; mkHunkLine add "x"]]
    ++ mkHunk (Num.Fin 3) (Num.Fin 1) (Num.Fin 3) (Num.Fin 1) [mkHunkLine ctx "Q"]
    :: [] /\
  applyUnifiedDiffToText (textOf ["a"; "b"; "c"])
    (textOf ["@@ -1 +1 @@"; "-a"; "+x"; "@@ -3 +3 @@"; " Q"])
  = Err "Failed to locate hunk context in file (starting near line 3).".
Proof.
  split; [vm_compute; reflexivity|].
  pose proof (applyHunks_spec (splitLines (textOf ["a"; "b"; "c"]))
                [mkHunk (Num.Fin 1) (Num.Fin 1) (Num.Fin 1) (Num.Fin 1)
                        [mkHunkLine del "a"; mkHunkLine add "x"]]
                [] 0 ltac:(vm_compute; split; discriminate)) as Hs.
  assert (E : applyHunks (splitLines (textOf ["a"; "b"; "c"]))
                [mkHunk (Num.Fin 1) (Num.Fin 1) (Num.Fin 1) (Num.Fin 1)
                        [mkHunkLine del "a"; mkHunkLine add "x"]] ([], 0)
              = Ok (["x"], 1)) by (vm_compute; reflexivity).
  rewrite E in Hs. destruct Hs as (anchors & Hanch & _).
  refine (proj1 (proj2 (patch_mismatch_fails_closed (textOf ["a"; "b"; "c"])
            (textOf ["@@ -1 +1 @@"; "-a"; "+x"; "@@ -3 +3 @@"; " Q"])))
            [mkHunk (Num.Fin 1) (Num.Fin 1) (Num.Fin 1) (Num.Fin 1)
                    [mkHunkLine del "a"; mkHunkLine add "x"]]
            (mkHunk (Num.Fin 3) (Num.Fin 1) (Num.Fin 3) (Num.Fin 1) [mkHunkLine ctx "Q"])
            [] anchors 1 _ Hanch _).
  - vm_compute; reflexivity.
  - split; [discriminate|]. intros j Hj (_ & Hb & Hrun). exfalso.
    change (Js.lenZ (oldSeqOf (mkHunk (Num.Fin 3) (Num.Fin 1) (Num.Fin 3) (Num.Fin 1)
                                      [mkHunkLine ctx "Q"]))) with 1 in *.
    change (Js.lenZ (splitLines (textOf ["a"; "b"; "c"]))) with 3 in Hb.
    assert (Hc : j = 1 \/ j = 2) by lia.
    destruct Hc as [->| ->]; vm_compute in Hrun; discriminate.
Defined.

(** C5 as it is claimed fails: the context line Q of the hunk differs from
    line 1 of the base, Z, and the error that comes back names neither. *)
Lemma patch_mismatch_counterexample :
  applyUnifiedDiffToText (textOf ["Z"; "b"]) (textOf ["@@ -1 +1 @@"; " Q"])
  = Err "Failed to locate hunk context in file (starting near line 1)." /\
  Js.getZ (splitLines (textOf ["Z"; "b"])) 0 = Some "Z" /\
  Js.includes "Q" "Failed to locate hunk context in file (starting near line 1)." = false /\
  Js.includes "Z" "Failed to locate hunk context in file (starting near line 1)." = false.
Proof. repeat split; vm_compute; reflexivity. Qed.

(** C10.  The applier never answers that a hunk overlaps the previous one:
    the index that [findSequenceStart] returns is at or after its
    [minIndex], the cursor left by the previous hunk, so the guard
    [foundIdx < ai] is never taken. *)
Theorem overlap_error_unreachable (before patchText : string) :
  match applyUnifiedDiffToText before patchText with
  | Ok _ => True
  | Err msg => String.eqb msg "Patch hunk overlaps previous hunk" = false
  end
  /\ applyUnifiedDiff before patchText <> Err Overlap
  /\ forall hay seq minIndex preferredIndex,
       match findSequenceStart hay seq minIndex preferredIndex with
       | Some foundIdx => (foundIdx <? minIndex) = false
       | None => True
       end.
Proof.
  assert (Hno : applyUnifiedDiff before patchText <> Err Overlap).
  { intros H. apply applyUnifiedDiff_errors in H.
    destruct H as [H|(h & cur & _ & _ & H & _)]; discriminate. }
  split; [|split; [exact Hno|]].
  - unfold applyUnifiedDiffToText.
    destruct (applyUnifiedDiff before patchText) as [t|e] eqn:Ha; [exact I|].
    apply applyUnifiedDiff_errors in Ha.
    destruct Ha as [->|(h & cur & _ & _ & -> & _)]; reflexivity.
  - intros hay seq minIndex pref.
    destruct (findSequenceStart hay seq minIndex pref) as [i|] eqn:Hf; [|exact I].
    apply findSequenceStart_ge in Hf. apply Z.ltb_ge. exact Hf.
Qed.

(** ** The string primitives *)

Module JsFacts.
Import Js.

Lemma hasChar_app c s t : hasChar c (s +:+ t) = hasChar c s || hasChar c t.
Proof.
  induction s as [|a s IH]; simpl; [reflexivity|].
  rewrite IH, orb_assoc. reflexivity.
Qed.

Lemma allChars_hasChar p c s :
  p c = false -> allChars p s = true -> hasChar c s = false.
Proof.
  intros Hp. induction s as [|a s IH]; simpl; [reflexivity|].
  intros H. apply andb_true_iff in H. destruct H as [Ha Hs].
  rewrite (IH Hs), orb_false_r.
  destruct (Ascii.eqb_spec a c) as [->|]; [congruence|reflexivity].
Qed.

Lemma replaceCRLF_id s : hasChar CR s = false -> replaceCRLF s = s.
Proof.
  induction s as [|a s IH]; [reflexivity|].
  intros H. simpl in H. apply orb_false_iff in H. destruct H as [Ha Hs].
  specialize (IH Hs). destruct s as [|b s']; [reflexivity|].
  change (replaceCRLF (String a (String b s')))
    with (if Ascii.eqb a CR && Ascii.eqb b LF
          then String LF (replaceCRLF s')
          else String a (replaceCRLF (String b s'))).
  rewrite Ha. simpl andb. cbv iota. rewrite IH. reflexivity.
Qed.

Lemma splitChar_nonempty c s : splitChar c s <> [].
Proof.
  destruct s as [|a s]; simpl; [discriminate|].
  destruct (Ascii.eqb a c); [discriminate|].
  destruct (splitChar c s); discriminate.
Qed.

Lemma join_cons sep x y ys :
  join sep (x :: y :: ys) = x +:+ sep +:+ join sep (y :: ys).
Proof. reflexivity. Qed.

Lemma join_splitChar c s : join (str1 c) (splitChar c s) = s.
Proof.
  induction s as [|a s IH]; [reflexivity|].
  simpl. destruct (Ascii.eqb_spec a c) as [->|Hne].
  - pose proof (splitChar_nonempty c s) as Hn.
    destruct (splitChar c s) as [|h t]; [congruence|].
    rewrite join_cons, IH. reflexivity.
  - pose proof (splitChar_nonempty c s) as Hn.
    destruct (splitChar c s) as [|h t]; [congruence|].
    destruct t as [|h' t'].
    + simpl in *. f_equal. exact IH.
    + rewrite join_cons in *. rewrite <- IH. reflexivity.
Qed.

Lemma splitChar_app_sep c x s :
  hasChar c x = false ->
  splitChar c (x +:+ String c s) = x :: splitChar c s.
Proof.
  induction x as [|a x IH]; simpl; intros H.
  - rewrite Ascii.eqb_refl. reflexivity.
  - apply orb_false_iff in H. destruct H as [Ha Hx].
    rewrite Ha, (IH Hx). reflexivity.
Qed.

Lemma splitChar_single c x : hasChar c x = false -> splitChar c x = [x].
Proof.
  induction x as [|a x IH]; simpl; intros H; [reflexivity|].
  apply orb_false_iff in H. destruct H as [Ha Hx].
  rewrite Ha, (IH Hx). reflexivity.
Qed.

Lemma splitChar_join c ls :
  ls <> [] -> Forall (fun l => hasChar c l = false) ls ->
  splitChar c (join (str1 c) ls) = ls.
Proof.
  induction ls as [|x ls IH]; intros Hne Hall; [congruence|].
  inversion Hall as [|? ? Hx Hls]; subst.
  destruct ls as [|y ls].
  - simpl. apply splitChar_single; exact Hx.
  - rewrite join_cons.
    change (x +:+ str1 c +:+ join (str1 c) (y :: ls))
      with (x +:+ String c (join (str1 c) (y :: ls))).
    rewrite splitChar_app_sep by exact Hx.
    f_equal. apply IH; [discriminate|exact Hls].
Qed.

Lemma splitChar_pieces c s :
  Forall (fun l => hasChar c l = false) (splitChar c s).
Proof.
  induction s as [|a s IH]; simpl.
  - constructor; [reflexivity|constructor].
  - destruct (Ascii.eqb a c) eqn:Ha.
    + constructor; [reflexivity|exact IH].
    + destruct (splitChar c s) as [|h t].
      * constructor; [simpl; rewrite Ha; reflexivity|constructor].
      * inversion IH; subst. constructor; [simpl; rewrite Ha; assumption|assumption].
Qed.

Lemma splitChar_keeps_free c d s :
  hasChar d s = false ->
  Forall (fun l => hasChar d l = false) (splitChar c s).
Proof.
  induction s as [|a s IH]; simpl; intros H.
  - constructor; [reflexivity|constructor].
  - apply orb_false_iff in H. destruct H as [Ha Hs]. specialize (IH Hs).
    destruct (Ascii.eqb a c).
    + constructor; [reflexivity|exact IH].
    + destruct (splitChar c s) as [|h t].
      * constructor; [simpl; rewrite Ha; reflexivity|constructor].
      * inversion IH; subst. constructor; [simpl; rewrite Ha; assumption|assumption].
Qed.

Lemma join_free d sep ls :
  hasChar d sep = false ->
  Forall (fun l => hasChar d l = false) ls ->
  hasChar d (join sep ls) = false.
Proof.
  intros Hsep. induction ls as [|x ls IH]; intros Hall; [reflexivity|].
  inversion Hall as [|? ? Hx Hls]; subst.
  destruct ls as [|y ls]; [exact Hx|].
  rewrite join_cons, !hasChar_app, Hx, Hsep, (IH Hls). reflexivity.
Qed.

Lemma span_app p d r :
  allChars p d = true ->
  match r with String a _ => p a = false | EmptyString => True end ->
  span p (d +:+ r) = (d, r).
Proof.
  intros Hd Hr. induction d as [|a d IH]; simpl in *.
  - destruct r as [|b r]; [reflexivity|]. simpl. rewrite Hr. reflexivity.
  - apply andb_true_iff in Hd. destruct Hd as [Ha Hd].
    rewrite Ha, (IH Hd). reflexivity.
Qed.

End JsFacts.

(** ** Round trip with a line differ *)

Section RoundTrip.
Import Js JsFacts.

Lemma app_assoc_string (s t u : string) : (s +:+ t) +:+ u = s +:+ (t +:+ u).
Proof.
  induction s as [|c s IH]; [reflexivity|].
  change (String c ((s +:+ t) +:+ u) = String c (s +:+ (t +:+ u))).
  f_equal. exact IH.
Qed.

Lemma splitLines_textOf (ls : list string) :
  ls <> [] -> Forall noBreak ls -> splitLines (textOf ls) = ls.
Proof.
  intros Hne Hall. unfold splitLines, textOf.
  rewrite replaceCRLF_id.
  - apply splitChar_join; [exact Hne|].
    eapply Forall_impl; [exact Hall|]. intros l [H _]. exact H.
  - apply join_free; [reflexivity|].
    eapply Forall_impl; [exact Hall|]. intros l [_ H]. exact H.
Qed.

(** The lines of a text without carriage returns have no line break. *)
Lemma splitLines_noBreak (T : string) :
  hasChar CR T = false -> Forall noBreak (splitLines T).
Proof.
  intros H. unfold splitLines. rewrite replaceCRLF_id by exact H.
  pose proof (splitChar_pieces LF T) as H1.
  pose proof (splitChar_keeps_free LF CR T H) as H2.
  induction (splitChar LF T) as [|l ls IH]; [constructor|].
  inversion H1; inversion H2; subst. constructor; [split; assumption|auto].
Qed.

Lemma noBreakb_spec (l : string) : noBreakb l = true <-> noBreak l.
Proof.
  unfold noBreakb, noBreak. rewrite andb_true_iff, !negb_true_iff. reflexivity.
Qed.

Lemma noBreak_app (s t : string) : noBreak s -> noBreak t -> noBreak (s +:+ t).
Proof.
  intros [H1 H2] [H3 H4]. split; rewrite hasChar_app; [rewrite H1, H3|rewrite H2, H4];
    reflexivity.
Qed.

Lemma digits_spec (s : string) :
  digits s = true -> s <> EmptyString /\ allChars isDigit s = true.
Proof.
  unfold digits. intros H. apply andb_true_iff in H. destruct H as [H1 H2].
  split; [destruct s; [discriminate|discriminate]|exact H2].
Qed.

Lemma digits_noBreak (s : string) : digits s = true -> noBreak s.
Proof.
  intros H. apply digits_spec in H. destruct H as [_ H].
  split; [apply (allChars_hasChar isDigit LF s eq_refl H)
         |apply (allChars_hasChar isDigit CR s eq_refl H)].
Qed.

Lemma renderRange_noBreak (s : string) (c : option string) :
  digits s = true -> optDigits c = true -> noBreak (renderRange s c).
Proof.
  intros Hs Hc. unfold renderRange. apply noBreak_app; [apply digits_noBreak; exact Hs|].
  destruct c as [n|]; [|split; reflexivity].
  apply noBreak_app; [split; reflexivity|apply digits_noBreak; exact Hc].
Qed.

(** What [wellFormedHunk] asks of a hunk. *)
Lemma wellFormedHunk_spec (h : DiffHunk) :
  wellFormedHunk h = true ->
  digits (dh_start h) = true /\ optDigits (dh_count h) = true /\
  digits (dh_newStart h) = true /\ optDigits (dh_newCount h) = true /\
  noBreak (dh_section h) /\
  forallb noHeaderLook (scriptOf (dh_body h)) = true /\
  (dh_old h = [] -> dh_gap h = []).
Proof.
  unfold wellFormedHunk. rewrite !andb_true_iff, noBreakb_spec.
  intros [[[[[[H1 H2] H3] H4] H5] H6] H7]. repeat (split; [assumption|]).
  intros E. rewrite E in H7. destruct (dh_gap h); [reflexivity|discriminate].
Qed.

Lemma renderHunkHeader_noBreak (h : DiffHunk) :
  wellFormedHunk h = true -> noBreak (renderHunkHeader h).
Proof.
  intros H. apply wellFormedHunk_spec in H.
  destruct H as (H1 & H2 & H3 & H4 & H5 & _).
  unfold renderHunkHeader.
  repeat first [ apply renderRange_noBreak; assumption
               | exact H5
               | split; reflexivity
               | apply noBreak_app ].
Qed.

Lemma renderHunkLine_noBreak (hl : UnifiedDiffHunkLine) :
  noBreak (hl_text hl) -> noBreak (renderHunkLine hl).
Proof.
  intros [H1 H2]. unfold renderHunkLine.
  destruct (hl_kind hl); split; cbn [hasChar]; rewrite ?H1, ?H2; reflexivity.
Qed.

(** The lines of a body have no line break when the old and the new lines
    of its script have none. *)
Lemma body_noBreak (body : list BodyLine) :
  Forall noBreak (oldTexts (scriptOf body)) ->
  Forall noBreak (newTexts (scriptOf body)) ->
  Forall noBreak (map renderBodyLine body).
Proof.
  induction body as [|b body IH]; intros Ho Hn; [constructor|].
  destruct b as [[k t]| |]; unfold oldTexts, newTexts, scriptOf in *;
    cbn [map flat_map stepsOf app renderBodyLine] in *.
  - destruct k; simpl in Ho, Hn.
    + inversion Ho; inversion Hn; subst.
      constructor; [apply renderHunkLine_noBreak; assumption|auto].
    + inversion Hn; subst.
      constructor; [apply renderHunkLine_noBreak; assumption|auto].
    + inversion Ho; subst.
      constructor; [apply renderHunkLine_noBreak; assumption|auto].
  - simpl in Ho, Hn. inversion Ho; inversion Hn; subst.
    constructor; [split; reflexivity|auto].
  - constructor; [split; reflexivity|auto].
Qed.

Lemma oldSide_parts (P : string -> Prop) (hs : list DiffHunk) (tail : list string) :
  Forall P (oldSide hs tail) -> Forall (fun h => Forall P (dh_old h)) hs.
Proof.
  induction hs as [|h hs IH]; intros H; [constructor|].
  cbn [oldSide] in H. apply Forall_app in H. destruct H as [_ H].
  apply Forall_app in H. destruct H as [H1 H2]. constructor; auto.
Qed.

Lemma newSide_parts (P : string -> Prop) (hs : list DiffHunk) (tail : list string) :
  Forall P (newSide hs tail) -> Forall (fun h => Forall P (dh_new h)) hs.
Proof.
  induction hs as [|h hs IH]; intros H; [constructor|].
  cbn [newSide] in H. apply Forall_app in H. destruct H as [_ H].
  apply Forall_app in H. destruct H as [H1 H2]. constructor; auto.
Qed.

Lemma renderedHunks_noBreak (hs : list DiffHunk) :
  forallb wellFormedHunk hs = true ->
  Forall (fun h => Forall noBreak (dh_old h)) hs ->
  Forall (fun h => Forall noBreak (dh_new h)) hs ->
  Forall noBreak (flat_map renderHunk hs).
Proof.
  induction hs as [|h hs IH]; intros Hw Ho Hn; [constructor|].
  cbn [forallb] in Hw. apply andb_true_iff in Hw. destruct Hw as [Hh Hw].
  inversion Ho; inversion Hn; subst.
  cbn [flat_map]. apply Forall_app. split; [|auto].
  unfold renderHunk. constructor; [apply renderHunkHeader_noBreak; exact Hh|].
  apply body_noBreak; assumption.
Qed.

(** *** Reading the diff back *)

Lemma scanLit_app (p r : string) : scanLit p (p +:+ r) = Some r.
Proof.
  unfold scanLit, startsWith.
  assert (H : String.prefix p (p +:+ r) = true /\ drop (String.length p) (p +:+ r) = r).
  { induction p as [|a p IH]; simpl; [split; [destruct r|]; reflexivity|].
    destruct (ascii_dec a a) as [_|Hne]; [exact IH|congruence]. }
  destruct H as [-> ->]. reflexivity.
Qed.

Lemma trimStart_fixed (s : string) : dropWs1 s = None -> trimStart s = s.
Proof.
  intros H. unfold trimStart. destruct (String.length s); simpl; [reflexivity|].
  rewrite H. reflexivity.
Qed.

Lemma scanWs1_space (s : string) :
  dropWs1 s = None -> scanWs1 (String " " s) = Some s.
Proof.
  intros H. unfold scanWs1.
  assert (Hd : dropWs1 (String " " s) = Some s) by (destruct s; reflexivity).
  rewrite Hd. f_equal. unfold trimStart.
  change (String.length (String " " s)) with (S (String.length s)).
  cbn [trimStartN]. rewrite Hd. apply trimStart_fixed. exact H.
Qed.

(** A range is read back up to the blank that follows it. *)
Lemma scanRange_render (s : string) (c : option string) (r : string) :
  digits s = true -> optDigits c = true ->
  scanRange (renderRange s c +:+ String " " r) = Some (s, c, String " " r).
Proof.
  intros Hs Hc. apply digits_spec in Hs. destruct Hs as [Hne Hd].
  unfold scanRange, renderRange. rewrite app_assoc_string.
  destruct c as [n|].
  - apply digits_spec in Hc. destruct Hc as [Hne' Hd'].
    change (("," +:+ n) +:+ String " " r) with (String "," (n +:+ String " " r)).
    rewrite (span_app isDigit s _ Hd) by reflexivity.
    destruct s as [|a s]; [congruence|].
    rewrite (span_app isDigit n _ Hd') by reflexivity.
    destruct n; [congruence|reflexivity].
  - change (EmptyString +:+ String " " r) with (String " " r).
    rewrite (span_app isDigit s _ Hd) by reflexivity.
    destruct s as [|a s]; [congruence|reflexivity].
Qed.

Lemma renderHunkHeader_nested (h : DiffHunk) :
  renderHunkHeader h
  = "@@" +:+ String " " ("-" +:+ (renderRange (dh_start h) (dh_count h)
      +:+ String " " ("+" +:+ (renderRange (dh_newStart h) (dh_newCount h)
      +:+ String " " ("@@" +:+ dh_section h))))).
Proof. reflexivity. Qed.

Lemma matchHunkHeader_render (h : DiffHunk) :
  wellFormedHunk h = true ->
  matchHunkHeader (renderHunkHeader h)
  = Some ((dh_start h, dh_count h), (dh_newStart h, dh_newCount h)).
Proof.
  intros H. apply wellFormedHunk_spec in H.
  destruct H as (H1 & H2 & H3 & H4 & _).
  rewrite renderHunkHeader_nested. unfold matchHunkHeader.
  rewrite scanLit_app.
  rewrite scanWs1_space by reflexivity.
  rewrite scanLit_app.
  rewrite scanRange_render by assumption.
  rewrite scanWs1_space by reflexivity.
  rewrite scanLit_app.
  rewrite scanRange_render by assumption.
  rewrite scanWs1_space by reflexivity.
  rewrite scanLit_app. reflexivity.
Qed.

Lemma startsWith_cons (p : string) (c : ascii) (s : string) :
  startsWith (String c p) (String c s) = startsWith p s.
Proof.
  unfold startsWith. simpl.
  destruct (ascii_dec c c) as [_|Hne]; [reflexivity|congruence].
Qed.

(** The body of a rendered hunk is read back as its script, up to the next
    header. *)
Lemma hunkBody_render (body : list BodyLine) (rest : list string) :
  forallb noHeaderLook (scriptOf body) = true ->
  match rest with [] => True | l :: _ => startsWith "@@ " l = true end ->
  hunkBody (map renderBodyLine body ++ rest) = (scriptOf body, rest).
Proof.
  intros Hlook Hrest. induction body as [|b body IH].
  - destruct rest as [|l r]; [reflexivity|]. cbn [map app hunkBody].
    rewrite Hrest. reflexivity.
  - unfold scriptOf in Hlook. cbn [flat_map] in Hlook.
    rewrite forallb_app in Hlook. apply andb_true_iff in Hlook.
    destruct Hlook as [Hb Hlook]. specialize (IH Hlook).
    cbn [map app hunkBody]. rewrite IH.
    destruct b as [[k t]| |]; cbn [stepsOf forallb] in Hb.
    + rewrite andb_true_r in Hb.
      destruct k; unfold renderBodyLine, renderHunkLine, noHeaderLook in *;
        cbn [hl_kind hl_text] in *.
      * reflexivity.
      * apply negb_true_iff in Hb.
        change (startsWith "@@ " (String "+" t)) with false. cbv iota.
        unfold isHeaderNoise.
        change (startsWith "--- " (String "+" t)) with false.
        change (startsWith "diff " (String "+" t)) with false.
        change (startsWith "+++ " (String "+" t)) with (startsWith "++ " t).
        rewrite Hb. reflexivity.
      * apply negb_true_iff in Hb.
        change (startsWith "@@ " (String "-" t)) with false. cbv iota.
        unfold isHeaderNoise.
        change (startsWith "+++ " (String "-" t)) with false.
        change (startsWith "diff " (String "-" t)) with false.
        change (startsWith "--- " (String "-" t)) with (startsWith "-- " t).
        rewrite Hb. reflexivity.
    + reflexivity.
    + reflexivity.
Qed.

Lemma parseHunks_nil (fuel : nat) : parseHunks fuel [] = [].
Proof. destruct fuel; reflexivity. Qed.

Lemma hunkBody_shorter (ls : list string) :
  (List.length (snd (hunkBody ls)) <= List.length ls)%nat.
Proof.
  induction ls as [|l ls IH]; [simpl; lia|].
  cbn [hunkBody]. destruct (startsWith "@@ " l); [simpl; lia|].
  destruct (hunkBody ls) as [body remaining]. cbn [snd] in IH.
  destruct (isHeaderNoise l); [simpl; lia|].
  destruct (classifyHunkLine l); simpl; lia.
Qed.

(** The outer loop of the parser never runs out of fuel: more fuel than
    there are lines changes nothing. *)
Lemma parseHunks_enough (n : nat) :
  forall m (ls : list string),
    (List.length ls <= n)%nat -> (List.length ls <= m)%nat ->
    parseHunks n ls = parseHunks m ls.
Proof.
  induction n as [|n IH]; intros m ls Hn Hm.
  - destruct ls; [symmetry; apply parseHunks_nil|simpl in Hn; lia].
  - destruct ls as [|l ls]; [symmetry; apply parseHunks_nil|].
    destruct m as [|m]; [simpl in Hm; lia|].
    cbn [parseHunks]. simpl in Hn, Hm.
    destruct (matchHunkHeader l) as [[o nw]|]; [|apply IH; lia].
    pose proof (hunkBody_shorter ls) as Hs.
    destruct (hunkBody ls) as [body remaining]. cbn [snd] in Hs.
    f_equal. apply IH; lia.
Qed.

(** The lines before the first hunk are passed over. *)
Lemma parseHunks_preamble (preamble ls : list string) :
  forallb preambleLine preamble = true ->
  forall fuel,
    (List.length (preamble ++ ls) <= fuel)%nat ->
    parseHunks fuel (preamble ++ ls) = parseHunks (List.length ls) ls.
Proof.
  intros Hpre. induction preamble as [|l preamble IH]; intros fuel Hf.
  - apply parseHunks_enough; [exact Hf|lia].
  - cbn [forallb] in Hpre. apply andb_true_iff in Hpre. destruct Hpre as [Hl Hpre].
    unfold preambleLine in Hl. apply andb_true_iff in Hl. destruct Hl as [_ Hl].
    destruct fuel as [|fuel]; [simpl in Hf; lia|].
    cbn [app parseHunks]. destruct (matchHunkHeader l); [discriminate|].
    apply IH; [exact Hpre|]. simpl in Hf. lia.
Qed.

(** The hunks of a diff are read back one by one. *)
Lemma parseHunks_render (hs : list DiffHunk) :
  forallb wellFormedHunk hs = true ->
  forall fuel,
    (List.length (flat_map renderHunk hs) <= fuel)%nat ->
    parseHunks fuel (flat_map renderHunk hs) = map parsedHunk hs.
Proof.
  intros Hw. induction hs as [|h hs IH]; intros fuel Hf.
  - apply parseHunks_nil.
  - cbn [forallb] in Hw. apply andb_true_iff in Hw. destruct Hw as [Hh Hw].
    destruct fuel as [|fuel]; [simpl in Hf; lia|].
    cbn [flat_map]. unfold renderHunk at 1. cbn [app parseHunks].
    rewrite (matchHunkHeader_render h Hh).
    pose proof (wellFormedHunk_spec h Hh) as (_ & _ & _ & _ & _ & Hlook & _).
    rewrite hunkBody_render.
    + cbn [map]. f_equal. apply IH; [exact Hw|].
      cbn [flat_map] in Hf. unfold renderHunk at 1 in Hf.
      cbn [app List.length] in Hf. rewrite length_app in Hf. lia.
    + exact Hlook.
    + destruct hs as [|h' hs']; [exact I|]. reflexivity.
Qed.

Lemma parseUnifiedDiff_render (preamble : list string) (hs : list DiffHunk) :
  hs <> [] ->
  forallb preambleLine preamble = true ->
  forallb wellFormedHunk hs = true ->
  Forall (fun h => Forall noBreak (dh_old h)) hs ->
  Forall (fun h => Forall noBreak (dh_new h)) hs ->
  parseUnifiedDiff (renderDiff preamble hs) = map parsedHunk hs.
Proof.
  intros Hne Hpre Hw Ho Hn. unfold parseUnifiedDiff, renderDiff.
  rewrite splitLines_textOf.
  - rewrite parseHunks_preamble by (try exact Hpre; lia).
    apply parseHunks_render; [exact Hw|lia].
  - destruct hs as [|h hs]; [congruence|]. intros E.
    apply app_eq_nil in E. destruct E as [_ E]. discriminate.
  - apply Forall_app. split.
    + apply List.Forall_forall. intros l Hl.
      apply noBreakb_spec.
      rewrite forallb_forall in Hpre. specialize (Hpre l Hl).
      unfold preambleLine in Hpre. apply andb_true_iff in Hpre. tauto.
    + apply renderedHunks_noBreak; assumption.
Qed.

(** *** Applying the diff that was read *)

Lemma sliceZ_middle (d x r : list string) :
  sliceZ (d ++ x ++ r) (lenZ d) (lenZ d + lenZ x) = x.
Proof.
  unfold sliceZ, lenZ. rewrite Nat2Z.id.
  replace (Z.to_nat (Z.of_nat (List.length d) + Z.of_nat (List.length x))
           - List.length d)%nat with (List.length x) by lia.
  rewrite drop_app_length. apply take_app_length.
Qed.

Lemma runAt_middle (d x r : list string) : runAt (d ++ x ++ r) x (lenZ d).
Proof.
  split; [apply lenZ_nonneg|]. split.
  - unfold lenZ. rewrite !length_app. lia.
  - apply sliceZ_middle.
Qed.

Lemma sliceFromZ_app (d r : list string) : sliceFromZ (d ++ r) (lenZ d) = r.
Proof. unfold sliceFromZ, lenZ. rewrite Nat2Z.id. apply drop_app_length. Qed.

(** A hunk whose header declares its place is anchored there. *)
Lemma anchorOf_positioned (done : list string) (h : DiffHunk) (rest : list string) :
  lenZ (done ++ dh_gap h ++ dh_old h ++ rest) <= 2 ^ 53 ->
  digitsToZ (dh_start h) = standardStart (lenZ done + lenZ (dh_gap h)) (dh_old h) ->
  (dh_old h = [] -> dh_gap h = []) ->
  anchorOf (done ++ dh_gap h ++ dh_old h ++ rest) (parsedHunk h)
           (lenZ done) (lenZ done + lenZ (dh_gap h)).
Proof.
  intros Hlen Hstart Hgap.
  set (a := done ++ dh_gap h ++ dh_old h ++ rest) in *.
  assert (Hla : lenZ a = lenZ done + lenZ (dh_gap h) + lenZ (dh_old h) + lenZ rest).
  { unfold a, lenZ. rewrite !length_app. lia. }
  pose proof (lenZ_nonneg done). pose proof (lenZ_nonneg (dh_gap h)).
  pose proof (lenZ_nonneg (dh_old h)). pose proof (lenZ_nonneg rest).
  unfold anchorOf.
  change (oldSeqOf (parsedHunk h)) with (dh_old h).
  unfold preferredIdxOf. change (oldStart (parsedHunk h)) with (Num.ofDigits (dh_start h)).
  unfold Num.ofDigits. rewrite Hstart.
  destruct (dh_old h) as [|x old] eqn:Hold.
  - rewrite (Hgap eq_refl) in *. change (lenZ []) with 0 in *.
    cbn [standardStart]. rewrite round_exact by lia.
    cbn [Num.addZ]. rewrite round_exact by lia. cbn [Num.max0 Num.clamp]. lia.
  - assert (Hx : 1 <= lenZ (x :: old)) by (unfold lenZ; simpl; lia).
    cbn [standardStart]. rewrite round_exact by lia.
    cbn [Num.addZ]. rewrite round_exact by lia. cbn [Num.max0].
    replace (Z.max 0 (lenZ done + lenZ (dh_gap h) + 1 + -1))
      with (lenZ done + lenZ (dh_gap h)) by lia.
    assert (Hrun : runAt a (x :: old) (lenZ done + lenZ (dh_gap h))).
    { unfold a. rewrite !app_assoc. rewrite <- (app_assoc (done ++ dh_gap h)).
      replace (lenZ done + lenZ (dh_gap h)) with (lenZ (done ++ dh_gap h))
        by (unfold lenZ; rewrite length_app; lia).
      apply runAt_middle. }
    split; [exact Hrun|]. split; [lia|].
    rewrite absDiff_exact by lia.
    replace (lenZ done + lenZ (dh_gap h) - (lenZ done + lenZ (dh_gap h))) with 0 by lia.
    split; [reflexivity|].
    intros j (Hj0 & Hjb & _) Hlo.
    rewrite absDiff_exact by lia. cbn [Num.ltb Z.abs].
    split; [apply Z.ltb_ge; lia|]. intros Hlt. apply Z.ltb_lt. lia.
Qed.

(** The loop over the hunks of a diff of the base. *)
Lemma applyHunks_render (tail : list string) (hs : list DiffHunk) :
  forall done out,
    lenZ (done ++ oldSide hs tail) <= 2 ^ 53 ->
    positioned hs (lenZ done) ->
    forallb wellFormedHunk hs = true ->
    exists out' cur,
      applyHunks (done ++ oldSide hs tail) (map parsedHunk hs) (out, lenZ done)
      = Ok (out', cur) /\
      out' ++ sliceFromZ (done ++ oldSide hs tail) cur = out ++ newSide hs tail.
Proof.
  induction hs as [|h hs IH]; intros done out Hlen Hpos Hw.
  - exists out, (lenZ done). split; [reflexivity|].
    cbn [oldSide newSide]. rewrite sliceFromZ_app. reflexivity.
  - cbn [forallb] in Hw. apply andb_true_iff in Hw. destruct Hw as [Hh Hw].
    destruct Hpos as [Hstart Hpos]. cbn [oldSide] in *.
    pose proof (wellFormedHunk_spec h Hh) as (_ & _ & _ & _ & _ & _ & Hgap).
    pose proof (anchorOf_positioned done h (oldSide hs tail) Hlen Hstart Hgap) as Hanc.
    set (a := done ++ dh_gap h ++ dh_old h ++ oldSide hs tail) in *.
    assert (H0 : 0 <= lenZ done <= lenZ a).
    { split; [apply lenZ_nonneg|]. unfold a, lenZ. rewrite !length_app. lia. }
    cbn [map applyHunks].
    rewrite (applyHunk_anchored a out _ _ _ H0 Hanc). cbn [rbind].
    change (oldSeqOf (parsedHunk h)) with (dh_old h).
    change (newSeqOf (parsedHunk h)) with (dh_new h).
    assert (Hsl : sliceZ a (lenZ done) (lenZ done + lenZ (dh_gap h)) = dh_gap h)
      by (unfold a; apply sliceZ_middle).
    rewrite Hsl.
    assert (Ea : a = (done ++ dh_gap h ++ dh_old h) ++ oldSide hs tail)
      by (unfold a; rewrite <- !app_assoc; reflexivity).
    assert (El : lenZ done + lenZ (dh_gap h) + lenZ (dh_old h)
                 = lenZ (done ++ dh_gap h ++ dh_old h))
      by (unfold lenZ; rewrite !length_app; lia).
    rewrite El in *. rewrite Ea in *.
    destruct (IH (done ++ dh_gap h ++ dh_old h) (out ++ dh_gap h ++ dh_new h)
                 Hlen Hpos Hw) as (out' & cur & Ha & Hout).
    exists out', cur. split; [exact Ha|]. rewrite Hout. cbn [newSide].
    rewrite <- !app_assoc. reflexivity.
Qed.

End RoundTrip.

(** C1 (round trip), as the code has it.  Let [T] and [T'] be texts without
    carriage returns, and let a diff of [T] and [T'] be given by its hunks:
    the lines of [T] are gaps and the old lines of the hunks by turns,
    followed by a tail, and the lines of [T'] are the same gaps and tail
    with the new lines of the hunks.  The diff text may begin with lines
    that are no hunk headers; every hunk has a header
    [@@ -s,c +s',c' @@] that declares the line number of its first old
    line, where the counts may be left out and a section heading may
    follow; the lines of the body are prefixed by a blank, [-] or [+], an
    empty line stands for an empty kept line, and markers that the last
    line has no line break may occur.  No deleted line starts with [-- ]
    and no added line with [++ ], and a hunk without kept and deleted lines
    has no gap before it.  The base has at most 2^53 lines, as every array
    of the runtime has.  Then applying the diff text to [T] succeeds and
    returns exactly [T'].  The diff that creates the line [a] in the empty
    text is of this kind. *)
Theorem round_trip_unified_diff
    (T T' : string) (preamble : list string) (hs : list DiffHunk)
    (tail : list string) :
  Js.hasChar Js.CR T = false ->
  Js.hasChar Js.CR T' = false ->
  hs <> [] ->
  splitLines T = oldSide hs tail ->
  splitLines T' = newSide hs tail ->
  positioned hs 0 ->
  forallb wellFormedHunk hs = true ->
  forallb preambleLine preamble = true ->
  Js.lenZ (splitLines T) <= 2 ^ 53 ->
  applyUnifiedDiffToText T (renderDiff preamble hs) = Ok T'
  /\ applyUnifiedDiffToText EmptyString (textOf ["@@ -0,0 +1 @@"; "+a"])
     = Ok (textOf ["a"; ""]).
Proof.
  intros HT HT' Hne Hold Hnew Hpos Hw Hpre Hlen.
  split; [|vm_compute; reflexivity].
  assert (Ho : Forall (fun h => Forall noBreak (dh_old h)) hs).
  { apply (oldSide_parts noBreak hs tail). rewrite <- Hold.
    apply splitLines_noBreak. exact HT. }
  assert (Hn : Forall (fun h => Forall noBreak (dh_new h)) hs).
  { apply (newSide_parts noBreak hs tail). rewrite <- Hnew.
    apply splitLines_noBreak. exact HT'. }
  unfold applyUnifiedDiffToText, applyUnifiedDiff.
  rewrite (parseUnifiedDiff_render preamble hs Hne Hpre Hw Ho Hn).
  destruct (map parsedHunk hs) as [|h0 hs0] eqn:Hm;
    [destruct hs; [congruence|discriminate]|].
  rewrite <- Hm. rewrite Hold in *.
  destruct (applyHunks_render tail hs [] [] Hlen Hpos Hw) as (out' & cur & Ha & Hout).
  cbn [app] in Ha. change (Js.lenZ []) with 0 in Ha. rewrite Ha. cbn [rbind].
  cbn [app] in Hout. rewrite Hout, <- Hnew.
  unfold splitLines. rewrite JsFacts.replaceCRLF_id by exact HT'.
  rewrite JsFacts.join_splitChar. reflexivity.
Qed.

Lemma round_trip_unified_diff_witness :
  renderDiff ["--- a/f.txt"; "+++ b/f.txt"]
    [mkDiffHunk [] "1" (Some "3") "1" (Some "3") EmptyString
       [Shown (mkHunkLine ctx "a"); Shown (mkHunkLine del "b");
        Shown (mkHunkLine add "B"); Shown (mkHunkLine ctx "c")];
     mkDiffHunk ["d"] "5" None "5" None " section"
       [Shown (mkHunkLine ctx "e"); Shown (mkHunkLine del "f");
        Shown (mkHunkLine add "F"); Shown (mkHunkLine ctx "g"); Marker; Blank]]
  = textOf ["--- a/f.txt"; "+++ b/f.txt";
            "@@ -1,3 +1,3 @@"; " a"; "-b"; "+B"; " c";
            "@@ -5 +5 @@ section"; " e"; "-f"; "+F"; " g";
            "\ No newline at end of file"; ""] /\
  applyUnifiedDiffToText
    (textOf ["a"; "b"; "c"; "d"; "e"; "f"; "g"; ""])
    (renderDiff ["--- a/f.txt"; "+++ b/f.txt"]
       [mkDiffHunk [] "1" (Some "3") "1" (Some "3") EmptyString
          [Shown (mkHunkLine ctx "a"); Shown (mkHunkLine del "b");
           Shown (mkHunkLine add "B"); Shown (mkHunkLine ctx "c")];
        mkDiffHunk ["d"] "5" None "5" None " section"
          [Shown (mkHunkLine ctx "e"); Shown (mkHunkLine del "f");
           Shown (mkHunkLine add "F"); Shown (mkHunkLine ctx "g"); Marker; Blank]])
  = Ok (textOf ["a"; "B"; "c"; "d"; "e"; "F"; "g"; ""]).
Proof.
  split; [vm_compute; reflexivity|].
  refine (proj1 (round_trip_unified_diff _ _ _ _ [] _ _ _ _ _ _ _ _ _)).
  - vm_compute; reflexivity.
  - vm_compute; reflexivity.
  - discriminate.
  - vm_compute; reflexivity.
  - vm_compute; reflexivity.
  - repeat split; vm_compute; reflexivity.
  - vm_compute; reflexivity.
  - vm_compute; reflexivity.
  - vm_compute; discriminate.
Defined.

(** C1 as it is claimed fails, in five ways.  (1) The one-line text
    [-- foo] is changed into [bar]: the diff holds the line [--- foo],
    which the parser passes over as a file header, and the answer still
    holds the deleted line.  (2) A text with a carriage return before a
    line feed comes back without the carriage return.  (3) A differ that
    writes no context declares the start 1 for a line added behind line 1;
    the applier puts the line before line 1.  (4) The text of a differ ends
    in a line break; the empty line that this leaves is read as an empty
    kept line of the last hunk, and a hunk that is followed by the line [c]
    is not located.  (5) The marker that the last line has no line break is
    passed over: a diff that only adds the final line break changes
    nothing. *)
Lemma round_trip_counterexample :
  (splitLines "-- foo"
   = oldSide [mkDiffHunk [] "1" (Some "1") "1" (Some "1") EmptyString
                [Shown (mkHunkLine del "-- foo"); Shown (mkHunkLine add "bar")]] [] /\
   splitLines "bar"
   = newSide [mkDiffHunk [] "1" (Some "1") "1" (Some "1") EmptyString
                [Shown (mkHunkLine del "-- foo"); Shown (mkHunkLine add "bar")]] [] /\
   renderDiff []
     [mkDiffHunk [] "1" (Some "1") "1" (Some "1") EmptyString
        [Shown (mkHunkLine del "-- foo"); Shown (mkHunkLine add "bar")]]
   = textOf ["@@ -1,1 +1,1 @@"; "--- foo"; "+bar"] /\
   applyUnifiedDiffToText "-- foo" (textOf ["@@ -1,1 +1,1 @@"; "--- foo"; "+bar"])
   = Ok (textOf ["bar"; "-- foo"]) /\
   String.eqb (textOf ["bar"; "-- foo"]) "bar" = false)
  /\
  (splitLines "a"
   = oldSide [mkDiffHunk [] "1" None "1" (Some "2") EmptyString
                [Shown (mkHunkLine del "a"); Shown (mkHunkLine add "b");
                 Shown (mkHunkLine add "c")]] [] /\
   splitLines ("b" +:+ String Js.CR (String Js.LF "c"))
   = newSide [mkDiffHunk [] "1" None "1" (Some "2") EmptyString
                [Shown (mkHunkLine del "a"); Shown (mkHunkLine add "b");
                 Shown (mkHunkLine add "c")]] [] /\
   applyUnifiedDiffToText "a"
     (renderDiff []
        [mkDiffHunk [] "1" None "1" (Some "2") EmptyString
           [Shown (mkHunkLine del "a"); Shown (mkHunkLine add "b");
            Shown (mkHunkLine add "c")]])
   = Ok (textOf ["b"; "c"]) /\
   String.eqb (textOf ["b"; "c"]) ("b" +:+ String Js.CR (String Js.LF "c")) = false)
  /\
  (splitLines (textOf ["a"; "b"])
   = oldSide [mkDiffHunk ["a"] "1" (Some "0") "2" None EmptyString
                [Shown (mkHunkLine add "x")]] ["b"] /\
   splitLines (textOf ["a"; "x"; "b"])
   = newSide [mkDiffHunk ["a"] "1" (Some "0") "2" None EmptyString
                [Shown (mkHunkLine add "x")]] ["b"] /\
   positioned [mkDiffHunk ["a"] "1" (Some "0") "2" None EmptyString
                 [Shown (mkHunkLine add "x")]] 0 /\
   renderDiff []
     [mkDiffHunk ["a"] "1" (Some "0") "2" None EmptyString [Shown (mkHunkLine add "x")]]
   = textOf ["@@ -1,0 +2 @@"; "+x"] /\
   applyUnifiedDiffToText (textOf ["a"; "b"]) (textOf ["@@ -1,0 +2 @@"; "+x"])
   = Ok (textOf ["x"; "a"; "b"]) /\
   String.eqb (textOf ["x"; "a"; "b"]) (textOf ["a"; "x"; "b"]) = false)
  /\
  (renderDiff []
     [mkDiffHunk [] "1" (Some "2") "1" (Some "2") EmptyString
        [Shown (mkHunkLine del "a"); Shown (mkHunkLine add "x");
         Shown (mkHunkLine ctx "b"); Blank]]
   = textOf ["@@ -1,2 +1,2 @@"; "-a"; "+x"; " b"; ""] /\
   applyUnifiedDiffToText (textOf ["a"; "b"; "c"; ""])
                          (textOf ["@@ -1,2 +1,2 @@"; "-a"; "+x"; " b"; ""])
   = Err "Failed to locate hunk context in file (starting near line 1).")
  /\
  (applyUnifiedDiffToText "a"
     (textOf ["@@ -1 +1 @@"; "-a"; "\ No newline at end of file"; "+a"])
   = Ok "a" /\
   String.eqb "a" (textOf ["a"; ""]) = false).
Proof.
  repeat split; vm_compute; reflexivity.
Qed.

(** C3 (path sanitisation invariant) fails on the code.  When the last
    segment of a path is [..], or the path consists of slashes only,
    [basename] hands the offending text back: the normaliser turns the path
    [a/..] into [..] and the path [//] into [/]. *)
Theorem sanitizer_lets_traversal_through :
  n_edits (normalizeAiEdits [opDelete "a/.."] None) = [opDelete ".."] /\
  traversalFree ".." = false /\
  n_edits (normalizeAiEdits [opWrite "//" "x"] None) = [opWrite "/" "x"] /\
  isRelative "/" = false /\
  n_edits (normalizeAiEdits [opRename "../.." "C:/.."] (Some "/abs/root"))
  = [opRename ".." ".."].
Proof. repeat split; vm_compute; reflexivity. Qed.

(** ** Splitting a two-block diff *)

Section SplitterFacts.
Import Js JsFacts.

Lemma startsWith_nil (s : string) : startsWith EmptyString s = true.
Proof. destruct s; reflexivity. Qed.

Lemma startsWith_app (p s t : string) :
  startsWith p s = true -> startsWith p (s +:+ t) = true.
Proof.
  revert s. induction p as [|c p IH]; intros s H; [apply startsWith_nil|].
  destruct s as [|a s]; [discriminate|].
  unfold startsWith in *. simpl in *.
  destruct (ascii_dec c a); [apply IH; exact H|discriminate].
Qed.

Lemma indexOf_unfold (p : string) (a : ascii) (s : string) :
  indexOf p (String a s)
  = if startsWith p (String a s) then Some O else option_map S (indexOf p s).
Proof. reflexivity. Qed.

Lemma indexOf_empty (p : string) :
  indexOf p EmptyString = if startsWith p EmptyString then Some O else None.
Proof. reflexivity. Qed.

Lemma includes_of_startsWith (p s : string) :
  startsWith p s = true -> includes p s = true.
Proof.
  intros H. unfold includes.
  destruct s; [rewrite indexOf_empty|rewrite indexOf_unfold]; rewrite H; reflexivity.
Qed.

Lemma includes_app_r (p s t : string) :
  includes p t = true -> includes p (s +:+ t) = true.
Proof.
  intros H. induction s as [|a s IH]; [exact H|].
  unfold includes in *. change (String a s +:+ t) with (String a (s +:+ t)).
  rewrite indexOf_unfold.
  destruct (startsWith p (String a (s +:+ t))); [reflexivity|].
  destruct (indexOf p (s +:+ t)); [reflexivity|discriminate].
Qed.

Lemma includes_app_l (p s t : string) :
  includes p s = true -> includes p (s +:+ t) = true.
Proof.
  induction s as [|a s IH]; intros H.
  - unfold includes in H. rewrite indexOf_empty in H.
    destruct (startsWith p EmptyString) eqn:E; [|discriminate].
    destruct p; [|discriminate]. apply includes_of_startsWith, startsWith_nil.
  - unfold includes in *. change (String a s +:+ t) with (String a (s +:+ t)).
    rewrite indexOf_unfold in *.
    destruct (startsWith p (String a s)) eqn:E.
    + change (String a (s +:+ t)) with (String a s +:+ t).
      rewrite (startsWith_app _ _ t E). reflexivity.
    + destruct (startsWith p (String a (s +:+ t))); [reflexivity|].
      destruct (indexOf p s) eqn:Ei; [|discriminate].
      assert (Hs : match indexOf p (s +:+ t) with Some _ => true | None => false end = true)
        by (apply IH; reflexivity).
      destruct (indexOf p (s +:+ t)); [reflexivity|discriminate].
Qed.

Lemma includes_join (p sep : string) (ls : list string) :
  Exists (fun l => startsWith p l = true) ls ->
  includes p (join sep ls) = true.
Proof.
  induction ls as [|x ls IH]; intros H; inversion H; subst.
  - destruct ls as [|y ls].
    + apply includes_of_startsWith. assumption.
    + rewrite join_cons. apply includes_app_l, includes_of_startsWith. assumption.
  - destruct ls as [|y ls]; [inversion H1|].
    rewrite join_cons. apply includes_app_r, includes_app_r, IH. assumption.
Qed.

Lemma gitBlocksFrom_body (body rest cur : list string) (blocks : list (list string)) :
  cur <> [] ->
  forallb notDiffGit body = true ->
  gitBlocksFrom (body ++ rest) cur blocks = gitBlocksFrom rest (cur ++ body) blocks.
Proof.
  revert cur. induction body as [|l body IH]; intros cur Hne H.
  - rewrite app_nil_r. reflexivity.
  - simpl in H. apply andb_true_iff in H. destruct H as [Hl H].
    unfold notDiffGit in Hl. apply negb_true_iff in Hl.
    simpl. rewrite Hl. destruct cur as [|c cur]; [congruence|].
    rewrite IH; [|destruct cur; discriminate|exact H].
    rewrite <- app_assoc. reflexivity.
Qed.

(** Two blocks, each led by its [diff --git] line, are told apart. *)
Lemma gitBlocks_two (d1 d2 : string) (body1 body2 : list string) :
  startsWith "diff --git " d1 = true ->
  startsWith "diff --git " d2 = true ->
  forallb notDiffGit body1 = true ->
  forallb notDiffGit body2 = true ->
  gitBlocks ((d1 :: body1) ++ (d2 :: body2)) = [d1 :: body1; d2 :: body2].
Proof.
  intros H1 H2 Hb1 Hb2. unfold gitBlocks. simpl. rewrite H1.
  rewrite gitBlocksFrom_body by (try discriminate; assumption).
  simpl. rewrite H2.
  rewrite <- (app_nil_r body2) at 1.
  rewrite gitBlocksFrom_body by (try discriminate; assumption).
  reflexivity.
Qed.

Lemma startsWith_inv (a : ascii) (p s : string) :
  startsWith (String a p) s = true ->
  exists s', s = String a s' /\ startsWith p s' = true.
Proof.
  unfold startsWith. destruct s as [|b s]; simpl; [discriminate|].
  destruct (ascii_dec a b) as [->|]; [eauto|discriminate].
Qed.

Lemma allWs_letter (c : ascii) (s : string) :
  dropWs1 (String c s) = None -> allWs (String c s) = false.
Proof.
  intros H. unfold allWs. rewrite trimStart_fixed by exact H. reflexivity.
Qed.

(** [normalizeGitPath] strips the [a/] or [b/] prefix of a path without
    trailing white space. *)
Lemma normalizeGitPath_prefixed (c : ascii) (p : string) :
  c = "a"%char \/ c = "b"%char ->
  trimEnd p = p ->
  normalizeGitPath (String c (String "/" p)) = p.
Proof.
  intros Hc Hp. unfold normalizeGitPath, trim.
  assert (Ht : trimEnd (trimStart (String c (String "/" p))) = String c (String "/" p)).
  { rewrite trimStart_fixed by (destruct Hc; subst; reflexivity).
    cbn [trimEnd]. rewrite allWs_letter by (destruct Hc; subst; reflexivity).
    rewrite allWs_letter by reflexivity. rewrite Hp. reflexivity. }
  rewrite Ht. destruct Hc; subst; cbn.
  - destruct p; reflexivity.
  - destruct p; reflexivity.
Qed.

(** The headers that the splitter collects are those of the last lines of
    each kind. *)
Lemma lastHeader_snoc (prefix : string) (b : list string) (l : string) :
  lastHeader prefix (b ++ [l])
  = if startsWith prefix l then Some (drop (String.length prefix) l)
    else lastHeader prefix b.
Proof.
  unfold lastHeader. rewrite rev_app_distr. cbn [rev app List.find].
  destruct (startsWith prefix l); reflexivity.
Qed.

Lemma normalizeGitPath_strip (p : string) : normalizeGitPath p = stripPrefix p.
Proof.
  unfold normalizeGitPath, stripPrefix. cbv zeta.
  destruct (String.eqb_spec (trim p) "/dev/null") as [E|_].
  - rewrite E. reflexivity.
  - destruct (startsWith "a/" (trim p)); reflexivity.
Qed.

Lemma scanBlock_headers (b : list string) :
  scanBlock b
  = mkHeaders (headerPath "rename from " b) (headerPath "rename to " b)
              (headerPath "--- " b) (headerPath "+++ " b).
Proof.
  unfold scanBlock, headerPath. induction b as [|l b IH] using rev_ind; [reflexivity|].
  rewrite fold_left_app. cbn [fold_left]. rewrite IH, !lastHeader_snoc.
  unfold scanBlockLine. cbn [renameFrom renameTo oldPath newPath String.length].
  rewrite !normalizeGitPath_strip.
  destruct (startsWith "rename from " l), (startsWith "rename to " l),
    (startsWith "--- " l), (startsWith "+++ " l); reflexivity.
Qed.

Lemma truthy_nonEmpty (o : option string) :
  truthy o = match o with Some p => nonEmpty p | None => false end.
Proof. destruct o as [[|c s]|]; reflexivity. Qed.

Lemma blockPath_named (b : list string) : blockPath (scanBlock b) = namedPath b.
Proof.
  rewrite scanBlock_headers. unfold blockPath, namedPath, namesFile.
  cbn [newPath oldPath]. rewrite !truthy_nonEmpty. unfold optIs.
  destruct (headerPath "+++ " b) as [n|], (headerPath "--- " b) as [o|]; reflexivity.
Qed.

Lemma namedPath_nonEmpty (b : list string) (p : string) :
  namedPath b = Some p -> truthy (Some p) = true.
Proof.
  unfold namedPath, namesFile. rewrite truthy_nonEmpty.
  destruct (headerPath "+++ " b) as [n|] eqn:En.
  - destruct (nonEmpty n && negb (String.eqb n "/dev/null")) eqn:E1.
    + intros H; inversion H; subst. apply andb_true_iff in E1. tauto.
    + destruct (headerPath "--- " b) as [o|]; [|discriminate].
      destruct (nonEmpty o && negb (String.eqb o "/dev/null")) eqn:E2; [|discriminate].
      intros H; inversion H; subst. apply andb_true_iff in E2. tauto.
  - destruct (headerPath "--- " b) as [o|]; [|discriminate].
    destruct (nonEmpty o && negb (String.eqb o "/dev/null")) eqn:E2; [|discriminate].
    intros H; inversion H; subst. apply andb_true_iff in E2. tauto.
Qed.

Lemma noRename_tests (b : list string) :
  namesRename b = false ->
  truthy (renameFrom (scanBlock b)) && truthy (renameTo (scanBlock b)) = false.
Proof.
  rewrite scanBlock_headers. cbn [renameFrom renameTo]. unfold namesRename.
  rewrite !truthy_nonEmpty.
  destruct (headerPath "rename from " b) as [f|], (headerPath "rename to " b) as [t|];
    try reflexivity; try (intros _; apply andb_false_r). auto.
Qed.

(** The operation of a block that is marked as deleted and names a file. *)
Lemma blockEdits_marked (b : list string) (q : string) :
  namesRename b = false -> namedPath b = Some q -> markedDeleted b = true ->
  blockEdits b = [opDelete q].
Proof.
  intros Hr Hq Hm. unfold blockEdits. cbv zeta.
  rewrite (noRename_tests b Hr), blockPath_named, Hq.
  rewrite (namedPath_nonEmpty b q Hq).
  unfold markedDeleted in Hm. rewrite Hm, orb_true_r. reflexivity.
Qed.

(** The operation of a block with a hunk that is no deletion and names a
    file. *)
Lemma blockEdits_hunks (b : list string) (p : string) :
  namesRename b = false -> namedPath b = Some p ->
  hasHunk b = true -> markedDeleted b = false -> newIsNull b = false ->
  blockEdits b = [opPatch p (textOf b)].
Proof.
  intros Hr Hp Hh Hm Hn. unfold blockEdits. cbv zeta.
  rewrite (noRename_tests b Hr), blockPath_named, Hp.
  rewrite (namedPath_nonEmpty b p Hp).
  unfold markedDeleted in Hm. rewrite Hm.
  unfold newIsNull in Hn. rewrite scanBlock_headers. cbn [newPath]. rewrite Hn.
  cbn [orb].
  assert (Hinc : includes "@@ " (join (str1 LF) b) = true).
  { apply includes_join. unfold hasHunk in Hh.
    apply existsb_exists in Hh. apply Exists_exists.
    destruct Hh as (x & Hin & Hx). exists x. split; [|exact Hx].
    apply list_elem_of_In. exact Hin. }
  rewrite Hinc. reflexivity.
Qed.

Lemma gitBlocks_pair (A B : list string) :
  gitBlock A = true -> gitBlock B = true -> gitBlocks (A ++ B) = [A; B].
Proof.
  unfold gitBlock. destruct A as [|dA ra]; [discriminate|].
  destruct B as [|dB rb]; [intros _; discriminate|].
  intros HA HB. apply andb_true_iff in HA. apply andb_true_iff in HB.
  apply gitBlocks_two; tauto.
Qed.

Lemma stripPrefix_prefixed (t : string) :
  trimEnd t = t ->
  stripPrefix ("a/" +:+ t) = t /\ stripPrefix ("b/" +:+ t) = t.
Proof.
  intros Ht.
  rewrite <- !normalizeGitPath_strip.
  split; apply normalizeGitPath_prefixed; auto.
Qed.

End SplitterFacts.

(** C8 (multi-file split), as the code has it.  The blob consists of two
    blocks, each led by its [diff --git] line.  A block names a file by its
    last [+++ ] line or, if that names none, by its last [--- ] line; the
    path is what the line says, trimmed and without the prefix [a/] or
    [b/].  Let both blocks name a file and neither say [rename from] and
    [rename to]; let the one have a hunk header and be no deletion (no
    [deleted file mode] mark, and its [+++ ] line does not say
    [/dev/null]), and let the other carry the [deleted file mode] mark,
    whatever its [---] and [+++] lines say.  Then the splitter yields
    exactly a Patch of the file of the first block, whose text is that
    block, and a Delete of the file of the second, in the order of the
    blocks. *)
Theorem multi_file_split (A B : list string) (p q : string) :
  gitBlock A = true -> gitBlock B = true ->
  Forall noBreak (A ++ B) ->
  namesRename A = false -> namesRename B = false ->
  namedPath A = Some p -> namedPath B = Some q ->
  hasHunk A = true -> markedDeleted A = false -> newIsNull A = false ->
  markedDeleted B = true ->
  splitMultiFileGitDiffToEdits (textOf (A ++ B)) = [opPatch p (textOf A); opDelete q]
  /\ splitMultiFileGitDiffToEdits (textOf (B ++ A)) = [opDelete q; opPatch p (textOf A)]
  /\ forall t, Js.trimEnd t = t ->
       stripPrefix ("a/" +:+ t) = t /\ stripPrefix ("b/" +:+ t) = t.
Proof.
  intros HA HB Hnb HrA HrB Hp Hq Hh HmA HnA HmB.
  pose proof (blockEdits_hunks A p HrA Hp Hh HmA HnA) as EA.
  pose proof (blockEdits_marked B q HrB Hq HmB) as EB.
  assert (HneA : A <> []) by (destruct A; [discriminate|discriminate]).
  unfold splitMultiFileGitDiffToEdits. split; [|split].
  - rewrite splitLines_textOf;
      [|destruct A; [congruence|discriminate]|exact Hnb].
    rewrite gitBlocks_pair by assumption.
    cbn [flat_map]. rewrite EA, EB. reflexivity.
  - rewrite splitLines_textOf;
      [|destruct B; [discriminate|discriminate]
       |apply Forall_app; apply Forall_app in Hnb; tauto].
    rewrite gitBlocks_pair by assumption.
    cbn [flat_map]. rewrite EA, EB. reflexivity.
  - exact stripPrefix_prefixed.
Qed.

Lemma multi_file_split_witness :
  splitMultiFileGitDiffToEdits
    (textOf (["diff --git a/src/a.ts b/src/a.ts"; "index 1..2 100644";
              "--- a/src/a.ts"; "+++ b/src/a.ts"; "@@ -1 +1 @@"; "-x"; "+y"]
             ++ ["diff --git a/old.ts b/old.ts"; "deleted file mode 100644";
                 "--- a/old.ts"; "+++ b/old.ts"; "@@ -1 +0,0 @@"; "-gone"]))
  = [opPatch "src/a.ts"
       (textOf ["diff --git a/src/a.ts b/src/a.ts"; "index 1..2 100644";
                "--- a/src/a.ts"; "+++ b/src/a.ts"; "@@ -1 +1 @@"; "-x"; "+y"]);
     opDelete "old.ts"].
Proof.
  refine (proj1 (multi_file_split
            ["diff --git a/src/a.ts b/src/a.ts"; "index 1..2 100644";
             "--- a/src/a.ts"; "+++ b/src/a.ts"; "@@ -1 +1 @@"; "-x"; "+y"]
            ["diff --git a/old.ts b/old.ts"; "deleted file mode 100644";
             "--- a/old.ts"; "+++ b/old.ts"; "@@ -1 +0,0 @@"; "-gone"]
            "src/a.ts" "old.ts" _ _ _ _ _ _ _ _ _ _ _));
    try (vm_compute; reflexivity).
  repeat constructor.
Defined.

(** C8 as it is claimed fails.  (1) The second block is what git writes
    when an empty file is deleted: it is marked [deleted file mode] and
    has no [---] and [+++] lines.  The splitter finds no path in it and
    drops it; one operation comes out, not two.  (2) Where the deleted file
    holds a line that starts with [-- ], the hunk line [--- comment] is
    read as the header of the old path: the file [s.sql] is deleted under
    the path [comment].  (3) A block with hunks that says [rename from] and
    [rename to] yields a Rename and a Patch: three operations come out.
    (4) Of two blocks of deleted files, both marked and both with hunks,
    two Deletes come out and no Patch. *)
Lemma multi_file_split_counterexample :
  (gitBlocks (splitLines
     (textOf ["diff --git a/src/a.ts b/src/a.ts";
              "--- a/src/a.ts"; "+++ b/src/a.ts"; "@@ -1 +1 @@"; "-x"; "+y";
              "diff --git a/empty.txt b/empty.txt"; "deleted file mode 100644";
              "index e69de29..0000000"]))
   = [["diff --git a/src/a.ts b/src/a.ts";
       "--- a/src/a.ts"; "+++ b/src/a.ts"; "@@ -1 +1 @@"; "-x"; "+y"];
      ["diff --git a/empty.txt b/empty.txt"; "deleted file mode 100644";
       "index e69de29..0000000"]] /\
   splitMultiFileGitDiffToEdits
     (textOf ["diff --git a/src/a.ts b/src/a.ts";
              "--- a/src/a.ts"; "+++ b/src/a.ts"; "@@ -1 +1 @@"; "-x"; "+y";
              "diff --git a/empty.txt b/empty.txt"; "deleted file mode 100644";
              "index e69de29..0000000"])
   = [opPatch "src/a.ts"
        (textOf ["diff --git a/src/a.ts b/src/a.ts";
                 "--- a/src/a.ts"; "+++ b/src/a.ts"; "@@ -1 +1 @@"; "-x"; "+y"])])
  /\
  splitMultiFileGitDiffToEdits
    (textOf ["diff --git a/src/a.ts b/src/a.ts";
             "--- a/src/a.ts"; "+++ b/src/a.ts"; "@@ -1 +1 @@"; "-x"; "+y";
             "diff --git a/s.sql b/s.sql"; "deleted file mode 100644";
             "--- a/s.sql"; "+++ /dev/null"; "@@ -1,2 +0,0 @@";
             "--- comment"; "-select 1;"])
  = [opPatch "src/a.ts"
       (textOf ["diff --git a/src/a.ts b/src/a.ts";
                "--- a/src/a.ts"; "+++ b/src/a.ts"; "@@ -1 +1 @@"; "-x"; "+y"]);
     opDelete "comment"]
  /\
  splitMultiFileGitDiffToEdits
    (textOf ["diff --git a/old.ts b/new.ts"; "similarity index 90%";
             "rename from old.ts"; "rename to new.ts";
             "--- a/old.ts"; "+++ b/new.ts"; "@@ -1 +1 @@"; "-x"; "+y";
             "diff --git a/gone.ts b/gone.ts"; "deleted file mode 100644";
             "--- a/gone.ts"; "+++ /dev/null"; "@@ -1 +0,0 @@"; "-z"])
  = [opRename "old.ts" "new.ts";
     opPatch "new.ts"
       (textOf ["diff --git a/old.ts b/new.ts"; "similarity index 90%";
                "rename from old.ts"; "rename to new.ts";
                "--- a/old.ts"; "+++ b/new.ts"; "@@ -1 +1 @@"; "-x"; "+y"]);
     opDelete "gone.ts"]
  /\
  splitMultiFileGitDiffToEdits
    (textOf ["diff --git a/one.ts b/one.ts"; "deleted file mode 100644";
             "--- a/one.ts"; "+++ /dev/null"; "@@ -1 +0,0 @@"; "-x";
             "diff --git a/two.ts b/two.ts"; "deleted file mode 100644";
             "--- a/two.ts"; "+++ /dev/null"; "@@ -1 +0,0 @@"; "-z"])
  = [opDelete "one.ts"; opDelete "two.ts"].
Proof. repeat split; vm_compute; reflexivity. Qed.

(** The differ on small inputs.  The maps saved in [trace] are those of the
    rounds themselves, so the backtracking reads diagonals of the wrong
    parity and falls back on 0: the steps it writes down are as many as the
    edit distance, but they need not lead from the one text to the other. *)
Example diffLines_equal :
  diffLines (textOf ["p"; "q"]) (textOf ["p"; "q"])
  = [mkLineOp ctx (Some "p"); mkLineOp ctx (Some "q")].
Proof. vm_compute. reflexivity. Qed.

Example diffLines_one_line :
  diffLines "x" "y" = [mkLineOp add (Some "y"); mkLineOp del (Some "x")].
Proof. vm_compute. reflexivity. Qed.

Example diffLines_last_line_changed :
  diffLines (textOf ["p"; "x"]) (textOf ["p"; "y"])
  = [mkLineOp add (Some "p"); mkLineOp del (Some "p"); mkLineOp ctx (Some "x")].
Proof. vm_compute. reflexivity. Qed.

Example computeStats_two_lines_removed :
  computeStats [mkChangeFile fk_write "a" (Some (textOf ["p"; "q"; "r"])) (Some "p")]
  = mkStats 1 1 1.
Proof. vm_compute. reflexivity. Qed.

(** ** [trim] is idempotent *)

Section TrimFacts.
Import Js JsFacts.

Lemma prefix_split (t s : string) :
  startsWith t s = true -> s = t +:+ drop (String.length t) s.
Proof.
  revert s. induction t as [|c t IH]; intros s H; [reflexivity|].
  apply startsWith_inv in H. destruct H as (s' & -> & H).
  change (String c s' = String c (t +:+ drop (String.length t) s')).
  f_equal. apply IH. exact H.
Qed.

Lemma length_app_string (s t : string) :
  String.length (s +:+ t) = (String.length s + String.length t)%nat.
Proof.
  induction s as [|c s IH]; [reflexivity|].
  change (S (String.length (s +:+ t)) = S (String.length s + String.length t)).
  f_equal. exact IH.
Qed.

Lemma wsTokens_nonempty : forallb nonEmpty wsTokens = true.
Proof. vm_compute. reflexivity. Qed.

Lemma dropWs1_Some (s r : string) :
  dropWs1 s = Some r ->
  exists t, In t wsTokens /\ t <> EmptyString /\ startsWith t s = true /\ s = t +:+ r.
Proof.
  unfold dropWs1. intros H.
  destruct (List.find (fun t => startsWith t s) wsTokens) as [t|] eqn:Hf; [|discriminate].
  inversion H; subst r. apply find_some in Hf. destruct Hf as [Hin Hp].
  exists t. split; [exact Hin|]. split; [|split; [exact Hp|apply prefix_split; exact Hp]].
  pose proof wsTokens_nonempty as Hne. rewrite forallb_forall in Hne.
  specialize (Hne t Hin). destruct t; [discriminate|discriminate].
Qed.

Lemma dropWs1_shorter (s r : string) :
  dropWs1 s = Some r -> (String.length r < String.length s)%nat.
Proof.
  intros H. apply dropWs1_Some in H. destruct H as (t & _ & Hne & _ & ->).
  rewrite length_app_string. destruct t; [congruence|]. simpl. lia.
Qed.

Lemma dropWs1_None_prefix (s t : string) :
  dropWs1 s = None -> In t wsTokens -> startsWith t s = false.
Proof.
  unfold dropWs1. intros H Hin.
  destruct (List.find (fun t => startsWith t s) wsTokens) eqn:Hf; [discriminate|].
  exact (find_none _ _ Hf t Hin).
Qed.

Lemma trimStartN_done (n : nat) (s : string) :
  (String.length s <= n)%nat -> dropWs1 (trimStartN n s) = None.
Proof.
  revert s. induction n as [|n IH]; intros s Hl.
  - destruct s; [reflexivity|simpl in Hl; lia].
  - simpl. destruct (dropWs1 s) as [r|] eqn:Hd; [|exact Hd].
    apply IH. apply dropWs1_shorter in Hd. lia.
Qed.

Lemma trimStart_done (s : string) : dropWs1 (trimStart s) = None.
Proof. apply trimStartN_done. lia. Qed.

(** Running the loop of [trimStart] with more fuel than needed. *)
Lemma trimStartN_fuel (n : nat) :
  forall m s, (String.length s <= n)%nat -> (String.length s <= m)%nat ->
    trimStartN n s = trimStartN m s.
Proof.
  induction n as [|n IH]; intros m s Hn Hm.
  - destruct s; [destruct m; reflexivity|simpl in Hn; lia].
  - destruct m as [|m]; [destruct s; [reflexivity|simpl in Hm; lia]|].
    cbn [trimStartN]. destruct (dropWs1 s) as [r|] eqn:Hd; [|reflexivity].
    pose proof (dropWs1_shorter _ _ Hd) as Hr. apply IH; lia.
Qed.

Lemma trimStartN_enough (n : nat) (s : string) :
  (String.length s <= n)%nat -> trimStartN n s = trimStart s.
Proof. intros H. apply trimStartN_fuel; [exact H|lia]. Qed.

Lemma trimStart_step (s r : string) :
  dropWs1 s = Some r -> trimStart s = trimStart r.
Proof.
  intros H. pose proof (dropWs1_shorter _ _ H) as Hl.
  unfold trimStart at 1. destruct s as [|c s]; [simpl in Hl; lia|].
  cbn [String.length trimStartN]. rewrite H.
  apply trimStartN_enough. simpl in Hl. lia.
Qed.

(** Two strings that start the same text are comparable. *)
Lemma prefix_comparable (t t' s : string) :
  startsWith t s = true -> startsWith t' s = true ->
  startsWith t t' = true \/ startsWith t' t = true.
Proof.
  revert t' s. induction t as [|c t IH]; intros t' s H H'.
  - left. apply startsWith_nil.
  - destruct t' as [|c' t']; [right; apply startsWith_nil|].
    apply startsWith_inv in H. destruct H as (s1 & -> & H).
    apply startsWith_inv in H'. destruct H' as (s2 & E & H').
    inversion E; subst c' s2.
    rewrite !startsWith_cons. eapply IH; eassumption.
Qed.

(** No white-space token starts another one. *)
Lemma wsTokens_prefix_free :
  forallb (fun t => forallb (fun t' => implb (startsWith t t') (String.eqb t t')) wsTokens)
          wsTokens = true.
Proof. vm_compute. reflexivity. Qed.

Lemma wsTokens_unique (t t' s : string) :
  In t wsTokens -> In t' wsTokens ->
  startsWith t s = true -> startsWith t' s = true -> t = t'.
Proof.
  intros Hin Hin' H H'.
  pose proof wsTokens_prefix_free as Hpf. rewrite forallb_forall in Hpf.
  destruct (prefix_comparable t t' s H H') as [Hc|Hc].
  - specialize (Hpf t Hin). rewrite forallb_forall in Hpf.
    specialize (Hpf t' Hin'). rewrite Hc in Hpf. apply String.eqb_eq. exact Hpf.
  - specialize (Hpf t' Hin'). rewrite forallb_forall in Hpf.
    specialize (Hpf t Hin). rewrite Hc in Hpf. symmetry. apply String.eqb_eq. exact Hpf.
Qed.

Lemma app_inv_head_string (t r r' : string) : t +:+ r = t +:+ r' -> r = r'.
Proof.
  induction t as [|c t IH]; intros H; [exact H|].
  change (String c (t +:+ r) = String c (t +:+ r')) in H. inversion H. auto.
Qed.


Lemma dropWs1_app (s r y : string) :
  dropWs1 s = Some r -> dropWs1 (s +:+ y) = Some (r +:+ y).
Proof.
  intros H. apply dropWs1_Some in H. destruct H as (t & Hin & Hne & Hp & ->).
  destruct (dropWs1 ((t +:+ r) +:+ y)) as [r'|] eqn:Hd.
  - apply dropWs1_Some in Hd. destruct Hd as (t' & Hin' & _ & Hp' & E).
    assert (t = t').
    { apply (wsTokens_unique t t' ((t +:+ r) +:+ y)); auto.
      apply startsWith_app. exact Hp. }
    subst t'. rewrite app_assoc_string in E. apply app_inv_head_string in E.
    congruence.
  - pose proof (dropWs1_None_prefix _ t Hd Hin) as Hf.
    rewrite (startsWith_app _ _ y Hp) in Hf. discriminate.
Qed.

Lemma allWs_app (x y : string) :
  allWs x = true -> allWs y = true -> allWs (x +:+ y) = true.
Proof.
  unfold allWs. intros Hx Hy. apply String.eqb_eq in Hx.
  remember (String.length x) as n eqn:Hn.
  revert x Hn Hx. induction n as [n IH] using lt_wf_ind. intros x Hn Hx.
  destruct (dropWs1 x) as [r|] eqn:Hd.
  - rewrite (trimStart_step _ _ (dropWs1_app _ _ y Hd)).
    apply (IH (String.length r)); [|reflexivity|].
    + apply dropWs1_shorter in Hd. lia.
    + rewrite <- Hx. symmetry. apply trimStart_step. exact Hd.
  - rewrite trimStart_fixed in Hx by exact Hd. subst x. exact Hy.
Qed.

Lemma trimEnd_split (s : string) :
  exists r, s = trimEnd s +:+ r /\ allWs r = true.
Proof.
  induction s as [|c s (r & Hs & Hr)].
  - exists EmptyString. split; reflexivity.
  - cbn [trimEnd]. destruct (allWs (String c s)) eqn:Ha.
    + exists (String c s). split; [reflexivity|exact Ha].
    + exists r. split; [|exact Hr].
      change (String c s = String c (trimEnd s +:+ r)). f_equal. exact Hs.
Qed.

Lemma trimEnd_idem (s : string) : trimEnd (trimEnd s) = trimEnd s.
Proof.
  induction s as [|c s IH]; [reflexivity|].
  cbn [trimEnd]. destruct (allWs (String c s)) eqn:Ha; [reflexivity|].
  cbn [trimEnd]. destruct (allWs (String c (trimEnd s))) eqn:Hb.
  - destruct (trimEnd_split s) as (r & Hs & Hr).
    pose proof (allWs_app _ _ Hb Hr) as Hc.
    change (String c (trimEnd s) +:+ r) with (String c (trimEnd s +:+ r)) in Hc.
    rewrite <- Hs in Hc. congruence.
  - rewrite IH. reflexivity.
Qed.

Theorem trim_idem (s : string) : trim (trim s) = trim s.
Proof.
  unfold trim.
  assert (Hfix : trimStart (trimEnd (trimStart s)) = trimEnd (trimStart s)).
  { apply trimStart_fixed.
    destruct (dropWs1 (trimEnd (trimStart s))) as [r|] eqn:Hd; [|reflexivity].
    apply dropWs1_Some in Hd. destruct Hd as (t & Hin & _ & Hp & _).
    destruct (trimEnd_split (trimStart s)) as (w & Hs & _).
    pose proof (dropWs1_None_prefix _ t (trimStart_done s) Hin) as Hf.
    rewrite Hs in Hf. rewrite (startsWith_app _ _ w Hp) in Hf. discriminate. }
  rewrite Hfix. apply trimEnd_idem.
Qed.

End TrimFacts.

(** ** Repeated operations in the builder *)

Section BuilderFacts.

Variable env : BuildEnv.

Lemma firstWith_more (done more : list AiEditOp) (key : string) (f : ChangeFile) :
  firstWith env done key f -> firstWith env (done ++ more) key f.
Proof.
  intros (pre & e & post & -> & He & Hpre).
  exists pre, e, (post ++ more). split; [|split; assumption].
  rewrite <- app_assoc. reflexivity.
Qed.

Lemma buildStep_inv (done : list AiEditOp) (acc acc' : list ChangeFile * gset string)
    (e : AiEditOp) :
  buildInv env done acc -> buildStep env acc e = Ok acc' -> buildInv env (done ++ [e]) acc'.
Proof.
  intros (keys & Hnd & Hf2 & Hseen & Hall) Hstep. unfold buildStep in Hstep.
  assert (Hmono : Forall2 (firstWith env (done ++ [e])) keys (fst acc)).
  { eapply Forall2_impl; [exact Hf2|]. intros k f. apply firstWith_more. }
  destruct (fileOf env e) as [[key r]|] eqn:Hfe.
  - destruct (decide (key ∈ snd acc)) as [Hin|Hnin].
    + inversion Hstep; subst acc'. exists keys. repeat split; auto.
      * apply Hseen.
      * apply Hseen.
      * intros e' k r' Hine Hk. apply in_app_or in Hine.
        destruct Hine as [Hine|[<-|[]]]; [eapply Hall; eassumption|].
        rewrite Hfe in Hk. inversion Hk; subst. apply Hseen. exact Hin.
    + destruct r as [f|err]; [|discriminate]. cbn [rbind] in Hstep.
      inversion Hstep; subst acc'. cbn [fst snd].
      assert (Hk : key ∉ keys) by (intros H; apply Hnin, Hseen, H).
      exists (keys ++ [key]). split; [|split; [|split]].
      * apply NoDup_app. split; [exact Hnd|]. split; [|apply NoDup_singleton].
        intros x Hx Hx'. apply list_elem_of_singleton in Hx'. subst x. exact (Hk Hx).
      * apply Forall2_app; [exact Hmono|]. constructor; [|constructor].
        exists done, e, []. split; [reflexivity|]. split; [exact Hfe|].
        apply List.Forall_forall. intros e' Hin' Heq.
        destruct (fileOf env e') as [[k' r']|] eqn:Hfe'; [|discriminate].
        cbn in Heq. inversion Heq; subst k'.
        exact (Hk (Hall _ _ _ Hin' Hfe')).
      * intros k. cbn [fst snd]. rewrite elem_of_app, list_elem_of_singleton. split.
        -- intros H. apply elem_of_union in H. destruct H as [H|H].
           ++ right. apply elem_of_singleton in H. exact H.
           ++ left. apply Hseen. exact H.
        -- intros [H|H]; apply elem_of_union.
           ++ right. apply Hseen. exact H.
           ++ left. apply elem_of_singleton. exact H.
      * intros e' k r' Hine Hke. apply elem_of_app. apply in_app_or in Hine.
        destruct Hine as [Hine|[<-|[]]]; [left; eapply Hall; eassumption|].
        rewrite Hfe in Hke. inversion Hke; subst. right. apply list_elem_of_singleton.
        reflexivity.
  - inversion Hstep; subst acc'. exists keys. repeat split; auto.
    + apply Hseen.
    + apply Hseen.
    + intros e' k r' Hine Hk. apply in_app_or in Hine.
      destruct Hine as [Hine|[<-|[]]]; [eapply Hall; eassumption|].
      rewrite Hfe in Hk. discriminate.
Qed.

Lemma buildLoop_inv (edits : list AiEditOp) :
  forall done acc acc',
    buildInv env done acc -> buildLoop env edits acc = Ok acc' ->
    buildInv env (done ++ edits) acc'.
Proof.
  induction edits as [|e edits IH]; intros done acc acc' Hinv Hloop.
  - rewrite app_nil_r. inversion Hloop; subst. exact Hinv.
  - cbn [buildLoop] in Hloop.
    destruct (buildStep env acc e) as [acc1|err] eqn:Hs; [|discriminate].
    cbn [rbind] in Hloop.
    replace (done ++ e :: edits) with ((done ++ [e]) ++ edits)
      by (rewrite <- app_assoc; reflexivity).
    eapply IH; [|exact Hloop]. eapply buildStep_inv; eassumption.
Qed.

Lemma buildInv_start : buildInv env [] ([], ∅).
Proof.
  exists []. split; [constructor|]. split; [constructor|]. split.
  - intros k. split; intros H; [apply elem_of_empty in H|apply elem_of_nil in H]; contradiction.
  - intros e k r [].
Qed.

End BuilderFacts.

(** C4 (deduplication), as the code has it.  The files of a built change
    set correspond one to one, in order, to the distinct keys (operation
    kind and path) of the operations that contribute a file; the file of a
    key is the one built from the FIRST operation with that key, and later
    operations with the same key leave no trace in the files. *)
Theorem changeset_dedup_first_wins
    (env : BuildEnv) (id : string) (edits : list AiEditOp) :
  match buildChangeSet env id edits with
  | Err _ => True
  | Ok cs =>
      exists keys : list string,
        NoDup keys /\
        Forall2 (firstWith env edits) keys (cs_files cs) /\
        (forall e k r, In e edits -> fileOf env e = Some (k, r) -> k ∈ keys)
  end
  /\ (exists cs,
        buildChangeSet env id [opWrite "a.ts" "first"; opWrite "a.ts" "last"] = Ok cs /\
        cs_files cs
        = [mkChangeFile fk_write "a.ts" (readBefore env "a.ts") (Some "first")]).
Proof.
  split.
  - unfold buildChangeSet.
    destruct (buildLoop env edits ([], ∅)) as [acc|err] eqn:Hl; [|exact I].
    cbn [rbind cs_files].
    destruct (buildLoop_inv env edits [] _ _ (buildInv_start env) Hl)
      as (keys & Hnd & Hf2 & _ & Hall).
    exists keys. auto.
  - exists (mkChangeSet id [opWrite "a.ts" "first"; opWrite "a.ts" "last"]
              [mkChangeFile fk_write "a.ts" (readBefore env "a.ts") (Some "first")]
              (computeStats
                 [mkChangeFile fk_write "a.ts" (readBefore env "a.ts") (Some "first")])
              false).
    split; reflexivity.
Qed.

(** C4 as it is claimed fails: of two writes of [a.ts] the file of the
    change set holds the content of the first, not of the last. *)
Lemma changeset_dedup_counterexample :
  option_map cs_files
    (match buildChangeSet (mkBuildEnv [] ∅) "id"
             [opWrite "a.ts" "first"; opWrite "a.ts" "last"] with
     | Ok cs => Some cs
     | Err _ => None
     end)
  = Some [mkChangeFile fk_write "a.ts" None (Some "first")].
Proof. vm_compute. reflexivity. Qed.

(** ** Rejecting all after accepting all *)

Section RevertFacts.

Lemma trimmedPath_Some (o : option string) (p : string) :
  trimmedPath o = Some p -> trimmedPath (Some p) = Some p.
Proof.
  destruct o as [s|]; [|discriminate]. unfold trimmedPath.
  destruct (nonEmpty (Js.trim s)) eqn:Hne; [|discriminate].
  intros H; inversion H; subst p. rewrite trim_idem, Hne. reflexivity.
Qed.

Lemma viewOf_cases (e : AiEditOp) :
  match viewOf e with
  | VWrite p c =>
      Js.toLowerCase (e_op e) = "write" /\ trimmedPath (e_path e) = Some p /\
      c = default EmptyString (e_content e)
  | VDelete p =>
      Js.toLowerCase (e_op e) = "delete" /\ trimmedPath (e_path e) = Some p
  | VRename f t =>
      Js.toLowerCase (e_op e) = "rename" /\
      trimmedPath (e_from e) = Some f /\ trimmedPath (e_to e) = Some t
  | VNone => True
  end.
Proof.
  unfold viewOf.
  destruct (String.eqb_spec (Js.toLowerCase (e_op e)) "run"); [exact I|].
  destruct (String.eqb_spec (Js.toLowerCase (e_op e)) "write").
  { destruct (trimmedPath (e_path e)); [auto|exact I]. }
  destruct (String.eqb_spec (Js.toLowerCase (e_op e)) "patch"); [exact I|].
  destruct (String.eqb_spec (Js.toLowerCase (e_op e)) "delete").
  { destruct (trimmedPath (e_path e)); [auto|exact I]. }
  destruct (String.eqb_spec (Js.toLowerCase (e_op e)) "rename"); [|exact I].
  destruct (trimmedPath (e_from e)); [|exact I].
  destruct (trimmedPath (e_to e)); [auto|exact I].
Qed.

(** The builder and the applier read an edit as its view says. *)
Lemma fileOf_view (env : BuildEnv) (e : AiEditOp) :
  viewOf e <> VNone ->
  exists k, opKey e = Some k /\ fileOf env e = Some (k, Ok (fileFor env e)).
Proof.
  intros Hv. pose proof (viewOf_cases e) as Hc.
  unfold opKey, fileFor, fileOf.
  destruct (viewOf e) as [p c|p|f t|]; [| | |congruence].
  - destruct Hc as (Hop & Hp & ->). rewrite Hop, Hp. cbn. eauto.
  - destruct Hc as (Hop & Hp). rewrite Hop, Hp. cbn. eauto.
  - destruct Hc as (Hop & Hf & Ht). rewrite Hop, Hf, Ht. cbn. eauto.
Qed.

Lemma applyEdit_view (fs : gmap string string) (e : AiEditOp) :
  match viewOf e with
  | VWrite p c => applyEdit fs e = Workspace.writeFile fs p c
  | VDelete p => applyEdit fs e = Workspace.deleteFile fs p
  | VRename f t => applyEdit fs e = Workspace.renamePath fs f t
  | VNone => True
  end.
Proof.
  pose proof (viewOf_cases e) as Hc. unfold applyEdit.
  destruct (viewOf e) as [p c|p|f t|]; [| | |exact I].
  - destruct Hc as (Hop & Hp & ->). rewrite Hop, Hp. reflexivity.
  - destruct Hc as (Hop & Hp). rewrite Hop, Hp. reflexivity.
  - destruct Hc as (Hop & Hf & Ht). rewrite Hop, Hf, Ht. reflexivity.
Qed.

Lemma viewOf_opWrite (p c : string) :
  trimmedPath (Some p) = Some p -> viewOf (opWrite p c) = VWrite p c.
Proof.
  intros H. unfold viewOf, opWrite. cbn [e_op e_path e_content e_from e_to].
  rewrite H. reflexivity.
Qed.

Lemma viewOf_opDelete (p : string) :
  trimmedPath (Some p) = Some p -> viewOf (opDelete p) = VDelete p.
Proof.
  intros H. unfold viewOf, opDelete. cbn [e_op e_path e_content e_from e_to].
  rewrite H. reflexivity.
Qed.

Lemma viewOf_opRename (f t : string) :
  trimmedPath (Some f) = Some f -> trimmedPath (Some t) = Some t ->
  viewOf (opRename f t) = VRename f t.
Proof.
  intros Hf Ht. unfold viewOf, opRename. cbn [e_op e_path e_content e_from e_to].
  rewrite Hf, Ht. reflexivity.
Qed.

Lemma applyLoop_app (fs : gmap string string) (l1 l2 : list AiEditOp) :
  applyLoop fs (l1 ++ l2)
  = match applyLoop fs l1 with
    | (fs', None) => applyLoop fs' l2
    | (fs', Some err) => (fs', Some err)
    end.
Proof.
  revert fs. induction l1 as [|e l1 IH]; intros fs; [reflexivity|].
  cbn [app applyLoop]. destruct (applyEdit fs e) as [fs1|err]; [apply IH|reflexivity].
Qed.

(** One edit and its inverse. *)
Lemma edit_round (S : gmap string string) (e : AiEditOp) :
  revertible S e ->
  exists S1,
    applyEdit S e = Ok S1 /\
    applyLoop S1 (inverseOps S e) = (S, None) /\
    forall p, p ∉ touched e -> S1 !! p = S !! p.
Proof.
  unfold revertible, inverseOps, touched.
  pose proof (applyEdit_view S e) as Hap. pose proof (viewOf_cases e) as Hc.
  destruct (viewOf e) as [p c|p|f t|]; [| | |contradiction].
  - intros _. destruct Hc as (_ & Hp & _). apply trimmedPath_Some in Hp.
    exists (<[p := c]> S). split; [exact Hap|]. split.
    + destruct (S !! p) as [b|] eqn:Hb; cbn [applyLoop].
      * pose proof (applyEdit_view (<[p := c]> S) (opWrite p b)) as H.
        rewrite (viewOf_opWrite p b Hp) in H. rewrite H.
        unfold Workspace.writeFile. rewrite insert_insert_eq, (insert_id S p b Hb).
        reflexivity.
      * pose proof (applyEdit_view (<[p := c]> S) (opDelete p)) as H.
        rewrite (viewOf_opDelete p Hp) in H. rewrite H.
        unfold Workspace.deleteFile. rewrite lookup_insert_eq, delete_insert_eq.
        rewrite (delete_id S p Hb). reflexivity.
    + intros q Hq. apply lookup_insert_ne. intros ->. apply Hq. left.
  - intros [b Hb]. destruct Hc as (_ & Hp). apply trimmedPath_Some in Hp.
    exists (delete p S). split; [rewrite Hap; unfold Workspace.deleteFile; rewrite Hb; reflexivity|].
    split.
    + rewrite Hb. cbn [applyLoop].
      pose proof (applyEdit_view (delete p S) (opWrite p b)) as H.
      rewrite (viewOf_opWrite p b Hp) in H. rewrite H.
      unfold Workspace.writeFile. rewrite insert_delete_eq, (insert_id S p b Hb).
      reflexivity.
    + intros q Hq. apply lookup_delete_ne. intros ->. apply Hq. left.
  - intros ([c Hf] & Ht & _). destruct Hc as (_ & Hpf & Hpt).
    apply trimmedPath_Some in Hpf. apply trimmedPath_Some in Hpt.
    assert (Hne : f <> t) by (intros ->; congruence).
    exists (<[t := c]> (delete f S)). split;
      [rewrite Hap; unfold Workspace.renamePath; rewrite Hf; reflexivity|].
    split.
    + cbn [applyLoop].
      pose proof (applyEdit_view (<[t := c]> (delete f S)) (opRename t f)) as H.
      rewrite (viewOf_opRename t f Hpt Hpf) in H. rewrite H.
      unfold Workspace.renamePath. rewrite lookup_insert_eq, delete_insert_eq.
      rewrite (delete_id (delete f S) t) by (rewrite lookup_delete_ne by exact Hne; exact Ht).
      rewrite insert_delete_eq, (insert_id S f c Hf). reflexivity.
    + intros q Hq.
      rewrite lookup_insert_ne by (intros ->; apply Hq; right; left).
      apply lookup_delete_ne. intros ->. apply Hq. left.
Qed.

Lemma revertible_agree (S S1 : gmap string string) (e : AiEditOp) :
  (forall p, p ∈ touched e -> S1 !! p = S !! p) ->
  revertible S e -> revertible S1 e.
Proof.
  unfold revertible, touched. destruct (viewOf e) as [p c|p|f t|]; intros Hag H; auto.
  - rewrite Hag by left. exact H.
  - rewrite !Hag by (first [left|right; left]). exact H.
Qed.

Lemma inverseOps_agree (S S1 : gmap string string) (e : AiEditOp) :
  (forall p, p ∈ touched e -> S1 !! p = S !! p) ->
  inverseOps S1 e = inverseOps S e.
Proof.
  unfold inverseOps, touched. destruct (viewOf e) as [p c|p|f t|]; intros Hag; auto.
  - rewrite Hag by left. reflexivity.
  - rewrite Hag by left. reflexivity.
Qed.

Lemma flat_map_agree (S S1 : gmap string string) (l : list AiEditOp) :
  (forall e p, e ∈ l -> p ∈ touched e -> S1 !! p = S !! p) ->
  flat_map (inverseOps S1) l = flat_map (inverseOps S) l.
Proof.
  induction l as [|e l IH]; intros H; [reflexivity|].
  cbn [flat_map]. rewrite IH by (intros e' p He' Hp; apply (H e' p); [right; exact He'|exact Hp]).
  rewrite (inverseOps_agree S S1 e) by (intros p Hp; apply (H e p); [left|exact Hp]).
  reflexivity.
Qed.

(** Edits on pairwise distinct paths, applied and then undone from the last
    to the first, leave the files as they were. *)
Lemma edits_round (edits : list AiEditOp) :
  forall S,
    Forall (revertible S) edits ->
    NoDup (flat_map touched edits) ->
    exists S',
      applyLoop S edits = (S', None) /\
      applyLoop S' (flat_map (inverseOps S) (rev edits)) = (S, None) /\
      forall p, p ∉ flat_map touched edits -> S' !! p = S !! p.
Proof.
  induction edits as [|e edits IH]; intros S Hall Hnd.
  - exists S. repeat split; reflexivity.
  - apply Forall_cons in Hall. destruct Hall as [He Hall].
    cbn [flat_map] in Hnd. apply NoDup_app in Hnd. destruct Hnd as (Hnde & Hdisj & Hnd).
    destruct (edit_round S e He) as (S1 & Hap & Hback & Hframe).
    assert (Hag : forall e' p, e' ∈ edits -> p ∈ touched e' -> S1 !! p = S !! p).
    { intros e' p He' Hp. apply Hframe. intros Hpe.
      apply (Hdisj p Hpe). apply list_elem_of_In, in_flat_map.
      exists e'. split; apply list_elem_of_In; assumption. }
    assert (Hall1 : Forall (revertible S1) edits).
    { apply Forall_forall. intros e' He'.
      apply (revertible_agree S S1); [intros p Hp; apply (Hag e' p He' Hp)|].
      rewrite Forall_forall in Hall. apply Hall. exact He'. }
    destruct (IH S1 Hall1 Hnd) as (S' & Hfw & Hbw & Hfr).
    exists S'. split; [|split].
    + cbn [applyLoop]. rewrite Hap. exact Hfw.
    + cbn [rev]. rewrite flat_map_app, applyLoop_app.
      rewrite <- (flat_map_agree S S1 (rev edits))
        by (intros e' p He' Hp; apply (Hag e' p);
            [apply list_elem_of_In, in_rev, list_elem_of_In; exact He'|exact Hp]).
      rewrite Hbw. cbn [flat_map]. rewrite app_nil_r. exact Hback.
    + intros p Hp. cbn [flat_map] in Hp.
      rewrite Hfr by (intros H; apply Hp, elem_of_app; right; exact H).
      apply Hframe. intros H. apply Hp, elem_of_app. left. exact H.
Qed.

(** With pairwise distinct keys nothing is skipped by the builder. *)
Lemma buildLoop_distinct (env : BuildEnv) (edits : list AiEditOp) :
  forall files0 seen0,
    Forall (fun e => viewOf e <> VNone) edits ->
    NoDup (omap opKey edits) ->
    (forall k, k ∈ omap opKey edits -> k ∉ seen0) ->
    exists seen',
      buildLoop env edits (files0, seen0)
      = Ok (files0 ++ map (fileFor env) edits, seen').
Proof.
  induction edits as [|e edits IH]; intros files0 seen0 Hall Hnd Hfresh.
  - exists seen0. cbn. rewrite app_nil_r. reflexivity.
  - apply Forall_cons in Hall. destruct Hall as [He Hall].
    destruct (fileOf_view env e He) as (k & Hk & Hf).
    cbn [omap list_omap] in Hnd, Hfresh. rewrite Hk in Hnd, Hfresh.
    apply NoDup_cons in Hnd. destruct Hnd as [Hkn Hnd].
    cbn [buildLoop]. unfold buildStep. rewrite Hf. cbn [snd fst].
    destruct (decide (k ∈ seen0)) as [Hin|_];
      [exfalso; exact (Hfresh k ltac:(left) Hin)|].
    cbn [rbind].
    destruct (IH (files0 ++ [fileFor env e]) ({[k]} ∪ seen0) Hall Hnd) as (seen' & Hl).
    + intros k' Hk' Hin. apply elem_of_union in Hin. destruct Hin as [Hin|Hin].
      * apply elem_of_singleton in Hin. subst k'. exact (Hkn Hk').
      * exact (Hfresh k' ltac:(right; exact Hk') Hin).
    + exists seen'. rewrite Hl, <- app_assoc. reflexivity.
Qed.

Lemma revertOp_fileFor (env : BuildEnv) (S : gmap string string) (e : AiEditOp) :
  (forall p, readBefore env p = S !! p) ->
  revertible S e ->
  revertOp (fileFor env e) = inverseOps S e.
Proof.
  intros Hread. unfold revertible, revertOp, fileFor, inverseOps.
  destruct (viewOf e) as [p c|p|f t|]; cbn [cf_kind cf_before cf_path].
  - intros _. rewrite Hread. reflexivity.
  - intros _. rewrite Hread. reflexivity.
  - intros (_ & _ & ->). reflexivity.
  - contradiction.
Qed.

Lemma revertOps_map (env : BuildEnv) (S : gmap string string) (edits : list AiEditOp) :
  (forall p, readBefore env p = S !! p) ->
  Forall (revertible S) edits ->
  revertOps (map (fileFor env) edits) = flat_map (inverseOps S) (rev edits).
Proof.
  intros Hread Hall. unfold revertOps. rewrite <- map_rev.
  assert (Hrev : Forall (revertible S) (rev edits)).
  { apply Forall_forall. intros e He. rewrite Forall_forall in Hall. apply Hall.
    apply list_elem_of_In, in_rev, list_elem_of_In. exact He. }
  induction (rev edits) as [|e l IH]; [reflexivity|].
  apply Forall_cons in Hrev. destruct Hrev as [He Hl].
  cbn [map flat_map]. rewrite (revertOp_fileFor env S e Hread He), (IH Hl).
  reflexivity.
Qed.

Lemma applyAiEditsNow_loop (root : option string) (fs : gmap string string)
    (edits : list AiEditOp) :
  truthy root = true -> applyAiEditsNow root fs edits = applyLoop fs edits.
Proof.
  intros H. unfold applyAiEditsNow. rewrite H. destruct edits; reflexivity.
Qed.

Lemma revertible_view (S : gmap string string) (e : AiEditOp) :
  revertible S e -> viewOf e <> VNone.
Proof. unfold revertible. intros H Hv. rewrite Hv in H. exact H. Qed.

End RevertFacts.

(** C2 (revert inverts apply), as the code has it.  Let the edits be
    writes, deletes of existing files and renames of existing files to free
    paths, let no path be touched by two of them (and no two of them share
    a builder key), let the label of every rename split back into its two
    paths, and let the workspace [S] hold what the builder reads as before
    contents.  Then the change set is built, accepting all applies it,
    and rejecting all afterwards brings the files back to [S] and retires
    the change set; the operations run by the revert are the inverses of
    the edits in the words of the specification, from the last edit to the
    first. *)
Theorem revert_inverts_apply
    (S : gmap string string) (root : option string) (tabs : list Tab)
    (id : string) (edits : list AiEditOp) :
  truthy root = true ->
  (forall p, readBefore (mkBuildEnv tabs S) p = S !! p) ->
  Forall (revertible S) edits ->
  NoDup (flat_map touched edits) ->
  NoDup (omap opKey edits) ->
  exists cs,
    buildChangeSet (mkBuildEnv tabs S) id edits = Ok cs /\
    changeSet (acceptAllChanges true (mkAppState root S (Some cs)))
    = Some (withApplied cs) /\
    rejectAllChanges (acceptAllChanges true (mkAppState root S (Some cs)))
    = mkAppState root S None /\
    revertOps (cs_files cs) = flat_map (inverseOps S) (rev edits).
Proof.
  intros Hroot Hread Hall Hnd Hkeys.
  destruct (buildLoop_distinct (mkBuildEnv tabs S) edits [] ∅) as (seen' & Hb).
  { eapply Forall_impl; [exact Hall|]. intros e. apply revertible_view. }
  { exact Hkeys. }
  { intros k _ Hin. apply elem_of_empty in Hin. exact Hin. }
  destruct (edits_round edits S Hall Hnd) as (S' & Hfw & Hbw & _).
  pose proof (revertOps_map (mkBuildEnv tabs S) S edits Hread Hall) as Hrev.
  eexists. split; [unfold buildChangeSet; rewrite Hb; cbn [rbind fst app]; reflexivity|].
  assert (Hacc :
    acceptAllChanges true
      (mkAppState root S
         (Some (mkChangeSet id edits (map (fileFor (mkBuildEnv tabs S)) edits)
                  (computeStats (map (fileFor (mkBuildEnv tabs S)) edits)) false)))
    = mkAppState root S'
        (Some (withApplied
           (mkChangeSet id edits (map (fileFor (mkBuildEnv tabs S)) edits)
              (computeStats (map (fileFor (mkBuildEnv tabs S)) edits)) false)))).
  { unfold acceptAllChanges.
    cbn [changeSet cs_applied ws_root ws_files cs_edits].
    rewrite Hroot. cbn [negb].
    assert (Hconf : forall cs0, confirmApplyChangeSet true cs0 = true)
      by (intros cs0; unfold confirmApplyChangeSet;
          match goal with |- (if ?c then _ else _) = _ => destruct c end; reflexivity).
    rewrite Hconf. cbn [negb].
    rewrite (applyAiEditsNow_loop root S edits Hroot), Hfw. reflexivity. }
  rewrite Hacc. cbn [changeSet cs_files withApplied].
  split; [reflexivity|]. split; [|exact Hrev].
  unfold rejectAllChanges.
  cbn [changeSet cs_applied ws_root ws_files cs_files withApplied negb].
  rewrite Hroot. cbn [negb].
  rewrite (applyAiEditsNow_loop root S' _ Hroot), Hrev, Hbw. reflexivity.
Qed.

Lemma readBefore_no_tabs (S : gmap string string) (p : string) :
  readBefore (mkBuildEnv [] S) p = S !! p.
Proof.
  unfold readBefore, Workspace.readFile. cbn [be_tabs be_files List.find].
  destruct (S !! p); reflexivity.
Qed.

Lemma revert_inverts_apply_witness :
  exists cs,
    buildChangeSet (mkBuildEnv [] demoFiles) "cs-1" demoEdits = Ok cs /\
    rejectAllChanges
      (acceptAllChanges true (mkAppState (Some "/ws") demoFiles (Some cs)))
    = mkAppState (Some "/ws") demoFiles None /\
    revertOps (cs_files cs)
    = [opRename "e.ts" "d.ts"; opWrite "c.ts" "gone"; opDelete "b.ts";
       opWrite "a.ts" "old"].
Proof.
  destruct (revert_inverts_apply demoFiles (Some "/ws") [] "cs-1" demoEdits)
    as (cs & Hb & _ & Hr & Hops).
  - reflexivity.
  - apply readBefore_no_tabs.
  - repeat constructor; vm_compute; eauto.
  - apply (bool_decide_unpack _). vm_compute. reflexivity.
  - apply (bool_decide_unpack _). vm_compute. reflexivity.
  - exists cs. split; [exact Hb|]. split; [exact Hr|].
    rewrite Hops. vm_compute. reflexivity.
Defined.

(** C2 as it is claimed fails.  The file [a] is renamed to [b] and [b] is
    then written.  The builder reads every before content in the workspace
    as it is before the first edit, where [b] does not exist; the revert
    therefore deletes [b] and then fails to rename it back: the content of
    [a] is lost.  And a rename whose source path holds the separator of the
    label is not reverted at all: the label splits into three parts. *)
Lemma revert_counterexample :
  (let S : gmap string string := {[ "a" := "0" ]} in
   let edits := [opRename "a" "b"; opWrite "b" "y"] in
   option_map (fun s => (ws_files s !! "a", ws_files s !! "b"))
              (acceptThenReject (Some "/ws") S "cs-1" edits)
   = Some (None, None) /\
   S !! "a" = Some "0" /\
   option_map (fun s => option_map cs_applied (changeSet s))
              (acceptThenReject (Some "/ws") S "cs-1" edits)
   = Some (Some true))
  /\
  (let S : gmap string string := {[ "x → y" := "0" ]} in
   let edits := [opRename "x → y" "z"] in
   option_map (fun s => (ws_files s !! "x → y", ws_files s !! "z", changeSet s))
              (acceptThenReject (Some "/ws") S "cs-2" edits)
   = Some (None, Some "0", None)).
Proof. vm_compute. repeat split; reflexivity. Qed.

(** C7 (recovery fallback), as the code has it.  When only the closing
    brace of the object is missing, so that the array of edits is closed,
    neither the direct parse nor the scan for a balanced object yields a
    value, and the scan for the balanced array after the key [edits]
    recovers exactly the one write operation, with the generic message. *)
Theorem recovery_fallback_closed_array :
  tryParse (truncatedOutput +:+ "]") = None /\
  firstObject (truncatedOutput +:+ "]") = None /\
  extractEditsArray (truncatedOutput +:+ "]")
  = Some [JObject [("op", JString "write"); ("path", JString "x.ts");
                   ("content", JString "hi")]] /\
  option_map r_message (tryParseEditsFromAssistantOutput (truncatedOutput +:+ "]"))
  = Some readyMessage /\
  option_map (fun r => map editOfJson (r_edits r))
             (tryParseEditsFromAssistantOutput (truncatedOutput +:+ "]"))
  = Some [opWrite "x.ts" "hi"].
Proof. repeat split; vm_compute; reflexivity. Qed.

(** C7 as it is claimed fails.  In the text of the claim the array of
    edits is not closed either: the bracket depth never returns to zero,
    the fallback finds no array, and the recoverer answers [null]. *)
Lemma recovery_fallback_counterexample :
  Js.indexOf "]" truncatedOutput = None /\
  extractEditsArray truncatedOutput = None /\
  tryParseEditsFromAssistantOutput truncatedOutput = None.
Proof. repeat split; vm_compute; reflexivity. Qed.

(** ** Further properties of the diff engine *)

Section EngineFacts.
Import Js JsFacts.

Lemma sliceZ_split {A} (l : list A) (i j k : Z) :
  0 <= i <= j -> j <= k ->
  sliceZ l i k = sliceZ l i j ++ sliceZ l j k.
Proof.
  intros Hij Hjk. unfold sliceZ.
  replace (Z.to_nat k - Z.to_nat i)%nat
    with ((Z.to_nat j - Z.to_nat i) + (Z.to_nat k - Z.to_nat j))%nat by lia.
  rewrite <- take_take_drop. f_equal. rewrite skipn_skipn.
  replace (Z.to_nat j - Z.to_nat i + Z.to_nat i)%nat with (Z.to_nat j) by lia.
  reflexivity.
Qed.

Lemma sliceZ_rest {A} (l : list A) (i : Z) :
  0 <= i -> sliceZ l 0 i ++ sliceFromZ l i = l.
Proof.
  intros Hi. unfold sliceZ, sliceFromZ. change (Z.to_nat 0) with 0%nat.
  rewrite Nat.sub_0_r. cbn [skipn]. apply firstn_skipn.
Qed.

(** The loop over the hunks replaces, from the cursor on, the old lines of
    every hunk by its new lines and copies what lies between them. *)
Lemma applyHunks_frame (a : list string) (hunks : list UnifiedDiffHunk) :
  forall out ai out' ai',
    0 <= ai <= lenZ a ->
    applyHunks a hunks (out, ai) = Ok (out', ai') ->
    ai <= ai' <= lenZ a /\
    exists gaps,
      List.length gaps = List.length hunks /\
      sliceZ a ai ai' = weave gaps (map oldSeqOf hunks) /\
      out' = out ++ weave gaps (map newSeqOf hunks).
Proof.
  induction hunks as [|h hunks IH]; intros out ai out' ai' Hai H; cbn [applyHunks] in H.
  - inversion H; subst. split; [lia|]. exists []. split; [reflexivity|].
    split; [|rewrite app_nil_r; reflexivity].
    unfold sliceZ. rewrite Nat.sub_diag. reflexivity.
  - pose proof (applyHunk_spec a out ai h Hai) as Hs.
    destruct (applyHunk a (out, ai) h) as [[out1 ai1]|e] eqn:Hh; cbn [rbind] in H;
      [|discriminate].
    destruct Hs as (i & ((Hi0 & Hib & Hrun) & Hlo & _) & -> & ->).
    pose proof (lenZ_nonneg (oldSeqOf h)) as Hn.
    assert (Hai1 : 0 <= i + lenZ (oldSeqOf h) <= lenZ a) by lia.
    destruct (IH _ _ _ _ Hai1 H) as (Hb & gaps & Hlen & Hsl & ->).
    split; [lia|]. exists (sliceZ a ai i :: gaps).
    split; [simpl; rewrite Hlen; reflexivity|]. cbn [map weave]. split.
    + rewrite (sliceZ_split a ai i ai') by lia.
      rewrite (sliceZ_split a i (i + lenZ (oldSeqOf h)) ai') by lia.
      rewrite Hrun, Hsl. reflexivity.
    + rewrite <- !app_assoc. reflexivity.
Qed.

Lemma applyUnifiedDiff_frame (before patchText text : string) :
  applyUnifiedDiff before patchText = Ok text ->
  exists gaps tail,
    List.length gaps = List.length (parseUnifiedDiff patchText) /\
    splitLines before
    = weave gaps (map oldSeqOf (parseUnifiedDiff patchText)) ++ tail /\
    text = textOf (weave gaps (map newSeqOf (parseUnifiedDiff patchText)) ++ tail).
Proof.
  unfold applyUnifiedDiff. intros H.
  destruct (parseUnifiedDiff patchText) as [|h0 hs] eqn:Hp; [discriminate|].
  destruct (applyHunks (splitLines before) (h0 :: hs) ([], 0)) as [[out ai]|e] eqn:Ha;
    cbn [rbind] in H; [|discriminate].
  inversion H; subst text.
  assert (H0 : 0 <= 0 <= lenZ (splitLines before))
    by (pose proof (lenZ_nonneg (splitLines before)); lia).
  destruct (applyHunks_frame _ _ _ _ _ _ H0 Ha) as (Hb & gaps & Hlen & Hsl & Hout).
  exists gaps, (sliceFromZ (splitLines before) ai).
  split; [exact Hlen|]. rewrite <- Hsl. split.
  - symmetry. apply sliceZ_rest. lia.
  - rewrite Hout. reflexivity.
Qed.

Lemma applyToText_Ok (before patchText text : string) :
  applyUnifiedDiffToText before patchText = Ok text ->
  applyUnifiedDiff before patchText = Ok text.
Proof.
  unfold applyUnifiedDiffToText.
  destruct (applyUnifiedDiff before patchText); congruence.
Qed.

Lemma textOf_splitLines (s : string) : textOf (splitLines s) = replaceCRLF s.
Proof. apply join_splitChar. Qed.

(** Lines that start with neither sign are read as context lines. *)
Lemma hunkBody_unsigned (ls : list string) :
  Forall (fun l => unsigned l = true) ls ->
  Forall (fun hl => hl_kind hl = ctx) (fst (hunkBody ls)) /\
  Forall (fun l => unsigned l = true) (snd (hunkBody ls)).
Proof.
  induction ls as [|l ls IH]; intros Hall; [split; constructor|].
  inversion Hall as [|? ? Hl Hls]; subst. specialize (IH Hls).
  cbn [hunkBody]. destruct (startsWith "@@ " l); [split; [constructor|exact Hall]|].
  destruct (hunkBody ls) as [body remaining]. cbn [fst snd] in *.
  destruct IH as [IH1 IH2].
  destruct (isHeaderNoise l); [split; assumption|].
  destruct (classifyHunkLine l) as [hl|] eqn:Hc; [|split; assumption].
  split; [|assumption]. constructor; [|assumption].
  unfold unsigned in Hl. apply andb_true_iff in Hl. destruct Hl as [Hp Hm].
  apply negb_true_iff in Hp, Hm.
  unfold classifyHunkLine in Hc.
  destruct l as [|c t].
  - destruct (String.eqb _ _); inversion Hc; reflexivity.
  - destruct (Ascii.eqb_spec c " ") as [->|H1]; [inversion Hc; reflexivity|].
    destruct (Ascii.eqb_spec c "+") as [->|H2]; [rewrite startsWith_cons in Hp; destruct t; discriminate|].
    destruct (Ascii.eqb_spec c "-") as [->|H3]; [rewrite startsWith_cons in Hm; destruct t; discriminate|].
    destruct c as [[] [] [] [] [] [] [] []];
      try congruence;
      destruct (String.eqb _ _); inversion Hc; reflexivity.
Qed.

Lemma parseHunks_unsigned (fuel : nat) :
  forall ls,
    Forall (fun l => unsigned l = true) ls ->
    Forall (fun h => Forall (fun hl => hl_kind hl = ctx) (hunk_lines h))
           (parseHunks fuel ls).
Proof.
  induction fuel as [|fuel IH]; intros ls Hall; [constructor|].
  destruct ls as [|l ls]; [constructor|]. cbn [parseHunks].
  inversion Hall as [|? ? Hl Hls]; subst.
  destruct (matchHunkHeader l) as [[o n]|]; [|apply IH; exact Hls].
  destruct (hunkBody_unsigned ls Hls) as [Hb Hr].
  destruct (hunkBody ls) as [body remaining]. cbn [fst snd] in *.
  constructor; [exact Hb|apply IH; exact Hr].
Qed.

Lemma ctx_only_same (h : UnifiedDiffHunk) :
  Forall (fun hl => hl_kind hl = ctx) (hunk_lines h) -> oldSeqOf h = newSeqOf h.
Proof.
  unfold oldSeqOf, newSeqOf. induction (hunk_lines h) as [|[k t] hls IH]; intros Hall;
    [reflexivity|].
  inversion Hall as [|? ? Hk Hr]; subst. cbn [hl_kind] in Hk. subst k.
  simpl. f_equal. apply IH; exact Hr.
Qed.

(** The parser finds no hunk exactly when no line matches the header. *)
Lemma parseHunks_none (fuel : nat) :
  forall ls,
    (List.length ls <= fuel)%nat ->
    (parseHunks fuel ls = [] <-> Forall (fun l => matchHunkHeader l = None) ls).
Proof.
  induction fuel as [|fuel IH]; intros ls Hf.
  - destruct ls; [|simpl in Hf; lia]. split; [constructor|reflexivity].
  - destruct ls as [|l ls]; [split; [constructor|reflexivity]|].
    cbn [parseHunks]. simpl in Hf.
    destruct (matchHunkHeader l) as [[o n]|] eqn:Hm.
    + destruct (hunkBody ls). split; [discriminate|].
      intros H; inversion H; congruence.
    + rewrite IH by lia. split.
      * intros H; constructor; assumption.
      * intros H; inversion H; assumption.
Qed.

Lemma errorText_noHunks (e : PatchError) :
  errorText e = "Patch has no hunks" -> e = NoHunks.
Proof.
  destruct e; simpl; intros H; try reflexivity; discriminate.
Qed.

End EngineFacts.

(** X1 (lines of a text).  [splitLines] always returns at least one line,
    no line holds a line feed, and joining the lines with line feeds gives
    the text back with every pair CR LF replaced by LF. *)
Theorem splitLines_join_back (s : string) :
  splitLines s <> [] /\
  Forall (fun l => Js.hasChar Js.LF l = false) (splitLines s) /\
  textOf (splitLines s) = Js.replaceCRLF s.
Proof.
  split; [apply JsFacts.splitChar_nonempty|].
  split; [apply JsFacts.splitChar_pieces|apply textOf_splitLines].
Qed.

(** X2 (patch without hunks).  The applier answers [Patch has no hunks]
    exactly when no line of the patch text matches the hunk header
    [@@ -a,b +c,d @@]; the base text plays no part in it. *)
Theorem no_hunks_iff_no_header (before patchText : string) :
  applyUnifiedDiffToText before patchText = Err "Patch has no hunks"
  <-> Forall (fun l => matchHunkHeader l = None) (splitLines patchText).
Proof.
  rewrite <- (parseHunks_none (List.length (splitLines patchText))) by lia.
  change (parseHunks (List.length (splitLines patchText)) (splitLines patchText))
    with (parseUnifiedDiff patchText).
  unfold applyUnifiedDiffToText. split.
  - intros H.
    destruct (applyUnifiedDiff before patchText) as [t|e] eqn:Ha; [discriminate|].
    assert (He : e = NoHunks) by (apply errorText_noHunks; congruence).
    subst e. unfold applyUnifiedDiff in Ha.
    destruct (parseUnifiedDiff patchText) as [|h0 hs]; [reflexivity|].
    destruct (applyHunks (splitLines before) (h0 :: hs) ([], 0)) as [[out ai]|e] eqn:Hh;
      cbn [rbind] in Ha; [discriminate|].
    apply applyHunks_errors in Hh; [|pose proof (lenZ_nonneg (splitLines before)); lia].
    destruct Hh as (h & cur & _ & _ & -> & _). discriminate.
  - intros Hp. unfold applyUnifiedDiff. rewrite Hp. reflexivity.
Qed.

(** X3 (frame of a patch).  When the applier succeeds, the base is made of
    the old lines of the hunks, in the order of the patch, with gaps
    between them and a tail, and the result is the same gaps and tail with
    the new lines of each hunk in the place of its old lines: no line
    outside the hunks is changed, dropped or moved. *)
Theorem patch_changes_only_hunks (before patchText text : string) :
  applyUnifiedDiffToText before patchText = Ok text ->
  exists gaps tail,
    List.length gaps = List.length (parseUnifiedDiff patchText) /\
    splitLines before
    = weave gaps (map oldSeqOf (parseUnifiedDiff patchText)) ++ tail /\
    text = textOf (weave gaps (map newSeqOf (parseUnifiedDiff patchText)) ++ tail).
Proof.
  intros H. apply applyUnifiedDiff_frame, applyToText_Ok, H.
Qed.

Lemma patch_changes_only_hunks_witness :
  applyUnifiedDiffToText (textOf ["A"; "B"; "C"; "D"])
                         (textOf ["@@ -2 +2 @@"; "-B"; "+X"; "+Y"])
  = Ok (textOf ["A"; "X"; "Y"; "C"; "D"]) /\
  exists gaps tail,
    List.length gaps = 1%nat /\
    ["A"; "B"; "C"; "D"] = weave gaps [["B"]] ++ tail /\
    textOf ["A"; "X"; "Y"; "C"; "D"] = textOf (weave gaps [["X"; "Y"]] ++ tail).
Proof.
  split; [vm_compute; reflexivity|].
  apply (patch_changes_only_hunks (textOf ["A"; "B"; "C"; "D"])
           (textOf ["@@ -2 +2 @@"; "-B"; "+X"; "+Y"])
           (textOf ["A"; "X"; "Y"; "C"; "D"])).
  vm_compute; reflexivity.
Defined.

(** X4 (patch without signed lines).  A patch none of whose lines starts
    with [+] or [-] cannot change a file: when the applier accepts it, the
    result is the base text with CR LF replaced by LF. *)
Theorem unsigned_patch_changes_nothing (before patchText text : string) :
  Forall (fun l => unsigned l = true) (splitLines patchText) ->
  applyUnifiedDiffToText before patchText = Ok text ->
  text = Js.replaceCRLF before.
Proof.
  intros Hall H.
  destruct (applyUnifiedDiff_frame _ _ _ (applyToText_Ok _ _ _ H))
    as (gaps & tail & _ & Hb & ->).
  rewrite <- textOf_splitLines, Hb. do 2 f_equal. f_equal.
  apply map_ext_in. intros h Hin. symmetry. apply ctx_only_same.
  pose proof (parseHunks_unsigned (List.length (splitLines patchText)) _ Hall) as Hp.
  rewrite Forall_forall in Hp. apply Hp.
  apply list_elem_of_In. exact Hin.
Qed.

Lemma unsigned_patch_changes_nothing_witness :
  Forall (fun l => unsigned l = true) (splitLines (textOf ["@@ -2 +2 @@"; " B"; "C"])) /\
  Js.replaceCRLF (textOf ["A"; "B"; "C"]) = textOf ["A"; "B"; "C"] /\
  textOf ["A"; "B"; "C"] = Js.replaceCRLF (textOf ["A"; "B"; "C"]).
Proof.
  assert (Hall : Forall (fun l => unsigned l = true)
                        (splitLines (textOf ["@@ -2 +2 @@"; " B"; "C"])))
    by (repeat constructor).
  split; [exact Hall|]. split; [vm_compute; reflexivity|].
  apply (unsigned_patch_changes_nothing (textOf ["A"; "B"; "C"])
           (textOf ["@@ -2 +2 @@"; " B"; "C"]) (textOf ["A"; "B"; "C"]) Hall).
  vm_compute; reflexivity.
Defined.

(** ** Further properties of the splitter and the normaliser *)

Section SplitterMore.
Import Js JsFacts.

Lemma gitBlocksFrom_none (ls : list string) (blocks : list (list string)) :
  Forall (fun l => startsWith "diff --git " l = false) ls ->
  gitBlocksFrom ls [] blocks = blocks.
Proof.
  induction ls as [|l ls IH]; intros H; [reflexivity|].
  inversion H as [|? ? Hl Hls]; subst. simpl. rewrite Hl. apply IH; exact Hls.
Qed.

Lemma gitBlocksFrom_led (ls : list string) :
  forall cur blocks,
    (cur = [] \/ ledBlock cur) -> Forall ledBlock blocks ->
    Forall ledBlock (gitBlocksFrom ls cur blocks).
Proof.
  induction ls as [|l ls IH]; intros cur blocks Hcur Hb; simpl.
  - destruct cur as [|c cur]; [exact Hb|].
    apply Forall_app. split; [exact Hb|]. constructor; [|constructor].
    destruct Hcur as [Hc|Hc]; [discriminate|exact Hc].
  - destruct (startsWith "diff --git " l) eqn:Hl.
    + apply IH; [right; exact Hl|].
      destruct cur as [|c cur]; [exact Hb|].
      apply Forall_app. split; [exact Hb|]. constructor; [|constructor].
      destruct Hcur as [Hc|Hc]; [discriminate|exact Hc].
    + destruct cur as [|c cur]; [apply IH; [left; reflexivity|exact Hb]|].
      apply IH; [|exact Hb]. right.
      destruct Hcur as [Hc|Hc]; [discriminate|exact Hc].
Qed.

Lemma join_led (sep : string) (b : list string) :
  ledBlock b -> startsWith "diff --git " (join sep b) = true.
Proof.
  destruct b as [|d [|y ys]]; intros H; [destruct H|exact H|].
  rewrite join_cons. apply startsWith_app. exact H.
Qed.

Lemma truthy_default (o : option string) :
  truthy o = true -> truthy (Some (default EmptyString o)) = true.
Proof. destruct o as [[|c s]|]; intros H; try discriminate; reflexivity. Qed.

Lemma splitterOp_rename (f t : string) :
  splitterOp (opRename f t) = truthy (Some f) && truthy (Some t).
Proof. reflexivity. Qed.

Lemma splitterOp_patch (p c : string) :
  splitterOp (opPatch p c)
  = truthy (Some p) && startsWith "diff --git " c && includes "@@ " c.
Proof. reflexivity. Qed.

Lemma splitterOp_delete (p : string) : splitterOp (opDelete p) = truthy (Some p).
Proof. reflexivity. Qed.

Lemma splitterOp_write (p : string) :
  splitterOp (opWrite p EmptyString) = truthy (Some p).
Proof. unfold splitterOp. simpl. apply andb_true_r. Qed.

Lemma blockEdits_shape (b : list string) :
  ledBlock b -> forallb splitterOp (blockEdits b) = true.
Proof.
  intros Hled. pose proof (join_led (str1 LF) b Hled) as Hj.
  unfold blockEdits.
  destruct (truthy (renameFrom (scanBlock b)) && truthy (renameTo (scanBlock b))) eqn:Hr.
  - apply andb_true_iff in Hr. destruct Hr as [Hf Ht].
    apply truthy_default in Hf, Ht.
    destruct (includes "@@ " (join (str1 LF) b)) eqn:Hi; cbn [forallb];
      rewrite ?splitterOp_rename, ?splitterOp_patch, ?Hf, ?Ht, ?Hj, ?Hi; reflexivity.
  - destruct (blockPath (scanBlock b)) as [path|]; [|reflexivity].
    destruct (truthy (Some path)) eqn:Hp; [|reflexivity].
    destruct (_ || _); [cbn [forallb]; rewrite splitterOp_delete, Hp; reflexivity|].
    destruct (includes "@@ " (join (str1 LF) b)) eqn:Hi.
    + cbn [forallb]. rewrite splitterOp_patch, Hp, Hj, Hi. reflexivity.
    + destruct (_ || _); [|reflexivity].
      cbn [forallb]. rewrite splitterOp_write, Hp. reflexivity.
Qed.

End SplitterMore.

(** X5 (splitter without a block).  A text none of whose lines starts with
    [diff --git ] yields no operation at all, whatever else it holds. *)
Theorem splitter_needs_diff_git (diffText : string) :
  Forall (fun l => Js.startsWith "diff --git " l = false) (splitLines diffText) ->
  splitMultiFileGitDiffToEdits diffText = [].
Proof.
  intros H. unfold splitMultiFileGitDiffToEdits, gitBlocks.
  rewrite gitBlocksFrom_none by exact H. reflexivity.
Qed.

Lemma splitter_needs_diff_git_witness :
  Forall (fun l => Js.startsWith "diff --git " l = false)
         (splitLines (textOf ["--- a/x.ts"; "+++ b/x.ts"; "@@ -1 +1 @@"; "-a"; "+b"])) /\
  splitMultiFileGitDiffToEdits
    (textOf ["--- a/x.ts"; "+++ b/x.ts"; "@@ -1 +1 @@"; "-a"; "+b"]) = [].
Proof.
  assert (H : Forall (fun l => Js.startsWith "diff --git " l = false)
                (splitLines (textOf ["--- a/x.ts"; "+++ b/x.ts"; "@@ -1 +1 @@"; "-a"; "+b"])))
    by (repeat constructor).
  split; [exact H|]. apply (splitter_needs_diff_git _ H).
Defined.

(** X6 (shape of the split operations).  Every operation that the splitter
    emits is a rename with two non-empty paths, a patch with a non-empty
    path whose content starts with a [diff --git] line and holds a hunk
    marker, a delete with a non-empty path, or a write of the empty text to
    a non-empty path. *)
Theorem splitter_ops_are_well_formed (diffText : string) :
  forallb splitterOp (splitMultiFileGitDiffToEdits diffText) = true.
Proof.
  unfold splitMultiFileGitDiffToEdits.
  assert (Hled : Forall ledBlock (gitBlocks (splitLines diffText))).
  { apply gitBlocksFrom_led; [left; reflexivity|constructor]. }
  induction Hled as [|b bs Hb _ IH]; [reflexivity|].
  cbn [flat_map]. rewrite forallb_app, IH, (blockEdits_shape b Hb). reflexivity.
Qed.

Section SanitizeFacts.
Import Js JsFacts.

Lemma hasChar_drop (c : ascii) (n : nat) (s : string) :
  hasChar c s = false -> hasChar c (drop n s) = false.
Proof.
  revert s. induction n as [|n IH]; intros s H; [exact H|].
  destruct s as [|a s]; [reflexivity|]. simpl in *.
  apply orb_false_iff in H. apply IH, H.
Qed.

Lemma replaceBackslashes_free (s : string) :
  hasChar BSL (replaceBackslashes s) = false.
Proof.
  induction s as [|a s IH]; [reflexivity|]. simpl. rewrite IH, orb_false_r.
  destruct (Ascii.eqb a BSL) eqn:E; [reflexivity|exact E].
Qed.

Lemma replaceBackslashes_id (s : string) :
  hasChar BSL s = false -> replaceBackslashes s = s.
Proof.
  induction s as [|a s IH]; intros H; [reflexivity|]. simpl in *.
  apply orb_false_iff in H. destruct H as [Ha Hs]. rewrite Ha, (IH Hs). reflexivity.
Qed.

Lemma stripDotSlashN_free (c : ascii) (n : nat) :
  forall s, hasChar c s = false -> hasChar c (stripDotSlashN n s) = false.
Proof.
  induction n as [|n IH]; intros s H; [exact H|]. cbn [stripDotSlashN].
  destruct (startsWith "./" s); [|exact H]. apply IH, hasChar_drop, H.
Qed.

Lemma startsWith_refl (s : string) : startsWith s s = true.
Proof.
  induction s as [|a s IH]; [reflexivity|]. rewrite startsWith_cons. exact IH.
Qed.

(** A text that does not hold [..] has no segment [..]. *)
Lemma traversalFree_of_includes (p : string) :
  includes ".." p = false -> traversalFree p = true.
Proof.
  intros H. unfold traversalFree. apply forallb_forall. intros seg Hin.
  apply negb_true_iff. destruct (String.eqb_spec seg "..") as [->|]; [|reflexivity].
  rewrite <- (join_splitChar SLASH p) in H.
  rewrite includes_join in H; [discriminate|].
  apply Exists_exists. exists "..". split; [apply list_elem_of_In; exact Hin|reflexivity].
Qed.

Lemma last_In {A} (l : list A) (d : A) : l <> [] -> In (List.last l d) l.
Proof.
  induction l as [|x l IH]; intros H; [congruence|].
  destruct l as [|y l]; [left; reflexivity|].
  right. apply IH. discriminate.
Qed.

Lemma segments_empty (c : ascii) (s : string) :
  List.filter nonEmpty (splitChar c s) = [] -> allChars (fun a => Ascii.eqb a c) s = true.
Proof.
  induction s as [|a s IH]; intros H; [reflexivity|]. simpl in *.
  destruct (Ascii.eqb a c) eqn:E.
  - simpl in H. rewrite (IH H). reflexivity.
  - destruct (splitChar c s); simpl in H; discriminate.
Qed.

(** [basename] returns the path itself, then a run of slashes or empty, or
    a non-empty segment without a slash. *)
Lemma basename_cases (p : string) :
  hasChar BSL p = false ->
  (basename p = p /\ allChars isSlash p = true) \/
  (nonEmpty (basename p) = true /\ hasChar SLASH (basename p) = false).
Proof.
  intros H. unfold basename. rewrite (replaceBackslashes_id p H).
  destruct (List.filter nonEmpty (splitChar SLASH p)) as [|x l] eqn:Hf.
  - left. split; [reflexivity|]. apply (segments_empty SLASH p Hf).
  - right. rewrite <- Hf.
    assert (Hin : In (List.last (List.filter nonEmpty (splitChar SLASH p)) p)
                     (List.filter nonEmpty (splitChar SLASH p)))
      by (apply last_In; rewrite Hf; discriminate).
    apply filter_In in Hin. destruct Hin as [Hin Hne]. split; [exact Hne|].
    pose proof (splitChar_pieces SLASH p) as Hp. rewrite Forall_forall in Hp.
    apply Hp, list_elem_of_In, Hin.
Qed.

Lemma allChars_drop (f : ascii -> bool) (n : nat) (s : string) :
  allChars f s = true -> allChars f (drop n s) = true.
Proof.
  revert s. induction n as [|n IH]; intros s H; [exact H|].
  destruct s as [|a s]; [reflexivity|]. simpl in *.
  apply andb_true_iff in H. apply IH, H.
Qed.

Lemma startsWith1 (c a : ascii) (s : string) :
  startsWith (str1 c) (String a s) = Ascii.eqb a c.
Proof.
  unfold startsWith, str1. cbn [String.prefix].
  destruct (ascii_dec c a) as [->|Hn].
  - rewrite Ascii.eqb_refl. destruct s; reflexivity.
  - symmetry. apply Ascii.eqb_neq. congruence.
Qed.

Lemma looksLikeDrive_slash (p : string) :
  looksLikeDrive p = true -> hasChar SLASH p = true.
Proof.
  unfold looksLikeDrive. destruct p as [|a [|b r]]; try discriminate.
  destruct b as [[] [] [] [] [] [] [] []]; try discriminate.
  destruct r as [|c s]; try discriminate.
  destruct c as [[] [] [] [] [] [] [] []]; try discriminate.
  intros _. simpl. destruct (Ascii.eqb a SLASH); reflexivity.
Qed.

Lemma slashFree_safe (s : string) :
  nonEmpty s = true -> hasChar SLASH s = false ->
  startsWith "/" s = false /\ (safePath s = true \/ s = "..").
Proof.
  intros Hne Hs. destruct s as [|a s]; [discriminate|].
  assert (Hst : startsWith "/" (String a s) = false).
  { simpl in Hs. apply orb_false_iff in Hs. destruct Hs as [Ha _].
    change "/"%string with (str1 SLASH). rewrite startsWith1. exact Ha. }
  split; [exact Hst|].
  destruct (String.eqb_spec (String a s) "..") as [->|Hne2]; [right; reflexivity|].
  left. unfold safePath, isRelative, traversalFree. rewrite Hst.
  rewrite (splitChar_single SLASH _ Hs). cbn [forallb].
  apply String.eqb_neq in Hne2. rewrite Hne2.
  assert (Hd : looksLikeDrive (String a s) = false).
  { destruct (looksLikeDrive (String a s)) eqn:Hd; [|reflexivity].
    apply looksLikeDrive_slash in Hd. congruence. }
  rewrite Hd. reflexivity.
Qed.

(** The last two steps of [sanitizePath], from a path [p] without a
    backslash. *)
Lemma sanitize_tail (p : string) :
  hasChar BSL p = false ->
  let p3 := if (startsWith "/" p || looksLikeDrive p) || includes ".." p
            then basename p else p in
  let out := if startsWith "/" p3 then drop 1 p3 else p3 in
  hasChar BSL out = false /\
  (safePath out = true \/ out = ".." \/ slashesOnly out = true).
Proof.
  intros H. cbv zeta.
  destruct ((startsWith "/" p || looksLikeDrive p) || includes ".." p) eqn:Hc.
  - destruct (basename_cases p H) as [[Hb Hall]|[Hne Hs]].
    + rewrite Hb. split; [destruct (startsWith "/" p); [apply hasChar_drop|]; exact H|].
      destruct p as [|a p]; [left; reflexivity|].
      simpl in Hall. apply andb_true_iff in Hall. destruct Hall as [Ha Hall].
      unfold isSlash in Ha. apply Ascii.eqb_eq in Ha. subst a.
      change "/"%string with (str1 SLASH). rewrite startsWith1, Ascii.eqb_refl.
      cbn [drop].
      destruct p as [|b p]; [left; reflexivity|].
      right; right. unfold slashesOnly. rewrite Hall. reflexivity.
    + destruct (slashFree_safe _ Hne Hs) as [Hst Hsafe]. rewrite Hst.
      split; [|destruct Hsafe; auto].
      unfold basename. rewrite (replaceBackslashes_id p H).
      destruct (List.filter nonEmpty (splitChar SLASH p)) as [|x l] eqn:Hf; [exact H|].
      rewrite <- Hf.
      assert (Hin : In (List.last (List.filter nonEmpty (splitChar SLASH p)) p)
                       (List.filter nonEmpty (splitChar SLASH p)))
        by (apply last_In; rewrite Hf; discriminate).
      apply filter_In in Hin. destruct Hin as [Hin _].
      pose proof (splitChar_keeps_free SLASH BSL p H) as Hp. rewrite Forall_forall in Hp.
      apply Hp, list_elem_of_In, Hin.
  - apply orb_false_iff in Hc. destruct Hc as [Hab Hinc].
    apply orb_false_iff in Hab. destruct Hab as [Hst Hd]. rewrite Hst.
    split; [exact H|]. left. unfold safePath, isRelative. rewrite Hst, Hd.
    apply traversalFree_of_includes, Hinc.
Qed.

End SanitizeFacts.

(** X7 (what the sanitiser guarantees, and what it does not).  For every
    raw path and workspace root the sanitised path holds no backslash; and
    unless it is the text [..] itself or a run of slashes, it does not
    start with a slash, does not start with a letter, a colon and a slash,
    and none of its segments is the text [..].  That is all: the tests are
    made on the text as it stands.  A segment may be [..] behind a blank,
    and a path may be absolute behind a blank; the consumers trim the path,
    so that [x/ ..] ends up as [..] and, below the root [/ws],
    [/ws/ /etc/passwd] as [/etc/passwd].  And a path may start with a
    letter and a colon where no slash follows, as the results [C:] and
    [c:rel.ts] do. *)
Theorem sanitizePath_output_shapes (raw : string) (workspaceRoot : option string) :
  Js.hasChar Js.BSL (sanitizePath raw workspaceRoot) = false /\
  (safePath (sanitizePath raw workspaceRoot) = true \/
   sanitizePath raw workspaceRoot = ".." \/
   slashesOnly (sanitizePath raw workspaceRoot) = true) /\
  (sanitizePath "x/ .." None = " .." /\ safePath " .." = true /\
   trimmedPath (Some " ..") = Some "..") /\
  (sanitizePath "/ws/ /etc/passwd" (Some "/ws") = " /etc/passwd" /\
   safePath " /etc/passwd" = true /\
   trimmedPath (Some " /etc/passwd") = Some "/etc/passwd") /\
  (sanitizePath "C:/" None = "C:" /\ safePath "C:" = true) /\
  (sanitizePath "C:/c:rel.ts" None = "c:rel.ts" /\ safePath "c:rel.ts" = true).
Proof.
  split; [|split; [|repeat split; vm_compute; reflexivity]].
  - unfold sanitizePath.
    destruct (nonEmpty (Js.trim raw)) eqn:Hne; cbn [negb].
    + cbv zeta. apply sanitize_tail.
      assert (H1 : Js.hasChar Js.BSL (stripDotSlash (Js.replaceBackslashes (Js.trim raw))) = false)
        by (apply stripDotSlashN_free, replaceBackslashes_free).
      destruct (_ && _); [|exact H1].
      destruct (Js.startsWith "/" _); repeat apply hasChar_drop; exact H1.
    + destruct (Js.trim raw); [reflexivity|discriminate].
  - unfold sanitizePath.
    destruct (nonEmpty (Js.trim raw)) eqn:Hne; cbn [negb].
    + cbv zeta. apply sanitize_tail.
      assert (H1 : Js.hasChar Js.BSL (stripDotSlash (Js.replaceBackslashes (Js.trim raw))) = false)
        by (apply stripDotSlashN_free, replaceBackslashes_free).
      destruct (_ && _); [|exact H1].
      destruct (Js.startsWith "/" _); repeat apply hasChar_drop; exact H1.
    + destruct (Js.trim raw); [left; reflexivity|discriminate].
Qed.

Section NormaliserFacts.
Import Js JsFacts.

Lemma drop_length_app (s t : string) : drop (String.length s) (s +:+ t) = t.
Proof. induction s as [|a s IH]; [reflexivity|exact IH]. Qed.

Lemma stripDotSlash_fixed (p : string) :
  startsWith "./" p = false -> stripDotSlash p = p.
Proof.
  intros H. unfold stripDotSlash. destruct (String.length p); [reflexivity|].
  cbn [stripDotSlashN]. rewrite H. reflexivity.
Qed.

Lemma expandEdit_plain (e : AiEditOp) : plainEdit e = true -> expandEdit e = [e].
Proof.
  unfold plainEdit, expandEdit. intros H.
  destruct (String.eqb (toLowerCase (e_op e)) "patch"); [|reflexivity].
  simpl in H. apply negb_true_iff in H. rewrite H.
  rewrite andb_false_r. reflexivity.
Qed.

Lemma flat_map_plain (edits : list AiEditOp) :
  forallb plainEdit edits = true -> flat_map expandEdit edits = edits.
Proof.
  induction edits as [|e edits IH]; intros H; [reflexivity|].
  simpl in H. apply andb_true_iff in H. destruct H as [He H].
  cbn [flat_map]. rewrite (expandEdit_plain e He), (IH H). reflexivity.
Qed.

Lemma sanitizeOne_keeps (root : option string) (e : AiEditOp) :
  e_op (fst (sanitizeOne root e)) = e_op e /\
  e_content (fst (sanitizeOne root e)) = e_content e.
Proof.
  unfold sanitizeOne. destruct (String.eqb _ "rename"); [split; reflexivity|].
  destruct (e_path e); split; reflexivity.
Qed.

End NormaliserFacts.

(** X8 (paths below the workspace root).  A path that spells out the
    workspace root and then a relative path without [..] is reduced to the
    relative path, provided that it has no surrounding white space, no
    backslash and no leading [./], and that the root is not empty and does
    not end with a slash. *)
Theorem sanitizePath_strips_root (root rel : string) :
  Js.trim (below root rel) = below root rel ->
  Js.hasChar Js.BSL (below root rel) = false ->
  Js.startsWith "./" (below root rel) = false ->
  nonEmpty root = true ->
  dropFinalSlash root = root ->
  isRelative rel = true ->
  Js.includes ".." rel = false ->
  sanitizePath (below root rel) (Some root) = rel.
Proof.
  intros Htrim Hbsl Hds Hne Hfin Hrel Hinc.
  assert (Hroot : Js.hasChar Js.BSL root = false).
  { unfold below in Hbsl. rewrite JsFacts.hasChar_app in Hbsl.
    apply orb_false_iff in Hbsl. apply Hbsl. }
  assert (Hp : nonEmpty (below root rel) = true) by (destruct root; [discriminate|reflexivity]).
  unfold isRelative in Hrel. apply negb_true_iff in Hrel.
  pose proof Hrel as Hrel'. apply orb_false_iff in Hrel'. destruct Hrel' as [Hst _].
  unfold sanitizePath. rewrite Htrim, Hp. cbn [negb]. cbv zeta.
  change (default EmptyString (Some root)) with root.
  rewrite (replaceBackslashes_id _ Hbsl), (stripDotSlash_fixed _ Hds).
  rewrite (replaceBackslashes_id _ Hroot), Hfin, Hne.
  assert (Hpre : Js.startsWith (root +:+ "/") (below root rel) = true).
  { unfold below. rewrite <- app_assoc_string. apply startsWith_app, startsWith_refl. }
  rewrite Hpre, orb_true_r. cbn [andb].
  unfold below. rewrite !drop_length_app.
  change ("/" +:+ rel) with (String Js.SLASH rel).
  assert (Hs1 : Js.startsWith "/" (String Js.SLASH rel) = true)
    by exact (eq_trans (startsWith1 Js.SLASH Js.SLASH rel) (Ascii.eqb_refl _)).
  rewrite Hs1. cbn [Js.drop]. rewrite Hrel, Hinc. cbn [orb]. rewrite Hst. reflexivity.
Qed.

Lemma sanitizePath_strips_root_witness :
  sanitizePath "/home/u/ws/src/a.ts" (Some "/home/u/ws") = "src/a.ts".
Proof.
  apply (sanitizePath_strips_root "/home/u/ws" "src/a.ts"); vm_compute; reflexivity.
Defined.

(** ** A blank behind a leading [./] *)

Section BlankPaths.
Import Js JsFacts.

Lemma looksLikeDrive_blank (q : string) : looksLikeDrive (String " " q) = false.
Proof.
  destruct q as [|c2 q]; [reflexivity|].
  destruct q as [|c3 q]; [destruct c2 as [[] [] [] [] [] [] [] []]; reflexivity|].
  destruct c2 as [[] [] [] [] [] [] [] []]; try reflexivity.
  destruct c3 as [[] [] [] [] [] [] [] []]; reflexivity.
Qed.

Lemma trim_blank (q : string) :
  dropWs1 q = None -> trimEnd q = q -> trim (String " " q) = q.
Proof.
  intros Hd Ht. unfold trim.
  rewrite (trimStart_step (String " " q) q) by (destruct q; reflexivity).
  rewrite (trimStart_fixed q Hd). exact Ht.
Qed.

Lemma allWs_blank (q : string) :
  dropWs1 q = None -> q <> EmptyString -> allWs (String " " q) = false.
Proof.
  intros Hd Hne. unfold allWs.
  rewrite (trimStart_step (String " " q) q) by (destruct q; reflexivity).
  rewrite (trimStart_fixed q Hd). destruct q; [congruence|reflexivity].
Qed.

(** A path that starts with a blank is not below a root that does not. *)
Lemma root_not_blank (root : string) (q : string) :
  startsWith " " root = false ->
  nonEmpty (dropFinalSlash (replaceBackslashes root))
  && (String.eqb (String " " q) (dropFinalSlash (replaceBackslashes root))
      || startsWith (dropFinalSlash (replaceBackslashes root) +:+ "/") (String " " q))
  = false.
Proof.
  intros H. destruct root as [|a r]; [reflexivity|].
  change " "%string with (str1 " "%char) in H. rewrite startsWith1 in H.
  assert (Ha : Ascii.eqb (if Ascii.eqb a BSL then SLASH else a) " " = false).
  { destruct (Ascii.eqb a BSL); [reflexivity|exact H]. }
  cbn [replaceBackslashes]. set (a' := if Ascii.eqb a BSL then SLASH else a) in *.
  assert (Hd : dropFinalSlash (String a' (replaceBackslashes r)) = EmptyString \/
               exists t, dropFinalSlash (String a' (replaceBackslashes r)) = String a' t).
  { cbn [dropFinalSlash]. destruct (replaceBackslashes r) as [|b t].
    - destruct (Ascii.eqb a' SLASH); [left; reflexivity|right; eexists; reflexivity].
    - right. eexists; reflexivity. }
  destruct Hd as [->|(t & ->)]; [reflexivity|].
  cbn [nonEmpty andb].
  assert (Hne : a' <> " "%char) by (apply Ascii.eqb_neq; exact Ha).
  assert (E1 : String.eqb (String " " q) (String a' t) = false).
  { apply String.eqb_neq. intros E. inversion E. congruence. }
  rewrite E1. cbn [orb]. unfold startsWith.
  change (String a' t +:+ "/") with (String a' (t +:+ "/")). cbn [String.prefix].
  destruct (ascii_dec a' " ") as [E|_]; [congruence|reflexivity].
Qed.

End BlankPaths.

(** X30 (a blank behind a leading dot and slash).  Let [q] be any path
    without surrounding white space, without a backslash and without two
    dots in a row, an absolute one for instance, and let the workspace
    root not start with a blank.  The sanitiser returns the raw path [./ q]
    as a blank followed by [q]: none of its tests sees through the blank.
    The builder and the applier trim the path of an operation, and so they
    work on [q]. *)
Theorem blank_behind_dot_slash_passes (q : string) (root : option string) :
  Js.dropWs1 q = None -> Js.trimEnd q = q -> q <> EmptyString ->
  Js.hasChar Js.BSL q = false -> Js.includes ".." q = false ->
  Js.startsWith " " (default EmptyString root) = false ->
  sanitizePath ("./ " +:+ q) root = " " +:+ q /\
  trimmedPath (Some (sanitizePath ("./ " +:+ q) root)) = Some q.
Proof.
  intros Hd Ht Hne Hb Hi Hr.
  assert (Htrim : Js.trim ("./ " +:+ q) = "./ " +:+ q).
  { unfold Js.trim. rewrite trimStart_fixed by reflexivity.
    change ("./ " +:+ q) with (String "." (String "/" (String " " q))).
    cbn [Js.trimEnd]. rewrite allWs_letter by reflexivity.
    rewrite allWs_letter by reflexivity.
    rewrite (allWs_blank q Hd Hne), Ht. reflexivity. }
  assert (Hs : sanitizePath ("./ " +:+ q) root = " " +:+ q).
  { unfold sanitizePath. rewrite Htrim. cbn [nonEmpty negb]. cbv zeta.
    rewrite (replaceBackslashes_id ("./ " +:+ q)) by exact Hb.
    assert (Hst : stripDotSlash ("./ " +:+ q) = String " " q).
    { unfold stripDotSlash.
      change (String.length ("./ " +:+ q)) with (S (S (S (String.length q)))).
      reflexivity. }
    rewrite Hst, (root_not_blank _ q Hr).
    rewrite looksLikeDrive_blank.
    change (Js.startsWith "/" (String " " q)) with false. cbn [orb].
    assert (Hinc : Js.includes ".." (String " " q) = false).
    { unfold Js.includes in *. rewrite indexOf_unfold.
      change (Js.startsWith ".." (String " " q)) with false. cbv iota.
      destruct (Js.indexOf ".." q); [discriminate|reflexivity]. }
    rewrite Hinc. reflexivity. }
  split; [exact Hs|]. rewrite Hs. unfold trimmedPath.
  change (" " +:+ q) with (String " " q). rewrite (trim_blank q Hd Ht).
  destruct q; [congruence|reflexivity].
Qed.

Lemma blank_behind_dot_slash_passes_witness :
  sanitizePath "./ /etc/passwd" (Some "/home/u/ws") = " /etc/passwd" /\
  trimmedPath (Some (sanitizePath "./ /etc/passwd" (Some "/home/u/ws")))
  = Some "/etc/passwd".
Proof.
  apply (blank_behind_dot_slash_passes "/etc/passwd" (Some "/home/u/ws"));
    try (vm_compute; reflexivity).
  discriminate.
Defined.

(** X9 (a patch that vanishes).  A patch operation without a path whose
    text mentions [diff --git ] and holds a hunk marker, but in which no
    line starts with [diff --git ], is expanded to nothing: the normaliser
    returns no operation for it and does not report a sanitisation. *)
Theorem pathless_patch_without_block_is_dropped
    (e : AiEditOp) (workspaceRoot : option string) :
  Js.toLowerCase (e_op e) = "patch" ->
  trimmedPath (e_path e) = None ->
  Js.includes "diff --git " (default EmptyString (e_content e)) = true ->
  Js.includes "@@ " (default EmptyString (e_content e)) = true ->
  Forall (fun l => Js.startsWith "diff --git " l = false)
         (splitLines (default EmptyString (e_content e))) ->
  normalizeAiEdits [e] workspaceRoot = mkNormalized [] false.
Proof.
  intros Hop Hpath Hg Hh Hlines.
  assert (Hx : expandEdit e = []).
  { unfold expandEdit. rewrite Hop. cbn [String.eqb Ascii.eqb Bool.eqb]. cbv zeta.
    rewrite Hg, Hh. cbn [andb].
    assert (Hm : match e_path e with
                 | None => true
                 | Some p => negb (nonEmpty p) || negb (nonEmpty (Js.trim p))
                 end = true).
    { unfold trimmedPath in Hpath. destruct (e_path e) as [p|]; [|reflexivity].
      destruct (nonEmpty (Js.trim p)); [discriminate|apply orb_true_r]. }
    rewrite Hm. cbn [andb].
    unfold splitMultiFileGitDiffToEdits, gitBlocks.
    rewrite gitBlocksFrom_none by exact Hlines. reflexivity. }
  unfold normalizeAiEdits. cbn [flat_map]. rewrite Hx. reflexivity.
Qed.

Lemma pathless_patch_without_block_is_dropped_witness :
  normalizeAiEdits
    [mkOp "patch" None
          (Some (textOf ["  diff --git a/x.ts b/x.ts"; "@@ -1 +1 @@"; "-a"; "+b"]))
          None None]
    (Some "/ws")
  = mkNormalized [] false.
Proof.
  apply pathless_patch_without_block_is_dropped;
    try (vm_compute; reflexivity).
  repeat constructor.
Defined.

(** X10 (what the normaliser leaves alone).  On a list without a patch
    whose text mentions [diff --git ], the normaliser returns one operation
    for each input operation, in the same order, each with the kind and the
    content of its input: only paths are rewritten. *)
Theorem normalizer_rewrites_paths_only
    (edits : list AiEditOp) (workspaceRoot : option string) :
  forallb plainEdit edits = true ->
  map e_op (n_edits (normalizeAiEdits edits workspaceRoot)) = map e_op edits /\
  map e_content (n_edits (normalizeAiEdits edits workspaceRoot)) = map e_content edits.
Proof.
  intros H. unfold normalizeAiEdits. cbn [n_edits].
  rewrite (flat_map_plain edits H). rewrite !map_map.
  split; apply map_ext; intros e; apply sanitizeOne_keeps.
Qed.

Lemma normalizer_rewrites_paths_only_witness :
  map e_op (n_edits (normalizeAiEdits
                       [opWrite "./a.ts" "x"; opDelete "/etc/passwd"; opPatch "b.ts" "@@ -1 +1 @@"]
                       None))
  = ["write"; "delete"; "patch"] /\
  map e_content (n_edits (normalizeAiEdits
                       [opWrite "./a.ts" "x"; opDelete "/etc/passwd"; opPatch "b.ts" "@@ -1 +1 @@"]
                       None))
  = [Some "x"; None; Some "@@ -1 +1 @@"].
Proof.
  apply (normalizer_rewrites_paths_only
           [opWrite "./a.ts" "x"; opDelete "/etc/passwd"; opPatch "b.ts" "@@ -1 +1 @@"] None).
  vm_compute; reflexivity.
Defined.

(** ** Further properties of the differ and the statistics *)

Section DifferFacts.
Import Js.

Variable a : list string.

Lemma optStrEq_refl (x : option string) : optStrEq x x = true.
Proof. destruct x as [s|]; [apply String.eqb_refl|reflexivity]. Qed.

(** On equal texts the snake runs to the end. *)
Lemma snake_same (fuel : nat) :
  forall x, 0 <= x <= lenZ a -> (Z.to_nat (lenZ a - x) <= fuel)%nat ->
    snake fuel a a (lenZ a) (lenZ a) x x = lenZ a.
Proof.
  induction fuel as [|fuel IH]; intros x Hx Hf.
  - simpl. lia.
  - cbn [snake]. destruct (x <? lenZ a) eqn:E.
    + rewrite optStrEq_refl. cbn [andb]. apply Z.ltb_lt in E. apply IH; lia.
    + apply Z.ltb_ge in E. cbn [andb]. lia.
Qed.

Lemma firstn_S_nth_error {A} (l : list A) (k : nat) (x : A) :
  nth_error l k = Some x -> firstn (S k) l = firstn k l ++ [x].
Proof.
  revert l. induction k as [|k IH]; intros [|y l] H; simpl in H; try discriminate.
  - inversion H; reflexivity.
  - cbn [firstn]. rewrite (IH l H). reflexivity.
Qed.

(** Sliding back from [k] to the origin pushes the first [k] lines, the
    last one first. *)
Lemma slide_all (k : nat) :
  forall fuel ops,
    (k <= List.length a)%nat -> (k <= fuel)%nat ->
    slide fuel a 0 (-1) (Z.of_nat k) (Z.of_nat k) ops
    = (ops ++ rev (keepAll (firstn k a)), 0, 0).
Proof.
  induction k as [|k IH]; intros fuel ops Hk Hf.
  - destruct fuel; simpl; rewrite app_nil_r; reflexivity.
  - destruct fuel as [|fuel]; [lia|]. cbn [slide].
    assert (E1 : (Z.of_nat (S k) >? 0) = true) by (apply Z.gtb_lt; lia).
    assert (E2 : (Z.of_nat (S k) >? -1) = true) by (apply Z.gtb_lt; lia).
    rewrite E1, E2. cbn [andb].
    replace (Z.of_nat (S k) - 1) with (Z.of_nat k) by lia.
    rewrite IH by lia.
    rewrite getZ_nonneg by lia. rewrite Nat2Z.id.
    destruct (nth_error a k) as [l|] eqn:Hn;
      [|apply nth_error_None in Hn; lia].
    rewrite (firstn_S_nth_error a k l Hn).
    unfold keepAll. rewrite map_app, rev_app_distr, <- app_assoc. reflexivity.
Qed.

End DifferFacts.

Section StatsFacts.
Import Js.

Lemma rounds_same (a : list string) (fuel : nat) :
  rounds (S fuel) a a (lenZ a) (lenZ a) 0 {[ 1 := 0 ]} [] = keepAll a.
Proof.
  pose proof (lenZ_nonneg a) as Hn.
  cbn [rounds]. change (Z.to_nat (0 + 1)) with 1%nat. cbn [diagonals].
  change (takesUpper {[1 := 0]} 0 (- 0)) with true. cbv iota.
  change (vget {[1 := 0]} (- 0 + 1)) with 0.
  change (0 - - 0) with 0. change (- 0) with 0.
  rewrite !Z.sub_0_r.
  rewrite snake_same by lia.
  assert (E : (lenZ a >=? lenZ a) = true) by (apply Z.geb_le; lia).
  rewrite E. cbn [andb]. cbv iota.
  change (lenZ (@nil (gmap Z Z))) with 0.
  cbn [backtrack]. rewrite Z.sub_diag.
  change (takesUpper (<[0:=lenZ a]> ∅) 0 0) with true. cbv iota.
  change (0 + 1) with 1.
  assert (Ev : vget (<[0:=lenZ a]> ∅) 1 = 0).
  { unfold vget. rewrite lookup_insert_ne by lia. rewrite lookup_empty. reflexivity. }
  rewrite Ev. rewrite !Z.sub_0_r. change (0 - 1) with (-1).
  unfold lenZ at 1 2 3. rewrite Nat2Z.id.
  rewrite slide_all by lia. cbn [app]. change (0 =? 0) with true. cbv iota.
  rewrite rev_involutive, firstn_all. reflexivity.
Qed.

Lemma diffLines_same (s : string) : diffLines s s = keepAll (splitLines s).
Proof.
  unfold diffLines. cbv zeta.
  destruct (Z.to_nat (lenZ (splitLines s) + lenZ (splitLines s) + 1)) eqn:E.
  - pose proof (lenZ_nonneg (splitLines s)). lia.
  - apply rounds_same.
Qed.

Lemma countType_keepAll (t : LineKind) (ls : list string) :
  t <> ctx -> countType t (keepAll ls) = 0.
Proof.
  intros Ht. unfold countType, keepAll, lenZ.
  induction ls as [|l ls IH]; [reflexivity|].
  cbn [map List.filter lo_type]. destruct t; try congruence; exact IH.
Qed.

Lemma countType_nonneg (t : LineKind) (ops : list LineOp) : 0 <= countType t ops.
Proof. unfold countType. apply lenZ_nonneg. Qed.

Lemma stats_fold (files : list ChangeFile) :
  forall x y,
    fold_left
      (fun (acc : Z * Z) (f : ChangeFile) =>
         (fst acc + countType add (diffLines (default EmptyString (cf_before f))
                                             (default EmptyString (cf_after f))),
          snd acc + countType del (diffLines (default EmptyString (cf_before f))
                                             (default EmptyString (cf_after f)))))
      files (x, y)
    = (x + sumZ (map addedIn files), y + sumZ (map removedIn files)).
Proof.
  induction files as [|f files IH]; intros x y.
  - simpl. f_equal; lia.
  - cbn [fold_left map sumZ fold_right fst snd]. rewrite IH.
    unfold addedIn, removedIn, sideText, sumZ. f_equal; lia.
Qed.

(** The statistics are the number of files and the sums of the lines added
    and removed file by file. *)
Lemma computeStats_sum (files : list ChangeFile) :
  computeStats files
  = mkStats (lenZ files) (sumZ (map addedIn files)) (sumZ (map removedIn files)).
Proof.
  unfold computeStats. cbv zeta. rewrite stats_fold. reflexivity.
Qed.

Lemma sumZ_app (l1 l2 : list Z) : sumZ (l1 ++ l2) = sumZ l1 + sumZ l2.
Proof. induction l1 as [|x l1 IH]; simpl; [reflexivity|]. unfold sumZ in *. simpl. lia. Qed.

Lemma sumZ_nonneg (l : list Z) : Forall (fun x => 0 <= x) l -> 0 <= sumZ l.
Proof. induction 1; unfold sumZ in *; simpl; lia. Qed.

End StatsFacts.

(** X11 (a text against itself).  The differ run on two equal texts keeps
    every line, in order, and adds and removes none. *)
Theorem diff_of_equal_texts (s : string) :
  diffLines s s = keepAll (splitLines s) /\
  countType add (diffLines s s) = 0 /\
  countType del (diffLines s s) = 0.
Proof.
  rewrite diffLines_same.
  split; [reflexivity|]. split; apply countType_keepAll; discriminate.
Qed.

(** X12 (files that do not change).  Files whose before and after texts are
    equal, [null] counting as the empty text, add nothing to the lines
    added and removed: the statistics only count them as files.  The files
    of renames are of this kind. *)
Theorem unchanged_files_count_nothing (files : list ChangeFile) :
  Forall (fun f => sideText (cf_before f) = sideText (cf_after f)) files ->
  computeStats files = mkStats (Js.lenZ files) 0 0.
Proof.
  intros H. rewrite computeStats_sum. f_equal.
  - induction H as [|f files Hf _ IH]; [reflexivity|].
    cbn [map]. unfold sumZ in *. cbn [fold_right]. rewrite IH.
    unfold addedIn. rewrite Hf, diffLines_same, countType_keepAll by discriminate.
    reflexivity.
  - induction H as [|f files Hf _ IH]; [reflexivity|].
    cbn [map]. unfold sumZ in *. cbn [fold_right]. rewrite IH.
    unfold removedIn. rewrite Hf, diffLines_same, countType_keepAll by discriminate.
    reflexivity.
Qed.

Lemma unchanged_files_count_nothing_witness :
  computeStats [mkChangeFile fk_rename (renameLabel "a.ts" "b.ts")
                             (Some (textOf ["x"; "y"])) (Some (textOf ["x"; "y"]));
                mkChangeFile fk_delete "gone.ts" None None]
  = mkStats 2 0 0.
Proof.
  apply (unchanged_files_count_nothing
           [mkChangeFile fk_rename (renameLabel "a.ts" "b.ts")
                         (Some (textOf ["x"; "y"])) (Some (textOf ["x"; "y"]));
            mkChangeFile fk_delete "gone.ts" None None]).
  repeat constructor.
Defined.

(** X13 (statistics add up).  The statistics of two lists of files put
    together are the sums of their statistics, component by component, and
    no count is negative. *)
Theorem computeStats_adds_up (fs gs : list ChangeFile) :
  st_files (computeStats (fs ++ gs))
  = st_files (computeStats fs) + st_files (computeStats gs) /\
  st_added (computeStats (fs ++ gs))
  = st_added (computeStats fs) + st_added (computeStats gs) /\
  st_removed (computeStats (fs ++ gs))
  = st_removed (computeStats fs) + st_removed (computeStats gs) /\
  0 <= st_added (computeStats fs) /\ 0 <= st_removed (computeStats fs).
Proof.
  rewrite !computeStats_sum. cbn [st_files st_added st_removed].
  rewrite !map_app, !sumZ_app. unfold Js.lenZ. rewrite length_app.
  split; [lia|]. split; [reflexivity|]. split; [reflexivity|].
  split; apply sumZ_nonneg, Forall_map, Forall_forall; intros f _;
    apply countType_nonneg.
Qed.

(** ** Statistics under the accept and the reject of a file *)

Section FileSteps.

Lemma remaining_filter (path : string) (cs : ChangeSet) :
  List.filter (fun f => negb (isWriteOf path f)) (cs_files cs) = remaining path cs.
Proof. reflexivity. Qed.

(** Taking a file out stores the statistics of the files that remain. *)
Lemma withoutFile_afterRemoval (path : string) (cs : ChangeSet) :
  withoutFile cs path = afterRemoval path cs.
Proof.
  unfold withoutFile, afterRemoval. cbv zeta. rewrite remaining_filter.
  destruct (remaining path cs) as [|f fs]; [reflexivity|].
  unfold withFiles. rewrite computeStats_sum. reflexivity.
Qed.

Lemma acceptFileChange_cases (path : string) (s : AppState) (cs : ChangeSet) :
  changeSet s = Some cs ->
  changeSet (acceptFileChange path s)
  = if cs_applied cs then afterRemoval path cs
    else if truthy (ws_root s) then
      match fileEditsOf path cs with
      | [] => afterRemoval path cs
      | _ :: _ =>
          match snd (applyAiEditsNow (ws_root s) (ws_files s) (fileEditsOf path cs)) with
          | None => Some (withApplied cs)
          | Some _ => Some cs
          end
      end
    else Some cs.
Proof.
  intros Hcs. unfold acceptFileChange. rewrite Hcs.
  destruct (cs_applied cs); cbn [negb].
  - apply withoutFile_afterRemoval.
  - destruct (truthy (ws_root s)); cbn [negb]; [|exact Hcs].
    cbv zeta. fold (fileEditsOf path cs).
    destruct (fileEditsOf path cs) as [|e0 es].
    + apply withoutFile_afterRemoval.
    + destruct (applyAiEditsNow (ws_root s) (ws_files s) (e0 :: es)) as [fs [err|]];
        reflexivity.
Qed.

Lemma rejectFileChange_cases (path : string) (s : AppState) (cs : ChangeSet) :
  changeSet s = Some cs ->
  changeSet (rejectFileChange path s)
  = match List.find (isWriteOf path) (cs_files cs) with
    | None => Some cs
    | Some f =>
        if cs_applied cs then
          if truthy (ws_root s) then
            match restoreFile path f (ws_files s) with
            | Ok _ => afterRemoval path cs
            | Err _ => Some cs
            end
          else Some cs
        else afterRemoval path cs
    end.
Proof.
  intros Hcs. unfold rejectFileChange. rewrite Hcs.
  destruct (List.find (isWriteOf path) (cs_files cs)) as [f|]; [|exact Hcs].
  destruct (cs_applied cs); cbn [negb]; [|apply withoutFile_afterRemoval].
  destruct (truthy (ws_root s)); cbn [negb]; [|exact Hcs].
  cbv zeta. unfold restoreFile.
  destruct (cf_before f) as [before|].
  - destruct (Workspace.writeFile (ws_files s) path before) as [fs|err];
      [apply withoutFile_afterRemoval|exact Hcs].
  - destruct (Workspace.deleteFile (ws_files s) path) as [fs|err];
      [apply withoutFile_afterRemoval|exact Hcs].
Qed.

Lemma afterRemoval_stats (path : string) (cs cs' : ChangeSet) :
  afterRemoval path cs = Some cs' ->
  cs_files cs' = remaining path cs /\ cs_files cs' <> [] /\
  cs_stats cs' = lineStats (cs_files cs').
Proof.
  unfold afterRemoval. destruct (remaining path cs) as [|f fs]; [discriminate|].
  intros H; inversion H; subst cs'. cbn [cs_files cs_stats].
  split; [reflexivity|]. split; [discriminate|reflexivity].
Qed.

End FileSteps.

(** C9 (statistics consistency).  The statistics that a change set stores
    are the number of its files and, added up over the files, the lines
    that the line differ counts as added and as removed between the text
    before and the text after, [null] being the empty text.  This holds of
    the change set that [buildChangeSet] returns, and it is kept by every
    per-file accept and reject.  Accepting a file takes the write of its
    path out of the files when the change set has been applied, and also
    when it has not but a folder is open and none of its operations is for
    that path; rejecting a file takes it out when the change set holds a
    write of the path and either has not been applied or a folder is open
    and the former content could be restored.  The change set that is left
    holds the files that remain, with their statistics, and is otherwise
    as before; when no file remains it is retired.  In every other case
    the files and the statistics stay as they are. *)
Theorem stats_follow_files :
  (forall env id edits,
     match buildChangeSet env id edits with
     | Ok cs => cs_stats cs = lineStats (cs_files cs)
     | Err _ => True
     end)
  /\
  (forall path s cs,
     changeSet s = Some cs ->
     (cs_applied cs = true \/
      (truthy (ws_root s) = true /\ fileEditsOf path cs = []) ->
      changeSet (acceptFileChange path s) = afterRemoval path cs) /\
     (cs_applied cs = false ->
      truthy (ws_root s) = false \/ fileEditsOf path cs <> [] ->
      exists cs', changeSet (acceptFileChange path s) = Some cs' /\
                  cs_files cs' = cs_files cs /\ cs_stats cs' = cs_stats cs))
  /\
  (forall path s cs,
     changeSet s = Some cs ->
     (forall f,
        List.find (fun x => FileKind_eqb (cf_kind x) fk_write
                            && String.eqb (cf_path x) path) (cs_files cs) = Some f ->
        cs_applied cs = false \/
        (truthy (ws_root s) = true /\
         exists fs, restoreFile path f (ws_files s) = Ok fs) ->
        changeSet (rejectFileChange path s) = afterRemoval path cs) /\
     (List.find (fun x => FileKind_eqb (cf_kind x) fk_write
                          && String.eqb (cf_path x) path) (cs_files cs) = None ->
      changeSet (rejectFileChange path s) = Some cs) /\
     (forall f,
        List.find (fun x => FileKind_eqb (cf_kind x) fk_write
                            && String.eqb (cf_path x) path) (cs_files cs) = Some f ->
        cs_applied cs = true ->
        truthy (ws_root s) = false \/
        (exists err, restoreFile path f (ws_files s) = Err err) ->
        changeSet (rejectFileChange path s) = Some cs))
  /\
  (forall path cs,
     match afterRemoval path cs with
     | Some cs' =>
         cs_files cs'
         = List.filter (fun f => negb (FileKind_eqb (cf_kind f) fk_write
                                       && String.eqb (cf_path f) path)) (cs_files cs) /\
         cs_files cs' <> [] /\
         cs_stats cs' = lineStats (cs_files cs') /\
         cs_id cs' = cs_id cs /\ cs_edits cs' = cs_edits cs /\
         cs_applied cs' = cs_applied cs
     | None =>
         List.filter (fun f => negb (FileKind_eqb (cf_kind f) fk_write
                                     && String.eqb (cf_path f) path)) (cs_files cs) = []
     end)
  /\
  (forall path s cs,
     changeSet s = Some cs ->
     cs_stats cs = lineStats (cs_files cs) ->
     match changeSet (acceptFileChange path s) with
     | Some cs' => cs_stats cs' = lineStats (cs_files cs')
     | None => True
     end /\
     match changeSet (rejectFileChange path s) with
     | Some cs' => cs_stats cs' = lineStats (cs_files cs')
     | None => True
     end).
Proof.
  split; [|split; [|split; [|split]]].
  - intros env id edits. unfold buildChangeSet.
    destruct (buildLoop env edits ([], ∅)) as [acc|err]; [|exact I].
    cbn [cs_stats cs_files]. apply computeStats_sum.
  - intros path s cs Hcs. rewrite (acceptFileChange_cases path s cs Hcs). split.
    + intros [Ha|[Hr He]]; [rewrite Ha; reflexivity|].
      rewrite Hr, He. destruct (cs_applied cs); reflexivity.
    + intros Ha Hor. rewrite Ha.
      destruct Hor as [Hr|He]; [rewrite Hr; exists cs; auto|].
      destruct (truthy (ws_root s)); [|exists cs; auto].
      destruct (fileEditsOf path cs) as [|e0 es]; [congruence|].
      destruct (snd (applyAiEditsNow (ws_root s) (ws_files s) (e0 :: es)));
        [exists cs; auto|exists (withApplied cs); auto].
  - intros path s cs Hcs. rewrite (rejectFileChange_cases path s cs Hcs).
    change (fun x => FileKind_eqb (cf_kind x) fk_write && String.eqb (cf_path x) path)
      with (isWriteOf path).
    split; [|split].
    + intros f Hf Hor. rewrite Hf.
      destruct Hor as [Ha|[Hr (fs & Hfs)]]; [rewrite Ha; reflexivity|].
      rewrite Hr, Hfs. destruct (cs_applied cs); reflexivity.
    + intros Hf. rewrite Hf. reflexivity.
    + intros f Hf Ha Hor. rewrite Hf, Ha.
      destruct Hor as [Hr|(err & He)]; [rewrite Hr; reflexivity|].
      rewrite He. destruct (truthy (ws_root s)); reflexivity.
  - intros path cs. unfold afterRemoval.
    change (List.filter _ (cs_files cs)) with (remaining path cs).
    destruct (remaining path cs) as [|f fs] eqn:E; [reflexivity|].
    cbn [cs_files cs_stats cs_id cs_edits cs_applied].
    repeat split. discriminate.
  - intros path s cs Hcs Hst.
    rewrite (acceptFileChange_cases path s cs Hcs),
            (rejectFileChange_cases path s cs Hcs).
    assert (Hrem : match afterRemoval path cs with
                   | Some cs' => cs_stats cs' = lineStats (cs_files cs')
                   | None => True
                   end).
    { destruct (afterRemoval path cs) as [cs'|] eqn:E; [|exact I].
      apply afterRemoval_stats in E. tauto. }
    split.
    + destruct (cs_applied cs); [exact Hrem|].
      destruct (truthy (ws_root s)); [|exact Hst].
      destruct (fileEditsOf path cs) as [|e0 es]; [exact Hrem|].
      destruct (snd (applyAiEditsNow (ws_root s) (ws_files s) (e0 :: es)));
        exact Hst.
    + destruct (List.find (isWriteOf path) (cs_files cs)) as [f|]; [|exact Hst].
      destruct (cs_applied cs); [|exact Hrem].
      destruct (truthy (ws_root s)); [|exact Hst].
      destruct (restoreFile path f (ws_files s)); [exact Hrem|exact Hst].
Qed.

Lemma stats_follow_files_witness :
  changeSet
    (acceptFileChange "a.ts"
       (mkAppState (Some "/ws") ∅
          (Some (mkChangeSet "cs1" []
                   [mkChangeFile fk_write "a.ts" (Some (textOf ["x"; "y"]))
                                 (Some (textOf ["x"; "y"; "z"]));
                    mkChangeFile fk_write "b.ts" None (Some (textOf ["p"; "q"]))]
                   (mkStats 2 3 1) true))))
  = Some (mkChangeSet "cs1" []
            [mkChangeFile fk_write "b.ts" None (Some (textOf ["p"; "q"]))]
            (lineStats [mkChangeFile fk_write "b.ts" None (Some (textOf ["p"; "q"]))])
            true)
  /\ lineStats [mkChangeFile fk_write "b.ts" None (Some (textOf ["p"; "q"]))]
     = mkStats 1 2 1.
Proof.
  split; [|vm_compute; reflexivity].
  refine (proj1 (proj1 (proj2 stats_follow_files) "a.ts"
            (mkAppState (Some "/ws") ∅
               (Some (mkChangeSet "cs1" []
                        [mkChangeFile fk_write "a.ts" (Some (textOf ["x"; "y"]))
                                      (Some (textOf ["x"; "y"; "z"]));
                         mkChangeFile fk_write "b.ts" None (Some (textOf ["p"; "q"]))]
                        (mkStats 2 3 1) true)))
            (mkChangeSet "cs1" []
               [mkChangeFile fk_write "a.ts" (Some (textOf ["x"; "y"]))
                             (Some (textOf ["x"; "y"; "z"]));
                mkChangeFile fk_write "b.ts" None (Some (textOf ["p"; "q"]))]
               (mkStats 2 3 1) true)
            eq_refl) _).
  left. reflexivity.
Defined.

(** ** Further properties of the builder, the applier and the controller *)

Section ControllerFacts.

Lemma buildLoop_app (env : BuildEnv) (l1 l2 : list AiEditOp) :
  forall acc,
    buildLoop env (l1 ++ l2) acc
    = do acc' <- buildLoop env l1 acc; buildLoop env l2 acc'.
Proof.
  induction l1 as [|e l1 IH]; intros acc; [reflexivity|].
  cbn [app buildLoop]. destruct (buildStep env acc e) as [acc1|err]; cbn [rbind];
    [apply IH|reflexivity].
Qed.

(** Only a patch of [p] has the key of a patch of [p]. *)
Lemma fileOf_patch_key (env : BuildEnv) (e : AiEditOp) (p : string)
    (r : Result string ChangeFile) :
  fileOf env e = Some ("p:" +:+ p, r) ->
  Js.toLowerCase (e_op e) = "patch" /\ trimmedPath (e_path e) = Some p.
Proof.
  unfold fileOf.
  destruct (String.eqb_spec (Js.toLowerCase (e_op e)) "run"); [discriminate|].
  destruct (String.eqb_spec (Js.toLowerCase (e_op e)) "write").
  { destruct (trimmedPath (e_path e)); intros H; inversion H. }
  destruct (String.eqb_spec (Js.toLowerCase (e_op e)) "patch") as [Hop|].
  { destruct (trimmedPath (e_path e)) as [q|]; intros H; [|discriminate].
    inversion H as [[Hk Hr]]. change (q = p) in Hk. subst q. auto. }
  destruct (String.eqb_spec (Js.toLowerCase (e_op e)) "delete").
  { destruct (trimmedPath (e_path e)); intros H; inversion H. }
  destruct (String.eqb_spec (Js.toLowerCase (e_op e)) "rename"); [|discriminate].
  destruct (trimmedPath (e_from e)); [|discriminate].
  destruct (trimmedPath (e_to e)); intros H; inversion H.
Qed.

Lemma Forall2_key (env : BuildEnv) (done : list AiEditOp) (keys : list string)
    (files : list ChangeFile) (k : string) :
  Forall2 (firstWith env done) keys files -> k ∈ keys ->
  exists e r, In e done /\ fileOf env e = Some (k, r).
Proof.
  induction 1 as [|k' f keys files Hkf _ IH]; intros Hin.
  - apply elem_of_nil in Hin. contradiction.
  - apply elem_of_cons in Hin. destruct Hin as [->|Hin]; [|exact (IH Hin)].
    destruct Hkf as (pre & e & post & -> & He & _).
    exists e, (Ok f). split; [apply in_or_app; right; left; reflexivity|exact He].
Qed.

Lemma filter_not_isWriteOf (path : string) (files : list ChangeFile) :
  Forall (fun g => isWriteOf path g = false)
         (List.filter (fun f => negb (isWriteOf path f)) files).
Proof.
  apply Forall_forall. intros g Hg. apply list_elem_of_In, filter_In in Hg.
  destruct Hg as [_ Hg]. apply negb_true_iff, Hg.
Qed.

End ControllerFacts.

(** X14 (the applier stops at the first failure).  When the operations
    [pre] apply and the next operation fails, [applyAiEditsNow] reports
    that failure, runs none of the operations after it, and leaves the
    workspace as [pre] made it: what was applied is not rolled back. *)
Theorem apply_stops_at_first_failure
    (root : option string) (fs fs1 : gmap string string)
    (pre post : list AiEditOp) (e : AiEditOp) (err : string) :
  truthy root = true ->
  applyAiEditsNow root fs pre = (fs1, None) ->
  applyEdit fs1 e = Err err ->
  applyAiEditsNow root fs (pre ++ e :: post) = (fs1, Some err).
Proof.
  intros Hroot Hpre He.
  assert (Hloop : applyLoop fs pre = (fs1, None)).
  { unfold applyAiEditsNow in Hpre. rewrite Hroot in Hpre.
    destruct pre; [exact Hpre|exact Hpre]. }
  unfold applyAiEditsNow. rewrite Hroot.
  destruct (pre ++ e :: post) eqn:Happ; [destruct pre; discriminate|].
  rewrite <- Happ, applyLoop_app, Hloop. cbn [applyLoop]. rewrite He. reflexivity.
Qed.

Lemma apply_stops_at_first_failure_witness :
  applyAiEditsNow (Some "/ws") ∅
    ([opWrite "a.ts" "1"] ++ mkOp "move" (Some "a.ts") None None None
                          :: [opWrite "b.ts" "2"])
  = ({[ "a.ts" := "1" ]}, Some "Unsupported AI edit op: move").
Proof.
  apply (apply_stops_at_first_failure (Some "/ws") ∅ {[ "a.ts" := "1" ]}
           [opWrite "a.ts" "1"] [opWrite "b.ts" "2"]
           (mkOp "move" (Some "a.ts") None None None)
           "Unsupported AI edit op: move");
    reflexivity.
Defined.

(** X15 (a patch that does not apply stops the build).  When the
    operations [pre] build a change set and none of them is a patch of the
    path [p], a following patch of [p] that the applier refuses on the
    before text of [p] makes [buildChangeSet] fail with the applier's error
    behind [Failed to build changeset patch for p: ]; no change set is
    returned, whatever follows. *)
Theorem build_fails_on_bad_patch
    (env : BuildEnv) (id : string) (pre post : list AiEditOp) (e : AiEditOp)
    (p err : string) (cs0 : ChangeSet) :
  buildChangeSet env id pre = Ok cs0 ->
  Forall (fun e' => ~ (Js.toLowerCase (e_op e') = "patch" /\
                       trimmedPath (e_path e') = Some p)) pre ->
  Js.toLowerCase (e_op e) = "patch" ->
  trimmedPath (e_path e) = Some p ->
  applyUnifiedDiffToText (default EmptyString (readBefore env p))
                         (default EmptyString (e_content e)) = Err err ->
  buildChangeSet env id (pre ++ e :: post)
  = Err ("Failed to build changeset patch for " +:+ p +:+ ": " +:+ err).
Proof.
  intros Hpre Hnone Hop Hp Herr. unfold buildChangeSet in *.
  destruct (buildLoop env pre ([], ∅)) as [acc|err0] eqn:Hl; [|discriminate].
  rewrite buildLoop_app, Hl. cbn [rbind buildLoop].
  assert (Hfile : fileOf env e
                  = Some ("p:" +:+ p,
                          Err ("Failed to build changeset patch for " +:+ p +:+ ": " +:+ err))).
  { unfold fileOf. rewrite Hop, Hp. cbn [String.eqb Ascii.eqb Bool.eqb].
    cbv zeta. rewrite Herr. reflexivity. }
  unfold buildStep. rewrite Hfile.
  destruct (decide ("p:" +:+ p ∈ snd acc)) as [Hin|Hnin]; [|reflexivity].
  exfalso.
  destruct (buildLoop_inv env pre [] _ _ (buildInv_start env) Hl)
    as (keys & _ & Hf2 & Hseen & _).
  apply Hseen in Hin.
  destruct (Forall2_key _ _ _ _ _ Hf2 Hin) as (e' & r & Hine & Hfe).
  rewrite List.Forall_forall in Hnone. apply (Hnone e' Hine).
  apply (fileOf_patch_key env e' p r Hfe).
Qed.

Lemma build_fails_on_bad_patch_witness :
  buildChangeSet (mkBuildEnv [] {[ "a.ts" := "x" ]}) "id"
    ([opWrite "b.ts" "1"]
       ++ opPatch "a.ts" (textOf ["@@ -1 +1 @@"; "-nope"; "+y"]) :: [opDelete "c.ts"])
  = Err ("Failed to build changeset patch for a.ts: "
           +:+ "Failed to locate hunk context in file (starting near line 1).").
Proof.
  eapply (build_fails_on_bad_patch (mkBuildEnv [] {[ "a.ts" := "x" ]}) "id"
            [opWrite "b.ts" "1"] [opDelete "c.ts"]
            (opPatch "a.ts" (textOf ["@@ -1 +1 @@"; "-nope"; "+y"])) "a.ts"
            "Failed to locate hunk context in file (starting near line 1).").
  - reflexivity.
  - constructor; [|constructor]. intros [H _]. vm_compute in H. discriminate.
  - reflexivity.
  - reflexivity.
  - vm_compute. reflexivity.
Defined.

(** X16 (rejecting one file).  In an applied change set, rejecting the
    write of [path] puts the recorded before content back at [path] (and
    removes the file when none is recorded and the file exists), leaves
    every other file of the workspace as it is, and leaves a change set
    without any write of [path], or none when no file is left. *)
Theorem rejectFileChange_restores
    (path : string) (s : AppState) (cs : ChangeSet) (f : ChangeFile) :
  changeSet s = Some cs ->
  cs_applied cs = true ->
  truthy (ws_root s) = true ->
  List.find (isWriteOf path) (cs_files cs) = Some f ->
  (cf_before f = None -> is_Some (ws_files s !! path)) ->
  ws_files (rejectFileChange path s) !! path = cf_before f /\
  (forall q, q <> path ->
     ws_files (rejectFileChange path s) !! q = ws_files s !! q) /\
  changeSet (rejectFileChange path s) = withoutFile cs path /\
  match changeSet (rejectFileChange path s) with
  | Some cs' => Forall (fun g => isWriteOf path g = false) (cs_files cs')
  | None => True
  end.
Proof.
  intros Hcs Happ Hroot Hfind Hex. unfold rejectFileChange.
  rewrite Hcs, Hfind, Happ, Hroot. cbn [negb].
  assert (Hw : match withoutFile cs path with
               | Some cs' => Forall (fun g => isWriteOf path g = false) (cs_files cs')
               | None => True
               end).
  { unfold withoutFile.
    pose proof (filter_not_isWriteOf path (cs_files cs)) as Hf.
    destruct (List.filter _ (cs_files cs)) eqn:E; [exact I|].
    cbn [withFiles cs_files]. exact Hf. }
  destruct (cf_before f) as [before|] eqn:Hb.
  - cbn [Workspace.writeFile ws_files changeSet].
    split; [apply lookup_insert_eq|].
    split; [intros q Hq; apply lookup_insert_ne; congruence|].
    split; [reflexivity|exact Hw].
  - destruct (Hex eq_refl) as [c Hc]. unfold Workspace.deleteFile. rewrite Hc.
    cbn [ws_files changeSet].
    split; [apply lookup_delete_eq|].
    split; [intros q Hq; apply lookup_delete_ne; congruence|].
    split; [reflexivity|exact Hw].
Qed.

Lemma rejectFileChange_restores_witness :
  (let cs := mkChangeSet "id" [opWrite "a.ts" "new"; opWrite "b.ts" "fresh"]
               [mkChangeFile fk_write "a.ts" (Some "old") (Some "new");
                mkChangeFile fk_write "b.ts" None (Some "fresh")]
               (mkStats 2 2 1) true in
   let s := mkAppState (Some "/ws") {[ "a.ts" := "new"; "b.ts" := "fresh" ]} (Some cs) in
   ws_files (rejectFileChange "a.ts" s) !! "a.ts" = Some "old" /\
   ws_files (rejectFileChange "a.ts" s) !! "b.ts" = Some "fresh").
Proof.
  cbv zeta.
  destruct (rejectFileChange_restores "a.ts"
              (mkAppState (Some "/ws") {[ "a.ts" := "new"; "b.ts" := "fresh" ]}
                 (Some (mkChangeSet "id" [opWrite "a.ts" "new"; opWrite "b.ts" "fresh"]
                          [mkChangeFile fk_write "a.ts" (Some "old") (Some "new");
                           mkChangeFile fk_write "b.ts" None (Some "fresh")]
                          (mkStats 2 2 1) true)))
              (mkChangeSet "id" [opWrite "a.ts" "new"; opWrite "b.ts" "fresh"]
                 [mkChangeFile fk_write "a.ts" (Some "old") (Some "new");
                  mkChangeFile fk_write "b.ts" None (Some "fresh")]
                 (mkStats 2 2 1) true)
              (mkChangeFile fk_write "a.ts" (Some "old") (Some "new"))
              eq_refl eq_refl eq_refl eq_refl)
    as (H1 & H2 & _).
  - discriminate.
  - split; [exact H1|]. rewrite H2 by discriminate. reflexivity.
Defined.

(** ** Further properties of the recoverer *)

Section RecovererFacts.

Lemma In_firstn {A} (n : nat) (l : list A) (x : A) : In x (firstn n l) -> In x l.
Proof.
  revert l. induction n as [|n IH]; intros [|y l] H; simpl in H; try contradiction.
  destruct H as [->|H]; [left; reflexivity|right; apply IH, H].
Qed.

Lemma plan_steps {A} (f : A -> string) (items : list A) :
  (forall x, Js.trim (f x) = f x) ->
  (List.length (firstn 16 (List.filter nonEmpty (map f items))) <= 16)%nat /\
  Forall planStep (firstn 16 (List.filter nonEmpty (map f items))).
Proof.
  intros Hf. split; [rewrite length_firstn; lia|].
  apply Forall_forall. intros s Hs. apply list_elem_of_In, In_firstn, filter_In in Hs.
  destruct Hs as [Hin Hne]. split; [exact Hne|].
  apply in_map_iff in Hin. destruct Hin as (x & <- & _). apply Hf.
Qed.

Lemma planOf_shape (v : option JValue) :
  match planOf v with
  | Some plan => (List.length plan <= 16)%nat /\ Forall planStep plan
  | None => True
  end.
Proof.
  unfold planOf. destruct v as [[| | | s | items | ]|]; try exact I.
  - apply plan_steps. intros l. apply trim_idem.
  - apply plan_steps. intros [| | | s | |]; try reflexivity. apply trim_idem.
Qed.

End RecovererFacts.

(** X17 (shape of what is recovered).  Whatever the assistant text, a
    recovered message has no surrounding white space, and a recovered plan
    has at most sixteen steps, none of them empty and none with
    surrounding white space. *)
Theorem recovered_message_and_plan_shape (raw : string) :
  match tryParseEditsFromAssistantOutput raw with
  | None => True
  | Some r =>
      Js.trim (r_message r) = r_message r /\
      match r_plan r with
      | Some plan => (List.length plan <= 16)%nat /\ Forall planStep plan
      | None => True
      end
  end.
Proof.
  unfold tryParseEditsFromAssistantOutput.
  destruct (negb (nonEmpty (Js.trim raw))); [exact I|]. cbv zeta.
  set (parsed := match tryParse (Js.trim raw) with
                 | Some JNull | None => firstObject (Js.trim raw)
                 | Some v => Some v
                 end).
  destruct parsed as [[| | | | |ms]|];
    try (destruct (extractEditsArray (Js.trim raw)) as [[|e es]|];
         [exact I|split; [vm_compute; reflexivity|exact I]|exact I]).
  destruct (Json.get (JObject ms) "edits") as [[| | | |edits|]|];
    try (destruct (extractEditsArray (Js.trim raw)) as [[|e es]|];
         [exact I|split; [vm_compute; reflexivity|exact I]|exact I]).
  cbn [r_message r_plan]. split; [apply trim_idem|apply planOf_shape].
Qed.

(** ** Quick open *)

Section QuickOpenFacts.

Context {U : Type} `{EqDecision U}.

Lemma isSubsequence_sublist (haystack : list U) :
  forall needle, isSubsequence needle haystack = true <-> sublist needle haystack.
Proof.
  induction haystack as [|h hay IH]; intros needle.
  - destruct needle as [|c n]; simpl.
    + split; [constructor|reflexivity].
    + split; [discriminate|]. intros Hs. apply sublist_nil_r in Hs. discriminate.
  - destruct needle as [|c n]; cbn [isSubsequence].
    + split; [intros _; apply sublist_nil_l|reflexivity].
    + destruct (decide (h = c)) as [->|Hne].
      * rewrite IH. split; [apply sublist_skip|].
        intros Hs. apply sublist_cons_r in Hs.
        destruct Hs as [Hs|(l' & Hl & Hs)].
        -- eapply sublist_cons_l in Hs. destruct Hs as (k1 & k2 & -> & Hs).
           etransitivity; [exact Hs|]. apply sublist_inserts_l, sublist_cons. reflexivity.
        -- inversion Hl; subst. exact Hs.
      * rewrite IH. split; [apply sublist_cons|].
        intros Hs. apply sublist_cons_r in Hs.
        destruct Hs as [Hs|(l' & Hl & Hs)]; [exact Hs|].
        inversion Hl; congruence.
Qed.

Lemma startsWithUnits_sublist (p s : list U) :
  startsWithUnits p s = true -> sublist p s.
Proof.
  revert s. induction p as [|a p IH]; intros s H; [apply sublist_nil_l|].
  destruct s as [|b s]; [discriminate|]. simpl in H.
  apply andb_true_iff in H. destruct H as [Hab H].
  apply bool_decide_eq_true in Hab. subst b. apply sublist_skip, IH, H.
Qed.

Lemma includesUnits_sublist (p s : list U) :
  includesUnits p s = true -> sublist p s.
Proof.
  induction s as [|b s IH]; cbn [includesUnits]; intros H.
  - rewrite orb_false_r in H. apply startsWithUnits_sublist, H.
  - apply orb_true_iff in H. destruct H as [H|H].
    + apply startsWithUnits_sublist, H.
    + apply sublist_cons, IH, H.
Qed.

(** What contains the query as a substring contains it as a subsequence:
    the first test of the list adds nothing to the second. *)
Lemma includes_absorbed (q lf : list U) :
  includesUnits q lf || isSubsequence q lf = isSubsequence q lf.
Proof.
  destruct (includesUnits q lf) eqn:Hi; [|reflexivity].
  symmetry. apply isSubsequence_sublist, includesUnits_sublist, Hi.
Qed.

Variable toLowerCase : list U -> list U.

Lemma quickOpenLoop_spec (q : list U) (files : list (list U)) :
  forall out,
    (List.length out < 120)%nat ->
    quickOpenLoop toLowerCase files q out
    = firstn 120
        (out ++ List.filter (fun f => isSubsequence q (toLowerCase f)) files).
Proof.
  induction files as [|f files IH]; intros out Hout.
  - simpl. rewrite app_nil_r. symmetry. apply firstn_all2. lia.
  - cbn [quickOpenLoop List.filter]. rewrite includes_absorbed.
    destruct (isSubsequence q (toLowerCase f)); [|apply IH; exact Hout].
    destruct (120 <=? List.length (out ++ [f]))%nat eqn:E.
    + apply Nat.leb_le in E. rewrite length_app in E. simpl in E.
      replace (out ++ f :: List.filter (fun f0 => isSubsequence q (toLowerCase f0)) files)
        with ((out ++ [f]) ++ List.filter (fun f0 => isSubsequence q (toLowerCase f0)) files)
        by (rewrite <- app_assoc; reflexivity).
      rewrite firstn_app.
      replace (120 - List.length (out ++ [f]))%nat with 0%nat
        by (rewrite length_app; simpl; lia).
      rewrite firstn_all2 by (rewrite length_app; simpl; lia).
      cbn [firstn]. rewrite app_nil_r. reflexivity.
    + apply Nat.leb_gt in E. rewrite IH by exact E.
      rewrite <- app_assoc. reflexivity.
Qed.

End QuickOpenFacts.

(** X18 (subsequence test).  [isSubsequence needle haystack] holds exactly
    when the needle can be obtained from the haystack by leaving code units
    out, the order kept; in particular the empty needle is found in every
    haystack. *)
Theorem isSubsequence_iff_sublist {U : Type} `{EqDecision U} (needle haystack : list U) :
  isSubsequence needle haystack = true <-> sublist needle haystack.
Proof. apply isSubsequence_sublist. Qed.

(** X19 (list of quick open).  For a non-empty query the list is made of
    the first 120 files, in the order of the index, whose lower-cased path
    holds the query as a subsequence; the substring test of the source
    never adds a file.  For the empty query it is the first 60 files. *)
Theorem quickOpenList_spec {U : Type} `{EqDecision U}
    (toLowerCase : list U -> list U) (files : list (list U)) (q : list U) :
  quickOpenList toLowerCase files q
  = match q with
    | [] => firstn 60 files
    | _ :: _ =>
        firstn 120 (List.filter (fun f => isSubsequence q (toLowerCase f)) files)
    end.
Proof.
  unfold quickOpenList. destruct files as [|f files]; [destruct q; reflexivity|].
  destruct q as [|c q]; [reflexivity|].
  apply (quickOpenLoop_spec toLowerCase (c :: q) (f :: files) []). simpl. lia.
Qed.

(** ** Path helpers and the file index *)

Section PathFacts.
Import Js JsFacts.

Lemma lastIndexOfChar_none (c : ascii) (s : string) :
  hasChar c s = false -> lastIndexOfChar c s = None.
Proof.
  induction s as [|a s IH]; intros H; [reflexivity|]. simpl in *.
  apply orb_false_iff in H. destruct H as [Ha Hs]. rewrite (IH Hs), Ha. reflexivity.
Qed.

Lemma lastIndexOfChar_app (c : ascii) (d name : string) :
  hasChar c name = false ->
  lastIndexOfChar c (d +:+ String c name) = Some (String.length d).
Proof.
  intros H. induction d as [|a d IH].
  - change (EmptyString +:+ String c name) with (String c name).
    cbn [lastIndexOfChar]. rewrite (lastIndexOfChar_none c name H), Ascii.eqb_refl.
    reflexivity.
  - change (String a d +:+ String c name) with (String a (d +:+ String c name)).
    cbn [lastIndexOfChar]. rewrite IH. reflexivity.
Qed.

Lemma take_length_app (s t : string) : take (String.length s) (s +:+ t) = s.
Proof.
  induction s as [|a s IH]; [reflexivity|].
  change (String a s +:+ t) with (String a (s +:+ t)). cbn [String.length take].
  rewrite IH. reflexivity.
Qed.

Lemma splitChar_app (c : ascii) (d r : string) :
  splitChar c (d +:+ String c r) = splitChar c d ++ splitChar c r.
Proof.
  induction d as [|a d IH].
  - change (EmptyString +:+ String c r) with (String c r).
    cbn [splitChar app]. rewrite Ascii.eqb_refl. reflexivity.
  - change (String a d +:+ String c r) with (String a (d +:+ String c r)).
    cbn [splitChar]. rewrite IH.
    destruct (Ascii.eqb a c); [reflexivity|].
    pose proof (splitChar_nonempty c d) as Hn.
    destruct (splitChar c d) as [|h t]; [congruence|reflexivity].
Qed.

Lemma replaceLazySlashes_id (s : string) : replaceLazySlashes s = s.
Proof.
  induction s as [|a s IH]; [reflexivity|]. simpl. rewrite IH.
  destruct (Ascii.eqb_spec a SLASH) as [->|]; reflexivity.
Qed.

Lemma dropLeadingSlashes_head (s : string) :
  startsWith "/" (dropLeadingSlashes s) = false.
Proof.
  induction s as [|a s IH]; [reflexivity|]. cbn [dropLeadingSlashes].
  destruct (Ascii.eqb a SLASH) eqn:E; [exact IH|].
  exact (eq_trans (startsWith1 SLASH a s) E).
Qed.

Lemma dropLeadingSlashes_free (c : ascii) (s : string) :
  hasChar c s = false -> hasChar c (dropLeadingSlashes s) = false.
Proof.
  induction s as [|a s IH]; intros H; [reflexivity|]. cbn [dropLeadingSlashes].
  destruct (Ascii.eqb a SLASH); [|exact H].
  simpl in H. apply orb_false_iff in H. apply IH, H.
Qed.

Lemma dropLeadingSlashes_fixed (s : string) :
  startsWith "/" s = false -> dropLeadingSlashes s = s.
Proof.
  destruct s as [|a s]; [reflexivity|]. intros H.
  cbn [dropLeadingSlashes].
  rewrite <- (startsWith1 SLASH a s). change (str1 SLASH) with "/"%string.
  rewrite H. reflexivity.
Qed.

(** The loop of the file index. *)
Lemma dedupLoop_spec (ps : list string) :
  forall seen : gset string,
    NoDup (dedupLoop ps seen) /\
    (forall k, k ∈ dedupLoop ps seen <-> nonEmpty k = true /\ k ∈ ps /\ k ∉ seen) /\
    sublist (dedupLoop ps seen) ps.
Proof.
  induction ps as [|p ps IH]; intros seen; cbn [dedupLoop].
  - split; [constructor|]. split; [|constructor].
    intros k. split; [intros H; apply elem_of_nil in H; contradiction|].
    intros (_ & H & _). apply elem_of_nil in H. contradiction.
  - destruct (nonEmpty p) eqn:Hp; cbn [negb].
    + destruct (decide (p ∈ seen)) as [Hin|Hnin].
      * destruct (IH seen) as (Hnd & Hk & Hs).
        split; [exact Hnd|]. split; [|apply sublist_cons, Hs].
        intros k. rewrite Hk, elem_of_cons. split.
        -- intros (H1 & H2 & H3). auto.
        -- intros (H1 & [->|H2] & H3); [contradiction|auto].
      * destruct (IH ({[ p ]} ∪ seen)) as (Hnd & Hk & Hs).
        split; [|split; [|apply sublist_skip, Hs]].
        -- constructor; [|exact Hnd]. intros H. apply Hk in H.
           destruct H as (_ & _ & H). apply H, elem_of_union. left.
           apply elem_of_singleton. reflexivity.
        -- intros k. rewrite !elem_of_cons, Hk. split.
           ++ intros [->|(H1 & H2 & H3)]; [auto|].
              split; [exact H1|]. split; [right; exact H2|].
              intros H. apply H3, elem_of_union. right. exact H.
           ++ intros (H1 & [->|H2] & H3); [left; reflexivity|].
              destruct (decide (k = p)) as [->|Hne]; [left; reflexivity|].
              right. split; [exact H1|]. split; [exact H2|].
              intros H. apply elem_of_union in H. destruct H as [H|H]; [|contradiction].
              apply elem_of_singleton in H. contradiction.
    + destruct (IH seen) as (Hnd & Hk & Hs).
      split; [exact Hnd|]. split; [|apply sublist_cons, Hs].
      intros k. rewrite Hk, elem_of_cons. split.
      * intros (H1 & H2 & H3). auto.
      * intros (H1 & [->|H2] & H3); [congruence|auto].
Qed.

End PathFacts.

(** X20 (directory and name of a path).  For a path made of a non-empty
    directory part, a slash and a non-empty name without a slash, neither
    holding a backslash, [dirname] returns the directory part and
    [basename] the name. *)
Theorem dirname_basename_split (d name : string) :
  Js.hasChar Js.BSL d = false ->
  Js.hasChar Js.BSL name = false ->
  nonEmpty d = true ->
  nonEmpty name = true ->
  Js.hasChar Js.SLASH name = false ->
  dirname (below d name) = d /\ basename (below d name) = name.
Proof.
  intros Hd Hn Hde Hne Hs.
  assert (Hb : Js.replaceBackslashes (below d name) = below d name).
  { apply replaceBackslashes_id. unfold below.
    rewrite !JsFacts.hasChar_app, Hd, Hn. reflexivity. }
  unfold dirname, basename. rewrite Hb. unfold below.
  change ("/" +:+ name) with (String Js.SLASH name). split.
  - rewrite (lastIndexOfChar_app Js.SLASH d name Hs).
    destruct d as [|a d]; [discriminate|].
    change (String.length (String a d)) with (S (String.length d)).
    cbv iota. apply (take_length_app (String a d)).
  - rewrite splitChar_app, List.filter_app, (JsFacts.splitChar_single Js.SLASH name Hs).
    cbn [List.filter]. rewrite Hne. apply last_last.
Qed.

Lemma dirname_basename_split_witness :
  dirname "/home/u/notes/todo.md" = "/home/u/notes" /\
  basename "/home/u/notes/todo.md" = "todo.md".
Proof.
  apply (dirname_basename_split "/home/u/notes" "todo.md"); reflexivity.
Defined.

(** X21 (normalised relative paths).  For every path, the result of
    [normalizeRelPath] holds no backslash and does not start with a slash.
    A path that already has this form, has no surrounding white space and
    does not start with [./] is returned as it is, repeated slashes
    included: the last replacement of the function never joins them. *)
Theorem normalizeRelPath_shape (p : string) :
  Js.hasChar Js.BSL (normalizeRelPath p) = false /\
  Js.startsWith "/" (normalizeRelPath p) = false /\
  (Js.trim p = p -> Js.hasChar Js.BSL p = false ->
   Js.startsWith "./" p = false -> Js.startsWith "/" p = false ->
   normalizeRelPath p = p) /\
  normalizeRelPath "src//a.ts" = "src//a.ts".
Proof.
  unfold normalizeRelPath.
  destruct (nonEmpty (Js.trim p)) eqn:Hne; cbn [negb]; cbv zeta.
  - rewrite replaceLazySlashes_id.
    split; [apply dropLeadingSlashes_free, stripDotSlashN_free, replaceBackslashes_free|].
    split; [apply dropLeadingSlashes_head|].
    split; [|vm_compute; reflexivity].
    intros Ht Hb Hd Hs. rewrite Ht, (replaceBackslashes_id p Hb).
    rewrite (stripDotSlash_fixed p Hd). apply dropLeadingSlashes_fixed, Hs.
  - split; [reflexivity|]. split; [reflexivity|]. split; [|vm_compute; reflexivity].
    intros Ht _ _ _. rewrite Ht in Hne. destruct p; [reflexivity|discriminate].
Qed.

(** One more entry of the listing adds at most one path, at the end. *)
Lemma dedupLoop_snoc (ps : list string) (q : string) :
  forall seen,
    dedupLoop (ps ++ [q]) seen
    = dedupLoop ps seen
      ++ (if nonEmpty q && negb (bool_decide (q ∈ seen \/ q ∈ dedupLoop ps seen))
          then [q] else []).
Proof.
  induction ps as [|p ps IH]; intros seen; cbn [app dedupLoop].
  - destruct (nonEmpty q); cbn [negb andb]; [|reflexivity].
    destruct (decide (q ∈ seen)) as [Hin|Hnin].
    + rewrite bool_decide_eq_true_2 by (left; exact Hin). reflexivity.
    + rewrite bool_decide_eq_false_2; [reflexivity|].
      intros [H|H]; [contradiction|]. inversion H.
  - destruct (nonEmpty p) eqn:Hp; cbn [negb]; [|apply IH].
    destruct (decide (p ∈ seen)) as [Hin|Hnin]; [apply IH|].
    rewrite IH. cbn [app]. f_equal. f_equal.
    rewrite (bool_decide_ext (q ∈ {[p]} ∪ seen \/ q ∈ dedupLoop ps ({[p]} ∪ seen))
                             (q ∈ seen \/ q ∈ p :: dedupLoop ps ({[p]} ∪ seen)));
      [reflexivity|].
    rewrite elem_of_union, elem_of_singleton, elem_of_cons. tauto.
Qed.

(** X22 (file index).  The file index holds every non-empty normalised
    path of the listing exactly once, in the order of first occurrence,
    and nothing else.  The order is that of the listing: the index of the
    empty listing is empty, and the index of a listing with one more entry
    is the index of the listing followed by the normalised path of that
    entry, if the path is not empty and not in the index yet.  So the
    listing a.ts, b.ts, ./a.ts has the index a.ts, b.ts. *)
Theorem dedupedFileIndex_spec (files : list string) :
  NoDup (dedupedFileIndex files) /\
  (forall k, k ∈ dedupedFileIndex files
             <-> nonEmpty k = true /\ k ∈ map normalizeRelPath files) /\
  sublist (dedupedFileIndex files) (map normalizeRelPath files) /\
  dedupedFileIndex [] = [] /\
  (forall f,
     dedupedFileIndex (files ++ [f])
     = dedupedFileIndex files
       ++ (if nonEmpty (normalizeRelPath f)
              && negb (bool_decide (normalizeRelPath f ∈ dedupedFileIndex files))
           then [normalizeRelPath f] else [])) /\
  dedupedFileIndex ["a.ts"; "b.ts"; "./a.ts"] = ["a.ts"; "b.ts"].
Proof.
  split; [|split; [|split; [|split; [reflexivity|split; [|vm_compute; reflexivity]]]]].
  - unfold dedupedFileIndex.
    destruct (dedupLoop_spec (map normalizeRelPath files) ∅) as (Hnd & _). exact Hnd.
  - unfold dedupedFileIndex.
    destruct (dedupLoop_spec (map normalizeRelPath files) ∅) as (_ & Hk & _).
    intros k. rewrite Hk. split.
    + intros (H1 & H2 & _). auto.
    + intros (H1 & H2). split; [exact H1|]. split; [exact H2|]. apply not_elem_of_empty.
  - unfold dedupedFileIndex.
    destruct (dedupLoop_spec (map normalizeRelPath files) ∅) as (_ & _ & Hs). exact Hs.
  - intros f. unfold dedupedFileIndex. rewrite map_app. cbn [map].
    rewrite dedupLoop_snoc. f_equal.
    rewrite (bool_decide_ext _
               (normalizeRelPath f ∈ dedupLoop (map normalizeRelPath files) ∅));
      [reflexivity|].
    split; [intros [H|H]; [set_solver|exact H]|auto].
Qed.

(** ** Relative times *)

(** X23 (counts of a relative time).  An age below one minute, a time in
    the future included, is shown as [now].  The count shown is zero in
    exactly two ranges of ages: from 28 to under 30 days the text is [0mo],
    and from 360 to under 365 days it is [0y].  For every other age the
    text is a count of at least one followed by a unit. *)
Theorem formatRelTime_zero_counts (now ts : Z) :
  (now - ts < 60000 -> formatRelTime now ts = "now") /\
  (28 * dayMs <= now - ts < 30 * dayMs -> formatRelTime now ts = "0mo") /\
  (360 * dayMs <= now - ts < 365 * dayMs -> formatRelTime now ts = "0y") /\
  (60000 <= now - ts ->
   ~ (28 * dayMs <= now - ts < 30 * dayMs) ->
   ~ (360 * dayMs <= now - ts < 365 * dayMs) ->
   exists n u, 1 <= n /\ In u relUnits /\ formatRelTime now ts = Js.showZ n +:+ u).
Proof.
  unfold formatRelTime, dayMs. cbv zeta.
  set (d := Z.max 0 (now - ts)).
  set (s := d / 1000). set (m := s / 60). set (h := m / 60). set (days := h / 24).
  set (w := days / 7). set (mo := days / 30). set (y := days / 365).
  assert (Hd : d = Z.max 0 (now - ts)) by reflexivity.
  assert (Hs : s = d / 1000) by reflexivity.
  assert (Hm : m = s / 60) by reflexivity.
  assert (Hh : h = m / 60) by reflexivity.
  assert (Hdays : days = h / 24) by reflexivity.
  assert (Hw : w = days / 7) by reflexivity.
  assert (Hmo : mo = days / 30) by reflexivity.
  assert (Hy : y = days / 365) by reflexivity.
  clearbody d s m h days w mo y.
  repeat split.
  - intros H. destruct (Z.ltb_spec s 60) as [_|Hge]; [reflexivity|].
    exfalso. Z.to_euclidean_division_equations. lia.
  - intros H.
    destruct (Z.ltb_spec s 60); [exfalso; Z.to_euclidean_division_equations; lia|].
    destruct (Z.ltb_spec m 60); [exfalso; Z.to_euclidean_division_equations; lia|].
    destruct (Z.ltb_spec h 24); [exfalso; Z.to_euclidean_division_equations; lia|].
    destruct (Z.ltb_spec days 7); [exfalso; Z.to_euclidean_division_equations; lia|].
    destruct (Z.ltb_spec w 4); [exfalso; Z.to_euclidean_division_equations; lia|].
    destruct (Z.ltb_spec mo 12); [|exfalso; Z.to_euclidean_division_equations; lia].
    assert (E : mo = 0) by (Z.to_euclidean_division_equations; lia). rewrite E. reflexivity.
  - intros H.
    destruct (Z.ltb_spec s 60); [exfalso; Z.to_euclidean_division_equations; lia|].
    destruct (Z.ltb_spec m 60); [exfalso; Z.to_euclidean_division_equations; lia|].
    destruct (Z.ltb_spec h 24); [exfalso; Z.to_euclidean_division_equations; lia|].
    destruct (Z.ltb_spec days 7); [exfalso; Z.to_euclidean_division_equations; lia|].
    destruct (Z.ltb_spec w 4); [exfalso; Z.to_euclidean_division_equations; lia|].
    destruct (Z.ltb_spec mo 12); [exfalso; Z.to_euclidean_division_equations; lia|].
    assert (E : y = 0) by (Z.to_euclidean_division_equations; lia). rewrite E. reflexivity.
  - intros H Hn1 Hn2.
    destruct (Z.ltb_spec s 60); [exfalso; Z.to_euclidean_division_equations; lia|].
    destruct (Z.ltb_spec m 60).
    { exists m, "m". split; [Z.to_euclidean_division_equations; lia|]. split; [simpl; auto|reflexivity]. }
    destruct (Z.ltb_spec h 24).
    { exists h, "h". split; [Z.to_euclidean_division_equations; lia|]. split; [simpl; auto|reflexivity]. }
    destruct (Z.ltb_spec days 7).
    { exists days, "d". split; [Z.to_euclidean_division_equations; lia|]. split; [simpl; auto|reflexivity]. }
    destruct (Z.ltb_spec w 4).
    { exists w, "w". split; [Z.to_euclidean_division_equations; lia|]. split; [simpl; auto|reflexivity]. }
    destruct (Z.ltb_spec mo 12).
    { exists mo, "mo". split; [Z.to_euclidean_division_equations; lia|]. split; [simpl; auto 10|reflexivity]. }
    exists y, "y". split; [Z.to_euclidean_division_equations; lia|]. split; [simpl; auto 10|reflexivity].
Qed.

(** ** Proposals *)

Section ProposalFacts.

Lemma planLoop_shape (lines : list string) :
  forall inPlan plan,
    (List.length plan < 6)%nat -> Forall planStep plan ->
    (List.length (planLoop lines inPlan plan) <= 6)%nat /\
    Forall planStep (planLoop lines inPlan plan).
Proof.
  induction lines as [|l lines IH]; intros inPlan plan Hlen Hall; cbn [planLoop].
  - split; [lia|exact Hall].
  - cbv zeta. destruct (_ || _ || _); [apply IH; assumption|].
    destruct inPlan; [|apply IH; assumption].
    destruct (_ || _ || _ || _); [apply IH; assumption|].
    destruct (nonEmpty (Js.trim (stripBullet l))) eqn:Hne.
    + assert (Hall' : Forall planStep (plan ++ [Js.trim (stripBullet l)])).
      { apply Forall_app. split; [exact Hall|]. constructor; [|constructor].
        split; [exact Hne|apply trim_idem]. }
      destruct (6 <=? List.length (plan ++ [Js.trim (stripBullet l)]))%nat eqn:E.
      * split; [rewrite length_app; simpl; lia|exact Hall'].
      * apply Nat.leb_gt in E. apply IH; assumption.
    + destruct (6 <=? List.length plan)%nat eqn:E.
      * split; [lia|exact Hall].
      * apply IH; assumption.
Qed.

Lemma length_eqb_lenZ {A} (l : list A) :
  Nat.eqb (List.length l) 0 = (Js.lenZ l =? 0).
Proof. destruct l; reflexivity. Qed.

Lemma filter_both {A} (p q : A -> bool) (l : list A) :
  List.filter q (List.filter p l) = List.filter (fun x => p x && q x) l.
Proof.
  induction l as [|x l IH]; [reflexivity|]. cbn [List.filter].
  destruct (p x); cbn [List.filter andb]; [destruct (q x)|]; rewrite IH; reflexivity.
Qed.

End ProposalFacts.

(** X24 (plan of a proposal).  Whatever the assistant text, the plan of a
    proposal has at least one and at most six steps, none of them empty
    and none with surrounding white space. *)
Theorem proposal_plan_shape (assistantText : string) (cs : ChangeSet) (sanitized : bool) :
  (1 <= List.length (p_plan (buildProposal assistantText cs sanitized)) <= 6)%nat /\
  Forall planStep (p_plan (buildProposal assistantText cs sanitized)).
Proof.
  unfold buildProposal. cbv zeta. cbn [p_plan].
  destruct (planLoop_shape
              (List.filter nonEmpty (map Js.trim (Js.splitChar Js.LF assistantText)))
              false [] ltac:(simpl; lia) ltac:(constructor)) as [Hlen Hall].
  destruct (planLoop _ false []) as [|x plan].
  - split; [simpl; lia|]. repeat constructor.
  - split; [simpl in *; lia|exact Hall].
Qed.

(** X25 (risks and confirmation agree).  A proposal lists no risk exactly
    when no path was sanitised and applying the change set will not ask
    for a confirmation. *)
Theorem proposal_risks_match_confirmation
    (assistantText : string) (cs : ChangeSet) (sanitized : bool) :
  p_risks (buildProposal assistantText cs sanitized) = []
  <-> sanitized = false /\ confirmApplyChangeSet false cs = true.
Proof.
  unfold buildProposal. cbv zeta. cbn [p_risks].
  unfold proposalRisks, confirmApplyChangeSet. cbv zeta.
  set (n1 := Js.lenZ (List.filter
                (fun f => FileKind_eqb (cf_kind f) fk_write
                          && match cf_before f with None => true | Some _ => false end)
                (cs_files cs))).
  set (n2 := Js.lenZ (List.filter (fun f => FileKind_eqb (cf_kind f) fk_delete) (cs_files cs))).
  set (n3 := Js.lenZ (List.filter (fun f => FileKind_eqb (cf_kind f) fk_rename) (cs_files cs))).
  rewrite filter_both, !length_eqb_lenZ.
  fold n1 n2 n3.
  destruct sanitized, (Js.lenZ (cs_files cs) >? 8), (n1 =? 0), (n2 =? 0), (n3 =? 0);
    cbn; split; intros H; try discriminate; try (destruct H; discriminate);
    try reflexivity; auto.
Qed.

(** ** Accepting one file, then all *)

(** X26 (accepting one file, then all).  Accepting one file of a change
    set that is not applied yet applies the operations of that file only,
    and marks the whole change set as applied.  Accepting all changes
    afterwards therefore retires the change set without applying anything:
    the operations of the other files are never run. *)
Theorem accepting_one_file_retires_the_rest
    (path : string) (s : AppState) (cs : ChangeSet) (answer : bool)
    (fs' : gmap string string) :
  changeSet s = Some cs ->
  cs_applied cs = false ->
  truthy (ws_root s) = true ->
  fileEditsOf path cs <> [] ->
  applyAiEditsNow (ws_root s) (ws_files s) (fileEditsOf path cs) = (fs', None) ->
  acceptFileChange path s = mkAppState (ws_root s) fs' (Some (withApplied cs)) /\
  acceptAllChanges answer (acceptFileChange path s) = mkAppState (ws_root s) fs' None.
Proof.
  intros Hcs Happ Hroot Hne Hrun.
  assert (H1 : acceptFileChange path s
               = mkAppState (ws_root s) fs' (Some (withApplied cs))).
  { unfold acceptFileChange. rewrite Hcs, Happ, Hroot. cbn [negb]. cbv zeta.
    fold (fileEditsOf path cs). rewrite Hrun.
    destruct (fileEditsOf path cs); [congruence|reflexivity]. }
  split; [exact H1|]. rewrite H1. reflexivity.
Qed.

Lemma accepting_one_file_retires_the_rest_witness :
  (let cs := mkChangeSet "id" [opWrite "a.ts" "1"; opWrite "b.ts" "2"]
               [mkChangeFile fk_write "a.ts" None (Some "1");
                mkChangeFile fk_write "b.ts" None (Some "2")]
               (mkStats 2 2 0) false in
   let s := mkAppState (Some "/ws") ∅ (Some cs) in
   acceptAllChanges true (acceptFileChange "a.ts" s)
   = mkAppState (Some "/ws") {[ "a.ts" := "1" ]} None).
Proof.
  cbv zeta.
  refine (proj2 (accepting_one_file_retires_the_rest "a.ts"
                   (mkAppState (Some "/ws") ∅
                      (Some (mkChangeSet "id" [opWrite "a.ts" "1"; opWrite "b.ts" "2"]
                               [mkChangeFile fk_write "a.ts" None (Some "1");
                                mkChangeFile fk_write "b.ts" None (Some "2")]
                               (mkStats 2 2 0) false)))
                   (mkChangeSet "id" [opWrite "a.ts" "1"; opWrite "b.ts" "2"]
                      [mkChangeFile fk_write "a.ts" None (Some "1");
                       mkChangeFile fk_write "b.ts" None (Some "2")]
                      (mkStats 2 2 0) false)
                   true {[ "a.ts" := "1" ]} eq_refl eq_refl eq_refl _ _)).
  - discriminate.
  - reflexivity.
Defined.

(** ** Languages and icons *)

Section ExtensionFacts.
Import Js JsFacts.

Lemma includes_char (c : ascii) (s : string) : includes (str1 c) s = hasChar c s.
Proof.
  unfold includes. induction s as [|a s IH]; [reflexivity|].
  rewrite indexOf_unfold, startsWith1. cbn [hasChar].
  destruct (Ascii.eqb a c); [reflexivity|]. cbn [orb].
  rewrite <- IH. destruct (indexOf (str1 c) s); reflexivity.
Qed.

Lemma take_drop_string (n : nat) (s : string) : take n s +:+ drop n s = s.
Proof.
  revert s. induction n as [|n IH]; intros s; [reflexivity|].
  destruct s as [|a s]; [reflexivity|]. cbn [take drop].
  change (String a (take n s) +:+ drop n s) with (String a (take n s +:+ drop n s)).
  rewrite IH. reflexivity.
Qed.

Lemma endsWith_iff (suffix s : string) :
  endsWith suffix s = true <-> exists pre, s = pre +:+ suffix.
Proof.
  unfold endsWith. split.
  - intros H. apply andb_true_iff in H. destruct H as [_ H].
    apply String.eqb_eq in H.
    exists (take (String.length s - String.length suffix) s).
    remember (String.length s - String.length suffix)%nat as n eqn:Hn. clear Hn.
    rewrite <- H. symmetry. apply take_drop_string.
  - intros [pre ->]. rewrite length_app_string.
    replace (String.length pre + String.length suffix - String.length suffix)%nat
      with (String.length pre) by lia.
    rewrite drop_length_app, String.eqb_refl, andb_true_r.
    apply Nat.leb_le. lia.
Qed.

(** A text that holds [c] ends with [c] and a piece without [c]. *)
Lemma last_piece (c : ascii) (s : string) :
  hasChar c s = true ->
  exists pre piece, s = pre +:+ String c piece /\ hasChar c piece = false.
Proof.
  induction s as [|a s IH]; intros H; [discriminate|].
  destruct (hasChar c s) eqn:Hs.
  - destruct (IH eq_refl) as (pre & piece & -> & Hp).
    exists (String a pre), piece. split; [reflexivity|exact Hp].
  - cbn [hasChar] in H. rewrite Hs, orb_false_r in H.
    apply Ascii.eqb_eq in H. subst a.
    exists EmptyString, s. split; [reflexivity|exact Hs].
Qed.

Lemma last_of_split (c : ascii) (pre piece : string) :
  hasChar c piece = false ->
  List.last (splitChar c (pre +:+ String c piece)) EmptyString = piece.
Proof.
  intros H. rewrite splitChar_app, (splitChar_single c piece H). apply last_last.
Qed.

(** The suffix test of [fileIconFor] and the extension test of
    [detectLanguage] agree. *)
Lemma endsWith_extension (e s : string) :
  nonEmpty e = true -> hasChar "." e = false ->
  endsWith (String "." e) s = String.eqb (extensionOf s) e.
Proof.
  intros Hne He. unfold extensionOf.
  change "."%string with (str1 "."%char). rewrite includes_char.
  destruct (endsWith (String "." e) s) eqn:Hend.
  - apply endsWith_iff in Hend. destruct Hend as [pre ->].
    rewrite hasChar_app. cbn [hasChar]. rewrite Ascii.eqb_refl, orb_true_r.
    rewrite (last_of_split "." pre e He). symmetry. apply String.eqb_refl.
  - destruct (hasChar "." s) eqn:Hs.
    + destruct (last_piece "." s Hs) as (pre & piece & -> & Hp).
      rewrite (last_of_split "." pre piece Hp).
      destruct (String.eqb_spec piece e) as [->|]; [|reflexivity].
      assert (Ht : endsWith (String "." e) (pre +:+ String "." e) = true)
        by (apply endsWith_iff; exists pre; reflexivity).
      congruence.
    + destruct e; [discriminate|reflexivity].
Qed.

End ExtensionFacts.

(** X27 (icons agree with languages).  A file gets the JSON icon exactly
    when its language is [json], and the code icon exactly when its
    language is [typescript] or [javascript]: the suffix tests of
    [fileIconFor] and the extension tests of [detectLanguage] never
    disagree. *)
Theorem icon_agrees_with_language (path : string) :
  (fileIconFor path = FileJson <-> detectLanguage path = "json") /\
  (fileIconFor path = FileCode
   <-> detectLanguage path = "typescript" \/ detectLanguage path = "javascript").
Proof.
  unfold fileIconFor, detectLanguage. cbv zeta.
  fold (extensionOf (Js.toLowerCase path)).
  rewrite !endsWith_extension by reflexivity.
  generalize (extensionOf (Js.toLowerCase path)). intros ext.
  repeat match goal with
         | |- context [String.eqb ext ?y] =>
             destruct (String.eqb_spec ext y) as [->|?];
             [cbn; split; split; intros H; try reflexivity; try discriminate;
              try (left; reflexivity); try (right; reflexivity);
              try (destruct H; discriminate)|]
         end.
  cbn. split; split; intros H; try discriminate; destruct H; discriminate.
Qed.

(** ** Terminal output *)

Section AnsiFacts.
Import Js JsFacts.

Lemma csiLen_atEscape : atEscape csiLen.
Proof.
  intros a s Ha. unfold csiLen. destruct s as [|b r]; [reflexivity|].
  destruct b as [[] [] [] [] [] [] [] []]; try reflexivity. rewrite Ha. reflexivity.
Qed.

Lemma oscLen_atEscape : atEscape oscLen.
Proof.
  intros a s Ha. unfold oscLen. destruct s as [|b r]; [reflexivity|].
  destruct b as [[] [] [] [] [] [] [] []]; try reflexivity. rewrite Ha. reflexivity.
Qed.

Lemma removeMatches_app_plain (m : string -> option nat) (pre t : string) :
  atEscape m -> hasChar ESC pre = false ->
  removeMatches m O (pre +:+ t) = pre +:+ removeMatches m O t.
Proof.
  intros Hm. induction pre as [|a pre IH]; intros H; [reflexivity|].
  cbn [hasChar] in H. apply orb_false_iff in H. destruct H as [Ha Hp].
  change (String a pre +:+ t) with (String a (pre +:+ t)).
  cbn [removeMatches]. rewrite (Hm a _ Ha), (IH Hp). reflexivity.
Qed.

Lemma removeMatches_plain (m : string -> option nat) (s : string) :
  atEscape m -> hasChar ESC s = false -> removeMatches m O s = s.
Proof.
  intros Hm. induction s as [|a s IH]; intros H; [reflexivity|].
  cbn [hasChar] in H. apply orb_false_iff in H. destruct H as [Ha Hs].
  cbn [removeMatches]. rewrite (Hm a _ Ha), (IH Hs). reflexivity.
Qed.

Lemma removeMatches_skip (m : string -> option nat) (x t : string) :
  removeMatches m (String.length x) (x +:+ t) = removeMatches m O t.
Proof.
  induction x as [|a x IH]; [reflexivity|].
  change (String a x +:+ t) with (String a (x +:+ t)). exact IH.
Qed.

Lemma removeCR_free (s : string) : hasChar CR (removeCR s) = false.
Proof.
  induction s as [|a s IH]; [reflexivity|]. cbn [removeCR].
  destruct (Ascii.eqb a CR) eqn:E; [exact IH|]. cbn [hasChar]. rewrite E, IH. reflexivity.
Qed.

Lemma removeCR_plain (s : string) : hasChar CR s = false -> removeCR s = s.
Proof.
  induction s as [|a s IH]; intros H; [reflexivity|].
  cbn [hasChar] in H. apply orb_false_iff in H. destruct H as [Ha Hs].
  cbn [removeCR]. rewrite Ha, (IH Hs). reflexivity.
Qed.

Lemma classes_disjoint (a : ascii) :
  (isCsiInter a = true -> isCsiParam a = false) /\
  (isCsiFinal a = true -> isCsiParam a = false /\ isCsiInter a = false).
Proof.
  destruct a as [[] [] [] [] [] [] [] []]; vm_compute; repeat split; congruence.
Qed.

Lemma span_stop (p : ascii -> bool) (d : string) (a : ascii) (r : string) :
  allChars p d = true -> p a = false -> span p (d +:+ String a r) = (d, String a r).
Proof. intros Hd Ha. apply span_app; [exact Hd|exact Ha]. Qed.

(** The match of a control sequence at the head of a text. *)
Lemma csiLen_sequence (params inter : string) (final : ascii) (post : string) :
  allChars isCsiParam params = true ->
  allChars isCsiInter inter = true ->
  isCsiFinal final = true ->
  csiLen (csiSequence params inter final +:+ post)
  = Some (String.length (csiSequence params inter final)).
Proof.
  intros Hp Hi Hf. destruct (classes_disjoint final) as [_ Hd].
  destruct (Hd Hf) as [Hfp Hfi].
  unfold csiSequence.
  change (String ESC (String "[" (params +:+ inter +:+ str1 final)) +:+ post)
    with (String ESC (String "[" ((params +:+ inter +:+ str1 final) +:+ post))).
  cbn [csiLen]. rewrite Ascii.eqb_refl.
  rewrite !app_assoc_string.
  change (str1 final +:+ post) with (String final post).
  assert (Hs1 : span isCsiParam (params +:+ inter +:+ String final post)
                = (params, inter +:+ String final post)).
  { apply span_app; [exact Hp|].
    destruct inter as [|b inter]; [exact Hfp|].
    cbn [allChars] in Hi. apply andb_true_iff in Hi.
    apply (proj1 (classes_disjoint b)), Hi. }
  rewrite Hs1, (span_stop isCsiInter inter final post Hi Hfi), Hf.
  f_equal. unfold str1. cbn [String.length]. rewrite !length_app_string.
  cbn [String.length]. lia.
Qed.

Lemma plainText_parts (s : string) :
  plainText s = true -> hasChar ESC s = false /\ hasChar CR s = false.
Proof.
  unfold plainText. intros H. apply andb_true_iff in H. destruct H as [H1 H2].
  apply negb_true_iff in H1, H2. auto.
Qed.

Lemma stripAnsi_plain (s : string) : plainText s = true -> stripAnsiForLog s = s.
Proof.
  intros H. destruct (plainText_parts s H) as [He Hc]. unfold stripAnsiForLog.
  rewrite (removeMatches_plain csiLen s csiLen_atEscape He).
  rewrite (removeMatches_plain oscLen s oscLen_atEscape He).
  apply removeCR_plain, Hc.
Qed.

End AnsiFacts.

(** X28 (cleaning terminal output).  The text that [stripAnsiForLog]
    returns never holds a carriage return; a text without escape character
    and carriage return is returned as it is; and a control sequence (the
    introducer, parameters, intermediates and a final character) between
    two such texts is removed, the texts being kept, as for the colours of
    a red word. *)
Theorem stripAnsiForLog_removes_sequences :
  (forall s, Js.hasChar Js.CR (stripAnsiForLog s) = false) /\
  (forall s, plainText s = true -> stripAnsiForLog s = s) /\
  (forall pre post params inter final,
     plainText pre = true -> plainText post = true ->
     Js.allChars isCsiParam params = true ->
     Js.allChars isCsiInter inter = true ->
     isCsiFinal final = true ->
     stripAnsiForLog (pre +:+ csiSequence params inter final +:+ post) = pre +:+ post) /\
  stripAnsiForLog (csiSequence "31" "" "m" +:+ "red" +:+ csiSequence "0" "" "m") = "red".
Proof.
  split; [intros s; apply removeCR_free|].
  split; [exact stripAnsi_plain|].
  split; [|vm_compute; reflexivity].
  intros pre post params inter final Hpre Hpost Hp Hi Hf.
  destruct (plainText_parts pre Hpre) as [He1 Hc1].
  destruct (plainText_parts post Hpost) as [He2 Hc2].
  assert (Hplain : plainText (pre +:+ post) = true).
  { unfold plainText. rewrite !JsFacts.hasChar_app, He1, He2, Hc1, Hc2. reflexivity. }
  transitivity (stripAnsiForLog (pre +:+ post)); [|apply stripAnsi_plain, Hplain].
  unfold stripAnsiForLog. do 2 f_equal.
  rewrite (removeMatches_app_plain csiLen pre _ csiLen_atEscape He1).
  rewrite (removeMatches_app_plain csiLen pre post csiLen_atEscape He1).
  f_equal.
  pose proof (csiLen_sequence params inter final post Hp Hi Hf) as Hlen.
  remember (csiSequence params inter final) as sq eqn:Hsq.
  destruct sq as [|e sq]; [unfold csiSequence in Hsq; discriminate|].
  change (String e sq +:+ post) with (String e (sq +:+ post)) in *.
  cbn [removeMatches]. rewrite Hlen. cbn [String.length].
  apply removeMatches_skip.
Qed.

(** ** A failed accept *)

Section FailedAccept.

Lemma applyAiEditsNow_prefix (root : option string) (fs fs1 : gmap string string)
    (pre post : list AiEditOp) (e : AiEditOp) (err : string) :
  truthy root = true ->
  applyAiEditsNow root fs pre = (fs1, None) ->
  applyEdit fs1 e = Err err ->
  applyAiEditsNow root fs (pre ++ e :: post) = (fs1, Some err).
Proof.
  intros Hroot Hpre He. unfold applyAiEditsNow in *. rewrite Hroot in *.
  assert (Hloop : applyLoop fs pre = (fs1, None)) by (destruct pre; exact Hpre).
  destruct (pre ++ e :: post) eqn:Happ; [destruct pre; discriminate|].
  rewrite <- Happ, applyLoop_app, Hloop. cbn [applyLoop]. rewrite He. reflexivity.
Qed.

End FailedAccept.

(** X29 (a failed accept is not reverted).  When accepting all changes
    fails at some operation, the operations before it stay applied and the
    change set stays marked as not applied; rejecting all changes then only
    discards the change set: the workspace keeps what was applied. *)
Theorem failed_accept_is_not_reverted
    (s : AppState) (cs : ChangeSet) (answer : bool)
    (pre post : list AiEditOp) (e : AiEditOp) (err : string)
    (fs1 : gmap string string) :
  changeSet s = Some cs ->
  cs_applied cs = false ->
  truthy (ws_root s) = true ->
  confirmApplyChangeSet answer cs = true ->
  cs_edits cs = pre ++ e :: post ->
  applyAiEditsNow (ws_root s) (ws_files s) pre = (fs1, None) ->
  applyEdit fs1 e = Err err ->
  acceptAllChanges answer s = mkAppState (ws_root s) fs1 (Some cs) /\
  rejectAllChanges (acceptAllChanges answer s) = mkAppState (ws_root s) fs1 None.
Proof.
  intros Hcs Happ Hroot Hok Hedits Hpre He.
  assert (H1 : acceptAllChanges answer s = mkAppState (ws_root s) fs1 (Some cs)).
  { unfold acceptAllChanges. rewrite Hcs, Happ, Hroot, Hok. cbn [negb].
    rewrite Hedits, (applyAiEditsNow_prefix _ _ _ _ _ _ _ Hroot Hpre He). reflexivity. }
  split; [exact H1|]. rewrite H1. unfold rejectAllChanges.
  cbn [changeSet]. rewrite Happ. reflexivity.
Qed.

Lemma failed_accept_is_not_reverted_witness :
  (let cs := mkChangeSet "id"
               [opWrite "a.ts" "1"; mkOp "move" (Some "a.ts") None None None;
                opWrite "b.ts" "2"]
               [mkChangeFile fk_write "a.ts" (Some "0") (Some "1");
                mkChangeFile fk_write "b.ts" (Some "0") (Some "2")]
               (mkStats 2 2 2) false in
   let s := mkAppState (Some "/ws") {[ "a.ts" := "0"; "b.ts" := "0" ]} (Some cs) in
   rejectAllChanges (acceptAllChanges true s)
   = mkAppState (Some "/ws") {[ "a.ts" := "1"; "b.ts" := "0" ]} None).
Proof.
  cbv zeta.
  refine (proj2 (failed_accept_is_not_reverted
                   (mkAppState (Some "/ws") {[ "a.ts" := "0"; "b.ts" := "0" ]}
                      (Some (mkChangeSet "id"
                               [opWrite "a.ts" "1"; mkOp "move" (Some "a.ts") None None None;
                                opWrite "b.ts" "2"]
                               [mkChangeFile fk_write "a.ts" (Some "0") (Some "1");
                                mkChangeFile fk_write "b.ts" (Some "0") (Some "2")]
                               (mkStats 2 2 2) false)))
                   (mkChangeSet "id"
                      [opWrite "a.ts" "1"; mkOp "move" (Some "a.ts") None None None;
                       opWrite "b.ts" "2"]
                      [mkChangeFile fk_write "a.ts" (Some "0") (Some "1");
                       mkChangeFile fk_write "b.ts" (Some "0") (Some "2")]
                      (mkStats 2 2 2) false)
                   true [opWrite "a.ts" "1"] [opWrite "b.ts" "2"]
                   (mkOp "move" (Some "a.ts") None None None)
                   "Unsupported AI edit op: move"
                   {[ "a.ts" := "1"; "b.ts" := "0" ]}
                   eq_refl eq_refl eq_refl eq_refl eq_refl _ eq_refl)).
  vm_compute. reflexivity.
Defined.
